(** * CalDom 1.0.6: the reactive core of [src/caldom.js]

    A shallow embedding of the reconciler ([_replace], [_copyProps]), the
    change-observation proxy ([watch]), the insertion engine ([insertBefore]),
    the reactive controller ([react] and the [_willMount] .. [_didUpdate]
    helpers) and the Node Collection accessors ([init], [_eachSingle],
    [_eachMultiple], ..., [eq], [data], [remove]), followed by the
    properties established about them.

    The host (the DOM, [Proxy], [requestAnimationFrame]) is modelled as an
    explicit store:
    - DOM nodes live in a heap [nodes] indexed by node identity, each with its
      [childNodes] list and [parentNode] back pointer, so that moving a node
      (appendChild / replaceChild of a node that already has a parent) and the
      live child list of the reconciler behave as in the host;
    - plain JS objects used as component state live in [objs];
    - every host mutation call and every lifecycle hook invocation is appended
      to [log]; user hooks are opaque signals recorded there.

    Limits of the model: property keys are strings (no symbols). A state
    object is a plain object whose prototype is [Object.prototype]: the
    store keeps its own properties, an assignment to [__proto__] creates
    none, and a read is modelled for own properties only, so that the
    statements about reads leave out the names [Object.prototype] provides
    ([inherited_name]). Numbers are integers; the string form of a value
    is exact for strings, booleans and the integers of the safe range
    ([text_exact]). The host's hierarchy check is modelled for
    [replaceChild]; for [appendChild] and [insertBefore] it is not, nor are
    the validation of attribute names and the coercions in property setters
    (a property is kept as assigned), and the statements that depend on
    them say what they take from the host. [render] and [update] are store
    transformers that cannot themselves call back into [react]. Recursion
    over the heap ([_replace], [isEqualNode], [cloneNode], [isConnected]) is
    bounded by the size of the heap, which bounds the depth of any tree in
    it. *)

From Stdlib Require Import ZArith Ascii String.
From stdpp Require Import base option list strings gmap fin_maps pretty.

Open Scope string_scope.
Open Scope list_scope.

(** ** JavaScript values held by state objects *)

(** [VProxy p t] is the proxy object with identity [p] created by
    [new Proxy(t, handler)]; its target is carried along so that a trap can
    reach it. [VComp c] is a CalDom instance, [VFun f] a function object. *)
Inductive jsval :=
  | VUndef
  | VNull
  | VBool (b : bool)
  | VNum (z : Z)
  | VStr (s : string)
  | VFun (f : nat)
  | VObj (o : nat)
  | VComp (c : nat)
  | VProxy (p : nat) (target : jsval).

(** [typeof v == 'object'] *)
Fixpoint typeof_object (v : jsval) : bool :=
  match v with
  | VNull | VObj _ | VComp _ => true
  | VProxy _ t => typeof_object t
  | _ => false
  end.

(** [v != null] (loose: also excludes [undefined]) *)
Definition not_nullish (v : jsval) : bool :=
  match v with VUndef | VNull => false | _ => true end.

(** [v instanceof CalDom]; a proxy answers for its target. *)
Fixpoint instanceof_CalDom (v : jsval) : bool :=
  match v with
  | VComp _ => true
  | VProxy _ t => instanceof_CalDom t
  | _ => false
  end.

(** [key[0] != "_"] *)
Definition key_is_public (key : string) : bool :=
  match key with
  | String c _ => negb (Ascii.eqb c "_"%char)
  | EmptyString => true
  end.

(** JS truthiness, as used by [if( !this_item )] and friends. *)
Definition truthy (v : jsval) : bool :=
  match v with
  | VUndef | VNull => false
  | VBool b => b
  | VNum z => negb (Z.eqb z 0)
  | VStr s => negb (String.eqb s "")
  | _ => true
  end.

(** Reference identity of two values ([===]). Proxies are compared by their
    own identity, never by their target. *)
Definition strict_eq (a b : jsval) : bool :=
  match a, b with
  | VUndef, VUndef | VNull, VNull => true
  | VBool x, VBool y => Bool.eqb x y
  | VNum x, VNum y => Z.eqb x y
  | VStr x, VStr y => String.eqb x y
  | VFun x, VFun y | VObj x, VObj y | VComp x, VComp y => Nat.eqb x y
  | VProxy p _, VProxy q _ => Nat.eqb p q
  | _, _ => false
  end.

(** ** DOM nodes *)

(** One node of the host tree. Its [kind] gives [nodeType] and [tagName]
    (below). [nodeValue] is [None] (JS [null]) on elements. [proto_has_value] is the host fact
    [Object.getPrototypeOf(node).hasOwnProperty("value")]. The five property
    slots synchronised by [_copyProps] are typed as their IDL types, [None]
    standing for [undefined]; [_data] holds the identity of the data object.
    [_h] is the owning component, [_original_root] the staging pointer. *)
Inductive node_kind := Element (tag : string) | TextNode | CommentNode | DocumentNode.

Record node := Node {
  kind : node_kind;
  attributes : list (string * string);
  childNodes : list nat;
  parentNode : option nat;
  nodeValue : option string;
  proto_has_value : bool;
  value : option string;
  checked : option bool;
  indeterminate : option bool;
  selected : option bool;
  _data : option nat;
  _h : option nat;
  _original_root : option nat;
  style : gmap string string;
  classList : list string;
  expando : gmap string jsval
}.

(** ** CalDom instances *)

(** The changed-key ledger: key name to "is the value still available";
    a slot can also hold [undefined] ([None]), see [react]. *)
Abbreviation ledger := (gmap string (option bool)).

(** The data of one CalDom instance. [multiple] records which accessor set is
    installed ([_setMultipleMode]). [watched] is [None] while unset
    ([undefined] on the prototype). [own_changed_keys] is [None] while the
    instance still inherits the prototype's [_watch_state_changed_keys]
    object. The [has_*] flags tell whether the lifecycle hook is present. *)
Record component := Component {
  elems : list nat;
  multiple : bool;
  watched : option bool;
  state : jsval;
  own_changed_keys : option ledger;
  _watch_state_change_count : nat;
  _z : option positive;
  _v : option (list nat);
  _mounted : bool;
  has_willMount : bool;
  has_didMount : bool;
  has_willUnmount : bool;
  has_didUnmount : bool;
  has_didUpdate : bool
}.

(** ** Host calls and hook signals *)

Inductive hook := WillMount | DidMount | WillUnmount | DidUnmount | DidUpdate.

Inductive event :=
  | EvSetAttribute (n : nat) (k v : string)
  | EvRemoveAttribute (n : nat) (k : string)
  | EvAppendChild (parent child : nat)
  | EvInsertBefore (parent child : nat) (before : option nat)
  | EvRemoveChild (parent child : nat)
  | EvReplaceChild (parent new old : nat)
  | EvSetNodeValue (n : nat) (v : option string)
  | EvSetProp (n : nat) (name : string)
  | EvCreateTextNode (n : nat)
  | EvHook (h : hook) (c : nat) (directly_removed : option bool).

(** ** The store *)

Record world := World {
  objs : gmap nat (gmap string jsval);
  next_proxy : nat;
  nodes : gmap nat node;
  next_node : nat;
  comps : gmap nat component;
  proto_changed_keys : ledger;
  frames : list (positive * nat);
  next_frame : positive;
  has_Proxy : bool;
  log : list event
}.

Definition set_objs (f : gmap nat (gmap string jsval) -> gmap nat (gmap string jsval)) (w : world) : world :=
  World (f (objs w)) (next_proxy w) (nodes w) (next_node w) (comps w)
        (proto_changed_keys w) (frames w) (next_frame w) (has_Proxy w) (log w).

Definition set_next_proxy (n : nat) (w : world) : world :=
  World (objs w) n (nodes w) (next_node w) (comps w)
        (proto_changed_keys w) (frames w) (next_frame w) (has_Proxy w) (log w).

Definition set_nodes (f : gmap nat node -> gmap nat node) (w : world) : world :=
  World (objs w) (next_proxy w) (f (nodes w)) (next_node w) (comps w)
        (proto_changed_keys w) (frames w) (next_frame w) (has_Proxy w) (log w).

Definition set_next_node (n : nat) (w : world) : world :=
  World (objs w) (next_proxy w) (nodes w) n (comps w)
        (proto_changed_keys w) (frames w) (next_frame w) (has_Proxy w) (log w).

Definition set_comps (f : gmap nat component -> gmap nat component) (w : world) : world :=
  World (objs w) (next_proxy w) (nodes w) (next_node w) (f (comps w))
        (proto_changed_keys w) (frames w) (next_frame w) (has_Proxy w) (log w).

Definition set_proto_changed_keys (l : ledger) (w : world) : world :=
  World (objs w) (next_proxy w) (nodes w) (next_node w) (comps w)
        l (frames w) (next_frame w) (has_Proxy w) (log w).

Definition set_frames (fs : list (positive * nat)) (nf : positive) (w : world) : world :=
  World (objs w) (next_proxy w) (nodes w) (next_node w) (comps w)
        (proto_changed_keys w) fs nf (has_Proxy w) (log w).

Definition emit (e : event) (w : world) : world :=
  World (objs w) (next_proxy w) (nodes w) (next_node w) (comps w)
        (proto_changed_keys w) (frames w) (next_frame w) (has_Proxy w) (log w ++ [e]).

Definition empty_world : world :=
  World ∅ 0 ∅ 0 ∅ ∅ [] 1%positive true [].

(** ** watch(what, onSetCallback) *)

(** The property names every plain object inherits from
    [Object.prototype]. *)
Definition object_prototype_names : list string :=
  ["constructor"; "hasOwnProperty"; "isPrototypeOf"; "propertyIsEnumerable";
   "toLocaleString"; "toString"; "valueOf"; "__defineGetter__"; "__defineSetter__";
   "__lookupGetter__"; "__lookupSetter__"; "__proto__"].

Definition inherited_name (key : string) : bool :=
  bool_decide (key ∈ object_prototype_names).

(** The own property [key] of the plain object [o], if it has one. *)
Definition own_property (o : nat) (key : string) (w : world) : option jsval :=
  objs w !! o ≫= (.!! key).

(** [obj[key]] on a plain object, as far as own properties decide it: a
    name that is not an own property reads [undefined] (what a name
    inherited from [Object.prototype] reads when it is not shadowed is
    outside the model; the statements that depend on it exclude those
    names through [inherited_name]). *)
Definition obj_read (o : nat) (key : string) (w : world) : jsval :=
  default VUndef (objs w !! o ≫= (.!! key)).

(** The name under which [Object.prototype] provides the accessor for the
    prototype of an object. *)
Definition proto_key : string := "__proto__".

(** [obj[key] = value] on a plain object. An assignment to [__proto__]
    creates no property: it goes to the inherited accessor, which ignores
    a primitive and re-parents the object for an object or [null] (the
    model keeps own properties only, see the limits above). *)
Definition obj_write (o : nat) (key : string) (v : jsval) (w : world) : world :=
  if String.eqb key proto_key then w
  else set_objs (fun h => <[o := <[key := v]> (default ∅ (h !! o))]> h) w.

(** [delete obj[key]] on a plain object. *)
Definition obj_delete (o : nat) (key : string) (w : world) : world :=
  set_objs (fun h => <[o := delete key (default ∅ (h !! o))]> h) w.

(** [new Proxy(target, handler)]: a proxy with a fresh identity. *)
Definition new_Proxy (target : jsval) (w : world) : jsval * world :=
  (VProxy (next_proxy w) target, set_next_proxy (S (next_proxy w)) w).

(** The [get] trap, invoked with [obj] the proxy's target. When the target is
    itself a proxy, [obj[key]] runs that proxy's trap first (the handler is
    shared by all wrappers made by one [watch]). *)
Fixpoint trap_get (obj : jsval) (key : string) (w : world) : jsval * world :=
  let '(destination, w1) :=
    match obj with
    | VObj o => (obj_read o key w, w)
    | VProxy _ t => trap_get t key w
    | _ => (VUndef, w)
    end in
  if typeof_object destination && not_nullish destination
     && negb (instanceof_CalDom destination) && key_is_public key
  then new_Proxy destination w1
  else (destination, w1).

Section WatchTraps.
(** The callback registered with [watch]; it acts on the store. *)
Variable onSetCallback : string -> bool -> world -> world.

(** The [set] trap: [obj[key] = value; onSetCallback(key, true)]. *)
Fixpoint trap_set (obj : jsval) (key : string) (v : jsval) (w : world) : world :=
  let w1 :=
    match obj with
    | VObj o => obj_write o key v w
    | VProxy _ t => trap_set t key v w
    | _ => w
    end in
  onSetCallback key true w1.

(** The [deleteProperty] trap: [delete obj[key]; onSetCallback(key, false)]. *)
Fixpoint trap_deleteProperty (obj : jsval) (key : string) (w : world) : world :=
  let w1 :=
    match obj with
    | VObj o => obj_delete o key w
    | VProxy _ t => trap_deleteProperty t key w
    | _ => w
    end in
  onSetCallback key false w1.

(** [proxy[key] = value] and [delete proxy[key]] as seen by user code. *)
Definition proxy_write (proxy : jsval) (key : string) (v : jsval) (w : world) : world :=
  match proxy with
  | VProxy _ t => trap_set t key v w
  | VObj o => obj_write o key v w
  | _ => w
  end.

Definition proxy_delete (proxy : jsval) (key : string) (w : world) : world :=
  match proxy with
  | VProxy _ t => trap_deleteProperty t key w
  | VObj o => obj_delete o key w
  | _ => w
  end.
End WatchTraps.

(** [watch(what, cb)]: the root wrapper. *)
Definition watch (what : jsval) (w : world) : jsval * world := new_Proxy what w.

(** [value[key]] as seen by user code. *)
Definition js_get (v : jsval) (key : string) (w : world) : jsval * world :=
  match v with
  | VProxy _ t => trap_get t key w
  | VObj o => (obj_read o key w, w)
  | _ => (VUndef, w)
  end.

(** The plain object a chain of wrappers ends in. *)
Fixpoint underlying (v : jsval) : jsval :=
  match v with
  | VProxy _ t => underlying t
  | _ => v
  end.

(** ** Field updates on nodes and instances *)

Definition with_attributes (x : list (string * string)) (n : node) : node :=
  Node (kind n) x (childNodes n) (parentNode n) (nodeValue n) (proto_has_value n) (value n) (checked n) (indeterminate n) (selected n) (_data n) (_h n) (_original_root n) (style n) (classList n) (expando n).

Definition with_childNodes (x : list nat) (n : node) : node :=
  Node (kind n) (attributes n) x (parentNode n) (nodeValue n) (proto_has_value n) (value n) (checked n) (indeterminate n) (selected n) (_data n) (_h n) (_original_root n) (style n) (classList n) (expando n).

Definition with_parentNode (x : option nat) (n : node) : node :=
  Node (kind n) (attributes n) (childNodes n) x (nodeValue n) (proto_has_value n) (value n) (checked n) (indeterminate n) (selected n) (_data n) (_h n) (_original_root n) (style n) (classList n) (expando n).

Definition with_nodeValue (x : option string) (n : node) : node :=
  Node (kind n) (attributes n) (childNodes n) (parentNode n) x (proto_has_value n) (value n) (checked n) (indeterminate n) (selected n) (_data n) (_h n) (_original_root n) (style n) (classList n) (expando n).

Definition with_value (x : option string) (n : node) : node :=
  Node (kind n) (attributes n) (childNodes n) (parentNode n) (nodeValue n) (proto_has_value n) x (checked n) (indeterminate n) (selected n) (_data n) (_h n) (_original_root n) (style n) (classList n) (expando n).

Definition with_checked (x : option bool) (n : node) : node :=
  Node (kind n) (attributes n) (childNodes n) (parentNode n) (nodeValue n) (proto_has_value n) (value n) x (indeterminate n) (selected n) (_data n) (_h n) (_original_root n) (style n) (classList n) (expando n).

Definition with_indeterminate (x : option bool) (n : node) : node :=
  Node (kind n) (attributes n) (childNodes n) (parentNode n) (nodeValue n) (proto_has_value n) (value n) (checked n) x (selected n) (_data n) (_h n) (_original_root n) (style n) (classList n) (expando n).

Definition with_selected (x : option bool) (n : node) : node :=
  Node (kind n) (attributes n) (childNodes n) (parentNode n) (nodeValue n) (proto_has_value n) (value n) (checked n) (indeterminate n) x (_data n) (_h n) (_original_root n) (style n) (classList n) (expando n).

Definition with_data (x : option nat) (n : node) : node :=
  Node (kind n) (attributes n) (childNodes n) (parentNode n) (nodeValue n) (proto_has_value n) (value n) (checked n) (indeterminate n) (selected n) x (_h n) (_original_root n) (style n) (classList n) (expando n).

Definition with_h (x : option nat) (n : node) : node :=
  Node (kind n) (attributes n) (childNodes n) (parentNode n) (nodeValue n) (proto_has_value n) (value n) (checked n) (indeterminate n) (selected n) (_data n) x (_original_root n) (style n) (classList n) (expando n).

Definition with_original_root (x : option nat) (n : node) : node :=
  Node (kind n) (attributes n) (childNodes n) (parentNode n) (nodeValue n) (proto_has_value n) (value n) (checked n) (indeterminate n) (selected n) (_data n) (_h n) x (style n) (classList n) (expando n).

Definition with_style (x : gmap string string) (n : node) : node :=
  Node (kind n) (attributes n) (childNodes n) (parentNode n) (nodeValue n) (proto_has_value n) (value n) (checked n) (indeterminate n) (selected n) (_data n) (_h n) (_original_root n) x (classList n) (expando n).

Definition with_classList (x : list string) (n : node) : node :=
  Node (kind n) (attributes n) (childNodes n) (parentNode n) (nodeValue n) (proto_has_value n) (value n) (checked n) (indeterminate n) (selected n) (_data n) (_h n) (_original_root n) (style n) x (expando n).

Definition with_expando (x : gmap string jsval) (n : node) : node :=
  Node (kind n) (attributes n) (childNodes n) (parentNode n) (nodeValue n) (proto_has_value n) (value n) (checked n) (indeterminate n) (selected n) (_data n) (_h n) (_original_root n) (style n) (classList n) x.

Definition with_elems (x : list nat) (c : component) : component :=
  Component x (multiple c) (watched c) (state c) (own_changed_keys c) (_watch_state_change_count c) (_z c) (_v c) (_mounted c) (has_willMount c) (has_didMount c) (has_willUnmount c) (has_didUnmount c) (has_didUpdate c).

Definition with_multiple (x : bool) (c : component) : component :=
  Component (elems c) x (watched c) (state c) (own_changed_keys c) (_watch_state_change_count c) (_z c) (_v c) (_mounted c) (has_willMount c) (has_didMount c) (has_willUnmount c) (has_didUnmount c) (has_didUpdate c).

Definition with_watched (x : option bool) (c : component) : component :=
  Component (elems c) (multiple c) x (state c) (own_changed_keys c) (_watch_state_change_count c) (_z c) (_v c) (_mounted c) (has_willMount c) (has_didMount c) (has_willUnmount c) (has_didUnmount c) (has_didUpdate c).

Definition with_state (x : jsval) (c : component) : component :=
  Component (elems c) (multiple c) (watched c) x (own_changed_keys c) (_watch_state_change_count c) (_z c) (_v c) (_mounted c) (has_willMount c) (has_didMount c) (has_willUnmount c) (has_didUnmount c) (has_didUpdate c).

Definition with_changed_keys (x : option ledger) (c : component) : component :=
  Component (elems c) (multiple c) (watched c) (state c) x (_watch_state_change_count c) (_z c) (_v c) (_mounted c) (has_willMount c) (has_didMount c) (has_willUnmount c) (has_didUnmount c) (has_didUpdate c).

Definition with_change_count (x : nat) (c : component) : component :=
  Component (elems c) (multiple c) (watched c) (state c) (own_changed_keys c) x (_z c) (_v c) (_mounted c) (has_willMount c) (has_didMount c) (has_willUnmount c) (has_didUnmount c) (has_didUpdate c).

Definition with_z (x : option positive) (c : component) : component :=
  Component (elems c) (multiple c) (watched c) (state c) (own_changed_keys c) (_watch_state_change_count c) x (_v c) (_mounted c) (has_willMount c) (has_didMount c) (has_willUnmount c) (has_didUnmount c) (has_didUpdate c).

Definition with_v (x : option (list nat)) (c : component) : component :=
  Component (elems c) (multiple c) (watched c) (state c) (own_changed_keys c) (_watch_state_change_count c) (_z c) x (_mounted c) (has_willMount c) (has_didMount c) (has_willUnmount c) (has_didUnmount c) (has_didUpdate c).

Definition with_mounted (x : bool) (c : component) : component :=
  Component (elems c) (multiple c) (watched c) (state c) (own_changed_keys c) (_watch_state_change_count c) (_z c) (_v c) x (has_willMount c) (has_didMount c) (has_willUnmount c) (has_didUnmount c) (has_didUpdate c).

(** ** Outcomes of fallible code *)

(** [Ok a w]: the call returned [a] in store [w]; [Throw w]: the host raised
    (a TypeError on [undefined]/[null], a NotFoundError) in store [w];
    [OutOfFuel]: the recursion bound of the model was exhausted. *)
Inductive outcome (A : Type) :=
  | Ok (a : A) (w : world)
  | Throw (w : world)
  | OutOfFuel.
Arguments Ok {A} a w.
Arguments Throw {A} w.
Arguments OutOfFuel {A}.

Definition bind {A B : Type} (m : outcome A) (k : A -> world -> outcome B) : outcome B :=
  match m with
  | Ok a w => k a w
  | Throw w => Throw w
  | OutOfFuel => OutOfFuel
  end.

(** ** The node capability surface of the host *)

Definition nodeType (n : node) : nat :=
  match kind n with Element _ => 1 | TextNode => 3 | CommentNode => 8 | DocumentNode => 9 end.

Definition tagName (n : node) : option string :=
  match kind n with Element t => Some t | _ => None end.

Fixpoint assoc (k : string) (l : list (string * string)) : option string :=
  match l with
  | [] => None
  | (k', v) :: t => if String.eqb k k' then Some v else assoc k t
  end.

Fixpoint assoc_set (k v : string) (l : list (string * string)) : list (string * string) :=
  match l with
  | [] => [(k, v)]
  | (k', v') :: t => if String.eqb k k' then (k, v) :: t else (k', v') :: assoc_set k v t
  end.

Fixpoint assoc_remove (k : string) (l : list (string * string)) : list (string * string) :=
  match l with
  | [] => []
  | (k', v') :: t => if String.eqb k k' then t else (k', v') :: assoc_remove k t
  end.

Definition getAttribute (n : node) (name : string) : option string :=
  assoc name (attributes n).

Definition hasAttribute (n : node) (name : string) : bool :=
  bool_decide (is_Some (getAttribute n name)).

Definition hasChildNodes (n : node) : bool :=
  match childNodes n with [] => false | _ => true end.

(** Removal of a child from a child list (a node occurs at most once). *)
Fixpoint remove_child (c : nat) (l : list nat) : list nat :=
  match l with
  | [] => []
  | x :: t => if Nat.eqb x c then t else x :: remove_child c t
  end.

(** [l] with [new] put in the place of [old]. *)
Fixpoint replace_child (new old : nat) (l : list nat) : list nat :=
  match l with
  | [] => []
  | x :: t => if Nat.eqb x old then new :: t else x :: replace_child new old t
  end.

(** [l] with [c] inserted before [ref]. *)
Fixpoint insert_child_before (c ref : nat) (l : list nat) : list nat :=
  match l with
  | [] => [c]
  | x :: t => if Nat.eqb x ref then c :: x :: t else x :: insert_child_before c ref t
  end.

Definition upd (n : nat) (f : node -> node) (w : world) : world :=
  set_nodes (alter f n) w.

Definition children_of (n : nat) (w : world) : list nat :=
  default [] (childNodes <$> nodes w !! n).

Definition parent_of (n : nat) (w : world) : option nat :=
  nodes w !! n ≫= parentNode.

Definition is_child (c p : nat) (w : world) : bool :=
  bool_decide (c ∈ children_of p w).

(** A node inserted somewhere first leaves its previous parent. *)
Definition detach (c : nat) (w : world) : world :=
  match parent_of c w with
  | Some p =>
      upd c (with_parentNode None)
        (upd p (fun nd => with_childNodes (remove_child c (childNodes nd)) nd) w)
  | None => w
  end.

Definition host_setAttribute (n : nat) (k v : string) (w : world) : world :=
  emit (EvSetAttribute n k v)
    (upd n (fun nd => with_attributes (assoc_set k v (attributes nd)) nd) w).

Definition host_removeAttribute (n : nat) (k : string) (w : world) : world :=
  emit (EvRemoveAttribute n k)
    (upd n (fun nd => with_attributes (assoc_remove k (attributes nd)) nd) w).

(** [parent.appendChild(child)], for a child the host accepts: the host
    refuses a child that contains the parent, which the model does not
    check here (see the limits above). *)
Definition host_appendChild (p c : nat) (w : world) : world :=
  let w1 := detach c w in
  emit (EvAppendChild p c)
    (upd c (with_parentNode (Some p))
      (upd p (fun nd => with_childNodes (childNodes nd ++ [c]) nd) w1)).

(** The sibling following [c] in [l]. *)
Fixpoint next_sibling (c : nat) (l : list nat) : option nat :=
  match l with
  | [] => None
  | x :: t => if Nat.eqb x c then head t else next_sibling c t
  end.

(** [parent.insertBefore(child, ref)]; a [null] reference appends, a reference
    that is not a child of [parent] raises NotFoundError. As for
    [appendChild], the hierarchy check is left to the host. *)
Definition host_insertBefore (p c : nat) (ref : option nat) (w : world) : outcome unit :=
  match ref with
  | None => Ok tt (emit (EvInsertBefore p c None)
      (upd c (with_parentNode (Some p))
        (upd p (fun nd => with_childNodes (childNodes nd ++ [c]) nd) (detach c w))))
  | Some r =>
      if is_child r p w then
        let r' := if Nat.eqb r c then next_sibling c (children_of p w) else Some r in
        let w1 := detach c w in
        Ok tt (emit (EvInsertBefore p c ref)
          (upd c (with_parentNode (Some p))
            (upd p (fun nd => with_childNodes
               (match r' with
                | Some x => insert_child_before c x (childNodes nd)
                | None => childNodes nd ++ [c]
                end) nd) w1)))
      else Throw w
  end.

(** [parent.removeChild(child)]; NotFoundError when [child] is not a child. *)
Definition host_removeChild (p c : nat) (w : world) : outcome unit :=
  if is_child c p w then
    Ok tt (emit (EvRemoveChild p c)
      (upd c (with_parentNode None)
        (upd p (fun nd => with_childNodes (remove_child c (childNodes nd)) nd) w)))
  else Throw w.

(** [a.contains(x)]: [a] is [x] or one of its ancestors. The walk up the
    parent pointers is bounded by the size of the heap. *)
Fixpoint contains_fuel (fuel : nat) (a x : nat) (w : world) : bool :=
  Nat.eqb x a
  || match fuel with
     | 0 => false
     | S fuel' =>
         match parent_of x w with
         | Some q => contains_fuel fuel' a q w
         | None => false
         end
     end.

Definition host_contains (a x : nat) (w : world) : bool :=
  contains_fuel (size (nodes w)) a x w.

(** [parent.replaceChild(new, old)]; HierarchyRequestError when [new] is
    [parent] or one of its ancestors, NotFoundError when [old] is not a
    child. *)
Definition host_replaceChild (p new old : nat) (w : world) : outcome unit :=
  if host_contains new p w then Throw w
  else if is_child old p w then
    if Nat.eqb new old then Ok tt (emit (EvReplaceChild p new old) w)
    else
      let w1 := detach new w in
      Ok tt (emit (EvReplaceChild p new old)
        (upd old (with_parentNode None)
          (upd new (with_parentNode (Some p))
            (upd p (fun nd => with_childNodes (replace_child new old (childNodes nd)) nd) w1))))
  else Throw w.

(** [node.nodeValue = v]: only character data nodes have a settable value
    ([null] is stored as the empty string); on other nodes the setter does
    nothing. *)
Definition host_set_nodeValue (n : nat) (v : option string) (w : world) : world :=
  emit (EvSetNodeValue n v)
    (upd n (fun nd => match kind nd with
                      | Element _ | DocumentNode => nd
                      | _ => with_nodeValue (Some (default "" v)) nd
                      end) w).

(** [a.isEqualNode(b)], the host's structural equality: same kind and tag,
    the same attributes whatever their order (as many on both sides, each
    attribute of one found with the same value on the other), the same
    character data, and pairwise equal children. Properties and expandos are not compared. The
    recursion is bounded by [fuel]. *)
Definition kind_eqb (a b : node_kind) : bool :=
  match a, b with
  | Element s, Element t => String.eqb s t
  | TextNode, TextNode | CommentNode, CommentNode | DocumentNode, DocumentNode => true
  | _, _ => false
  end.

Definition attrs_eqb (a b : list (string * string)) : bool :=
  Nat.eqb (length a) (length b)
  && forallb (fun kv => bool_decide (assoc (fst kv) b = Some (snd kv))) a
  && forallb (fun kv => bool_decide (assoc (fst kv) a = Some (snd kv))) b.

Fixpoint isEqualNode_fuel (fuel : nat) (w : world) (a b : nat) : bool :=
  match fuel with
  | 0 => false
  | S fuel' =>
      match nodes w !! a, nodes w !! b with
      | Some na, Some nb =>
          kind_eqb (kind na) (kind nb)
          && attrs_eqb (attributes na) (attributes nb)
          && match kind na with
             | Element _ | DocumentNode => true
             | _ => bool_decide (nodeValue na = nodeValue nb)
             end
          && Nat.eqb (length (childNodes na)) (length (childNodes nb))
          && forallb (fun ab => isEqualNode_fuel fuel' w (fst ab) (snd ab))
               (zip (childNodes na) (childNodes nb))
      | _, _ => false
      end
  end.

(** A tree of the heap is no deeper than the heap is large. *)
Definition isEqualNode (w : world) (a b : nat) : bool :=
  isEqualNode_fuel (S (size (nodes w))) w a b.

(** ** Lifecycle helpers of a CalDom instance *)

Definition get_comp (c : nat) (w : world) : option component := comps w !! c.

Definition upd_comp (c : nat) (f : component -> component) (w : world) : world :=
  set_comps (alter f c) w.

(** Calling a user hook: recorded in the log when the hook is present. *)
Definition call_hook (present : component -> bool) (h : hook) (c : nat)
    (directly_removed : option bool) (w : world) : world :=
  match get_comp c w with
  | Some cd => if present cd then emit (EvHook h c directly_removed) w else w
  | None => w
  end.

(** [_willUnmount(directly_removed)] *)
Definition _willUnmount (c : nat) (directly_removed : option bool) (w : world) : world :=
  call_hook has_willUnmount WillUnmount c directly_removed w.

(** [_didUnmount(directly_removed)] *)
Definition _didUnmount (c : nat) (directly_removed : option bool) (w : world) : world :=
  call_hook has_didUnmount DidUnmount c directly_removed
    (upd_comp c (with_mounted false) w).

(** [_didMount()] *)
Definition _didMount (c : nat) (w : world) : world :=
  match get_comp c w with
  | Some cd =>
      let already_mounted := _mounted cd in
      let w1 := upd_comp c (with_mounted true) w in
      if negb already_mounted then call_hook has_didMount DidMount c None w1 else w1
  | None => w
  end.

(** The current ledger of an instance: its own object once it has one,
    otherwise the object shared through the prototype. *)
Definition changed_keys (c : nat) (w : world) : ledger :=
  match get_comp c w ≫= own_changed_keys with
  | Some l => l
  | None => proto_changed_keys w
  end.

Definition change_count (c : nat) (w : world) : nat :=
  default 0 (_watch_state_change_count <$> get_comp c w).

(** [_didUpdate()]: a fresh empty ledger, a zero count, then the hook. *)
Definition _didUpdate (c : nat) (w : world) : world :=
  call_hook has_didUpdate DidUpdate c None
    (upd_comp c (fun cd => with_change_count 0 (with_changed_keys (Some ∅) cd)) w).

(** [comp.elems[0] = node] *)
Definition set_elems0 (n : nat) (cd : component) : component :=
  with_elems (match elems cd with [] => [n] | _ :: t => n :: t end) cd.

(** ** _copyProps *)

(** [if( old[p] != new[p] ) old[p] = new[p]] for one property slot. *)
Definition sync_prop {A : Type} `{EqDecision A} (name : string)
    (get : node -> A) (set : A -> node -> node) (new old : nat) (w : world) : world :=
  match nodes w !! new, nodes w !! old with
  | Some nn, Some on =>
      if bool_decide (get on = get nn) then w
      else emit (EvSetProp old name) (upd old (set (get nn)) w)
  | _, _ => w
  end.

(** The part of [_copyProps] that does not enumerate children; [Throw] when
    a node is [undefined]. *)
Definition _copyProps_own (new_dom_node old_dom_node : option nat) (w : world) : outcome unit :=
  match new_dom_node, old_dom_node with
  | Some n, Some o =>
      match nodes w !! n, nodes w !! o with
      | Some _, Some on =>
          let w1 :=
            if proto_has_value on then
              sync_prop "indeterminate" indeterminate with_indeterminate n o
                (sync_prop "checked" checked with_checked n o
                  (sync_prop "value" value with_value n o w))
            else w in
          Ok tt (sync_prop "_data" _data with_data n o
                  (sync_prop "selected" selected with_selected n o w1))
      | _, _ => Throw w
      end
  | _, _ => Throw w
  end.

(** [node.children]: the element children. *)
Definition element_children (n : nat) (w : world) : list nat :=
  filter (fun c => (nodeType <$> nodes w !! c) = Some 1) (children_of n w).

(** The loop [for i < new_children.length: _copyProps(new_children[i], old_children[i])]. *)
Fixpoint copy_children (news olds : list nat) (w : world) : outcome unit :=
  match news with
  | [] => Ok tt w
  | n :: news' =>
      bind (_copyProps_own (Some n) (head olds) w)
           (fun _ w' => copy_children news' (tail olds) w')
  end.

Definition _copyProps (new_dom_node old_dom_node : nat) (enumerate_children : bool)
    (w : world) : outcome unit :=
  bind (_copyProps_own (Some new_dom_node) (Some old_dom_node) w) (fun _ w1 =>
    if enumerate_children then
      copy_children (element_children new_dom_node w1) (element_children old_dom_node w1) w1
    else Ok tt w1).

(** ** _replace *)

Definition caldom_v : string := "caldom-v".

(** The decision of [_replace]: may the live node be patched in place? *)
Definition soft_replacable (nd od : node) : bool :=
  Nat.eqb (nodeType nd) 1
  && bool_decide (tagName nd = tagName od)
  && bool_decide (_h nd = _h od)
  && bool_decide (getAttribute nd caldom_v = getAttribute od caldom_v).

(** [if( replaced_elem && replaced_elem["_h"] ) replaced_elem["_h"].elems[0] = replaced_elem] *)
Definition track_replaced (replaced_elem : option nat) (w : world) : world :=
  match replaced_elem with
  | Some re =>
      match nodes w !! re ≫= _h with
      | Some h => upd_comp h (set_elems0 re) w
      | None => w
      end
  | None => w
  end.

(** The pairwise walk: the [i]-th candidate child (taken from the snapshot
    [cs]) against the [i]-th child of the live list, read when the pair is
    reached. [rec] is the recursive [_replace]. *)
Fixpoint walk_children (rec : option nat -> option nat -> nat -> world -> outcome (option nat))
    (old : nat) (cs : list nat) (i : nat) (w : world) : outcome unit :=
  match cs with
  | [] => Ok tt w
  | c :: cs' =>
      bind (rec (Some c) (children_of old w !! i) old w)
           (fun replaced_elem w1 => walk_children rec old cs' (S i) (track_replaced replaced_elem w1))
  end.

(** One removal of the trailing loop: unmount-begin signal, [removeChild],
    unmount-complete signal. *)
Definition remove_trailing_child (old child : nat) (w : world) : outcome unit :=
  let owner := nodes w !! child ≫= _h in
  let w1 := match owner with Some h => _willUnmount h None w | None => w end in
  bind (host_removeChild old child w1) (fun _ w2 =>
    Ok tt (match owner with Some h => _didUnmount h None w2 | None => w2 end)).

(** The trailing loop [for( ; i < old.childNodes.length; i++ ){ ...; i--; }]:
    as long as the live list has a child at index [i], remove it. [bound]
    limits the number of iterations. *)
Fixpoint remove_trailing (bound : nat) (old i : nat) (w : world) : outcome unit :=
  match children_of old w !! i with
  | None => Ok tt w
  | Some child =>
      match bound with
      | 0 => OutOfFuel
      | S bound' =>
          bind (remove_trailing_child old child w)
               (fun _ w1 => remove_trailing bound' old i w1)
      end
  end.

(** Attribute synchronisation: write the candidate's attributes that differ,
    then drop the live attributes the candidate lacks (attribute names are
    unique within a node, so the second loop can run over the live list as it
    stands when the loop starts). *)
Definition sync_attributes (new old : nat) (w : world) : world :=
  match nodes w !! new with
  | Some nd =>
      let w1 := foldl (fun acc kv =>
                  if bool_decide ((nodes acc !! old ≫= fun od => getAttribute od (fst kv)) = Some (snd kv))
                  then acc else host_setAttribute old (fst kv) (snd kv) acc)
                  w (attributes nd) in
      foldl (fun acc kv =>
               if hasAttribute nd (fst kv) then acc else host_removeAttribute old (fst kv) acc)
            w1 (default [] (attributes <$> nodes w1 !! old))
  | None => w
  end.

(** The child phase of the soft path; returns [copy_props_recursively]. *)
Definition reconcile_children (rec : option nat -> option nat -> nat -> world -> outcome (option nat))
    (new old : nat) (nd od : node) (w : world) : outcome bool :=
  let new_dom_has_child_nodes := hasChildNodes nd in
  if new_dom_has_child_nodes || hasChildNodes od then
    if new_dom_has_child_nodes then
      bind (walk_children rec old (childNodes nd) 0 w) (fun _ w1 =>
        bind (remove_trailing (length (children_of old w1)) old (length (childNodes nd)) w1)
             (fun _ w2 => Ok false w2))
    else
      bind (remove_trailing (length (children_of old w)) old 0 w)
           (fun _ w2 => Ok true w2)
  else Ok true w.

(** The hard replacement of [old] by [new]. *)
Definition hard_replace (new old : nat) (od : node) (w : world) : outcome (option nat) :=
  let w1 := match _h od with Some h => _willUnmount h None w | None => w end in
  match parent_of old w1 with
  | None => Throw w1
  | Some p =>
      bind (host_replaceChild p new old w1) (fun _ w2 =>
        Ok (Some new) (match _h od with Some h => _didUnmount h None w2 | None => w2 end))
  end.

(** The soft path: children first, then attributes, then properties. *)
Definition soft_replace (rec : option nat -> option nat -> nat -> world -> outcome (option nat))
    (n o : nat) (nd od : node) (w : world) : outcome (option nat) :=
  bind (if negb (isEqualNode w n o) then
          bind (reconcile_children rec n o nd od w)
            (fun copy_props_recursively w1 =>
               Ok copy_props_recursively
                  (if negb (isEqualNode w1 n o) then sync_attributes n o w1 else w1))
        else Ok true w)
    (fun copy_props_recursively w2 =>
       bind (_copyProps n o copy_props_recursively w2) (fun _ w3 => Ok None w3)).

(** The other path: nothing for equal nodes, the value for a non-element
    candidate, a hard replacement otherwise. *)
Definition replace_whole (n o : nat) (nd od : node) (w : world) : outcome (option nat) :=
  if negb (isEqualNode w n o) then
    if negb (Nat.eqb (nodeType nd) 1) then
      Ok None (host_set_nodeValue o (nodeValue nd) w)
    else hard_replace n o od w
  else Ok None w.

Fixpoint _replace_fuel (fuel : nat) (new_dom_node old_dom_node : option nat)
    (old_dom_node_parent : nat) (w : world) : outcome (option nat) :=
  match fuel with
  | 0 => OutOfFuel
  | S fuel' =>
      match new_dom_node with
      | None => Ok None w
      | Some n0 =>
          match nodes w !! n0 with
          | None => Throw w
          | Some n0d =>
              let n := default n0 (_original_root n0d) in
              match old_dom_node with
              | None => Ok (Some n) (host_appendChild old_dom_node_parent n w)
              | Some o =>
                  match nodes w !! n, nodes w !! o with
                  | Some nd, Some od =>
                      if soft_replacable nd od
                      then soft_replace (_replace_fuel fuel') n o nd od w
                      else replace_whole n o nd od w
                  | _, _ => Throw w
                  end
              end
          end
      end
  end.

(** The candidate tree is no deeper than the heap is large. *)
Definition _replace (new_dom_node old_dom_node : option nat) (old_dom_node_parent : nat)
    (w : world) : outcome (option nat) :=
  _replace_fuel (S (size (nodes w))) new_dom_node old_dom_node old_dom_node_parent w.

(** ** More of the host: connectivity, cloning, text nodes, frames *)

(** [node.isConnected]: the node's root is a document. *)
Fixpoint isConnected_fuel (fuel : nat) (n : nat) (w : world) : bool :=
  match fuel with
  | 0 => false
  | S fuel' =>
      match nodes w !! n with
      | Some nd =>
          match kind nd with
          | DocumentNode => true
          | _ => match parentNode nd with
                 | Some p => isConnected_fuel fuel' p w
                 | None => false
                 end
          end
      | None => false
      end
  end.

Definition _isNodeConnected (n : nat) (w : world) : bool :=
  isConnected_fuel (S (size (nodes w))) n w.

(** A detached copy of one node: kind, attributes, character data and the
    form-control state are carried over; expandos ([_h], [_data],
    [_original_root], custom properties) are not. *)
Definition clone_shallow (nd : node) : node :=
  Node (kind nd) (attributes nd) [] None (nodeValue nd) (proto_has_value nd)
       (value nd) (checked nd) (indeterminate nd) (selected nd)
       None None None (style nd) (classList nd) ∅.

Definition alloc_node (nd : node) (w : world) : nat * world :=
  (next_node w, set_next_node (S (next_node w)) (set_nodes <[next_node w := nd]> w)).

(** [node.cloneNode(true)] *)
Fixpoint cloneNode_fuel (fuel : nat) (n : nat) (w : world) : option (nat * world) :=
  match fuel with
  | 0 => None
  | S fuel' =>
      match nodes w !! n with
      | None => None
      | Some nd =>
          let '(id, w1) := alloc_node (clone_shallow nd) w in
          foldl (fun acc c =>
                   match acc with
                   | Some (_, wa) =>
                       match cloneNode_fuel fuel' c wa with
                       | Some (cid, wb) =>
                           Some (id, upd cid (with_parentNode (Some id))
                                       (upd id (fun x => with_childNodes (childNodes x ++ [cid]) x) wb))
                       | None => None
                       end
                   | None => None
                   end)
                (Some (id, w1)) (childNodes nd)
      end
  end.

Definition cloneNode (n : nat) (w : world) : option (nat * world) :=
  cloneNode_fuel (S (size (nodes w))) n w.

(** [document.createTextNode(data)] *)
Definition createTextNode (data : string) (w : world) : nat * world :=
  let '(id, w1) := alloc_node
    (Node TextNode [] [] None (Some data) false None None None None None None None ∅ [] ∅) w in
  (id, emit (EvCreateTextNode id) w1).

(** [_requestAnimationFramePolyfill(callback)]: the callback of instance [c]
    (always [c.react(..., true)]) is queued; the handle is a non-zero
    integer. *)
Definition requestAnimationFrame (c : nat) (w : world) : positive * world :=
  (next_frame w, set_frames (frames w ++ [(next_frame w, c)]) (Pos.succ (next_frame w)) w).

(** ** react *)

Inductive render_result := RFalsy | RNode (n : nat) | RCalDom (c : nat).

(** User code: [render(state, self)] and [update(state, self, changed_keys,
    change_count)] act on the store and may raise. Only the truthiness of
    what [update] returns matters. *)
Definition render_fn := jsval -> nat -> world -> outcome render_result.
Definition update_fn := jsval -> nat -> ledger -> nat -> world -> outcome bool.

Record callbacks := Callbacks {
  render : option render_fn;
  update : option update_fn
}.

(** The functions attached to each instance. *)
Abbreviation env := (gmap nat callbacks).

Definition callbacks_of (e : env) (c : nat) : callbacks :=
  default (Callbacks None None) (e !! c).

(** A configuration object; each field is [Some x] when the key is present. *)
Record config := Config {
  cfg_render : option (option render_fn);
  cfg_update : option (option update_fn);
  cfg_watched : option (option bool);
  cfg_willMount : option bool;
  cfg_didMount : option bool;
  cfg_willUnmount : option bool;
  cfg_didUnmount : option bool;
  cfg_didUpdate : option bool
}.

(** [for( var key in config ) _this[key] = config[key]] *)
Definition merge_config_env (cfg : config) (cb : callbacks) : callbacks :=
  Callbacks (default (render cb) (cfg_render cfg)) (default (update cb) (cfg_update cfg)).

Definition merge_config_comp (cfg : config) (cd : component) : component :=
  Component (elems cd) (multiple cd) (default (watched cd) (cfg_watched cfg)) (state cd)
    (own_changed_keys cd) (_watch_state_change_count cd) (_z cd) (_v cd) (_mounted cd)
    (default (has_willMount cd) (cfg_willMount cfg))
    (default (has_didMount cd) (cfg_didMount cfg))
    (default (has_willUnmount cd) (cfg_willUnmount cfg))
    (default (has_didUnmount cd) (cfg_didUnmount cfg))
    (default (has_didUpdate cd) (cfg_didUpdate cfg)).

(** The arguments of one [react] call; [a_argc] is [arguments.length]. *)
Record react_args := ReactArgs {
  a_state : jsval;
  a_config : option config;
  a_is_watched_updated : bool;
  a_state_changed_key : option string;
  a_state_is_key_available : option bool;
  a_mounting : bool;
  a_is_request_animation_frame : bool;
  a_argc : nat
}.

(** [react(undefined, undefined, true, key, is_available)], the watch callback *)
Definition args_watch (key : string) (avail : bool) : react_args :=
  ReactArgs VUndef None true (Some key) (Some avail) false false 5.
(** [react(undefined, undefined, undefined, undefined, undefined, true)], from [_willMount] *)
Definition args_mounting : react_args :=
  ReactArgs VUndef None false None None true false 6.
(** [react(undefined, ..., undefined, true)], the frame callback *)
Definition args_frame : react_args :=
  ReactArgs VUndef None false None None false true 7.
(** [react(state, config)] *)
Definition args_init (st : jsval) (cfg : option config) : react_args :=
  ReactArgs st cfg false None None false false (match cfg with Some _ => 2 | None => 1 end).

(** [ledger[k] = v] on the ledger object, a plain [{}]: the values are
    booleans or [undefined], and such a value assigned to [__proto__] is
    ignored by the accessor inherited from [Object.prototype]. *)
Definition ledger_put (k : string) (v : option bool) (l : ledger) : ledger :=
  if String.eqb k proto_key then l else <[k := v]> l.

(** [_this._watch_state_changed_keys[key] = value]: the ledger object is
    mutated in place, so an instance that has no ledger of its own writes
    into the prototype's. A key that is [undefined] names the property
    "undefined". *)
Definition ledger_write (c : nat) (key : option string) (v : option bool) (w : world) : world :=
  let k := default "undefined" key in
  match get_comp c w ≫= own_changed_keys with
  | Some l => upd_comp c (with_changed_keys (Some (ledger_put k v l))) w
  | None => set_proto_changed_keys (ledger_put k v (proto_changed_keys w)) w
  end.

(** The scheduling branch of [react]. *)
Definition react_schedule (has_update : bool) (c : nat) (a : react_args) (w : world) : world :=
  let is_zero_arguments := Nat.eqb (a_argc a) 0 in
  let w1 :=
    if has_update then
      let w0 := if negb is_zero_arguments
                then upd_comp c (fun cd => with_change_count (S (_watch_state_change_count cd)) cd) w
                else w in
      ledger_write c (a_state_changed_key a) (a_state_is_key_available a) w0
    else w in
  match get_comp c w1 ≫= _z with
  | Some _ => w1
  | None =>
      let '(handle, w2) := requestAnimationFrame c w1 in
      upd_comp c (with_z (Some handle)) w2
  end.

(** The configuration branch of [react] ([else if( !_mounting )]). *)
Definition react_configure (e : env) (c : nat) (a : react_args) (w : world) : outcome env :=
  let e1 := match a_config a with
            | Some cfg => <[c := merge_config_env cfg (callbacks_of e c)]> e
            | None => e
            end in
  let w1 := match a_config a with
            | Some cfg => upd_comp c (merge_config_comp cfg) w
            | None => w
            end in
  let w2 := if has_Proxy w1 then w1 else upd_comp c (with_watched (Some false)) w1 in
  if not_nullish (a_state a) then
    if bool_decide ((get_comp c w2 ≫= watched) = Some false) then
      Ok e1 (upd_comp c (with_state (a_state a)) w2)
    else
      (* new Proxy(target, handler) raises on a primitive target *)
      match a_state a with
      | VBool _ | VNum _ | VStr _ => Throw w2
      | _ => let '(p, w3) := watch (a_state a) w2 in
             Ok e1 (upd_comp c (with_state p) w3)
      end
  else Ok e1 w2.

(** The pass proper, from [_this._z = null] on. *)
Definition react_pass (e : env) (c : nat) (a : react_args) (w : world) : outcome env :=
  let w := upd_comp c (with_z None) w in
  match get_comp c w with
  | None => Throw w
  | Some cd =>
      let current_first_elem := head (elems cd) in
      let has_first_elem := bool_decide (is_Some current_first_elem) in
      let proceed :=
        if negb (_mounted cd) && negb (a_mounting a) then
          match current_first_elem with
          | Some n => if _isNodeConnected n w then Some (upd_comp c (with_mounted true) w) else None
          | None => None
          end
        else Some w in
      match proceed with
      | None => Ok e w
      | Some w =>
          let mounted := default false (_mounted <$> get_comp c w) in
          let is_parent_re_react_call := mounted && a_mounting a in
          let first_render_done :=
            bool_decide (is_Some (current_first_elem ≫= fun n => nodes w !! n ≫= _h)) in
          let after_update : outcome bool :=
            match update (callbacks_of e c) with
            | Some upd_f =>
                if negb is_parent_re_react_call
                   && (negb (bool_decide (is_Some (render (callbacks_of e c))))
                       || (has_first_elem && first_render_done))
                then upd_f (state cd) c (changed_keys c w) (change_count c w) w
                else Ok true w
            | None => Ok true w
            end in
          bind after_update (fun continue_to_render w =>
            if negb continue_to_render then Ok e (_didUpdate c w)
            else if is_parent_re_react_call then
              match current_first_elem with
              | None => Throw w
              | Some n =>
                  match cloneNode n w with
                  | None => OutOfFuel
                  | Some (cloned_root, w1) =>
                      Ok e (upd_comp c (with_v (Some [cloned_root]))
                             (upd cloned_root
                                (fun x => with_original_root (Some n) (with_h (Some c) x)) w1))
                  end
              end
            else
              match render (callbacks_of e c) with
              | None => Throw w
              | Some render_f =>
                  bind (render_f (state (default cd (get_comp c w))) c w) (fun new_dom w =>
                    let new_node :=
                      match new_dom with
                      | RFalsy => None
                      | RNode n => Some (Some n)
                      | RCalDom r => Some (get_comp r w ≫= fun rd => head (elems rd))
                      end in
                    match new_node with
                    | None => Ok e w
                    | Some None => Throw w
                    | Some (Some n) =>
                        let w := upd n (with_h (Some c)) w in
                        match current_first_elem with
                        | None => Ok e (_didUpdate c (upd_comp c (with_elems [n]) w))
                        | Some cur =>
                            bind (_replace (Some n) (Some cur) cur w) (fun new_root w =>
                              Ok e (_didUpdate c
                                (match new_root with
                                 | Some r => upd_comp c (set_elems0 r) w
                                 | None => w
                                 end)))
                        end
                    end)
              end)
      end
  end.

Definition react (e : env) (c : nat) (a : react_args) (w : world) : outcome env :=
  match get_comp c w with
  | None => Throw w
  | Some cd =>
      let is_zero_arguments := Nat.eqb (a_argc a) 0 in
      if bool_decide (watched cd = Some true) && is_zero_arguments then Ok e w
      else if a_is_watched_updated a
              || (is_zero_arguments && negb (a_is_request_animation_frame a)) then
        Ok e (react_schedule (bool_decide (is_Some (update (callbacks_of e c)))) c a w)
      else if negb (a_mounting a) then
        bind (react_configure e c a w) (fun e1 w1 => react_pass e1 c a w1)
      else react_pass e c a w
  end.

(** The callback handed to [watch] by [react]:
    [function(key, is_deleted){ _this.react(undefined, undefined, true, key, is_deleted) }]. *)
Definition watch_callback (e : env) (c : nat) (key : string) (avail : bool) (w : world) : world :=
  match react e c (args_watch key avail) w with
  | Ok _ w' => w'
  | Throw w' => w'
  | OutOfFuel => w
  end.


(** [_willMount()] *)
Definition _willMount (e : env) (c : nat) (w : world) : outcome env :=
  let cb := callbacks_of e c in
  if bool_decide (is_Some (render cb)) || bool_decide (is_Some (update cb)) then
    let w1 := match get_comp c w with
              | Some cd => if negb (_mounted cd) then call_hook has_willMount WillMount c None w else w
              | None => w
              end in
    react e c args_mounting w1
  else Ok e w.

(** ** insertBefore: the core of append / prepend *)

(** What can be handed to [append] / [prepend]: a plain value (a primitive,
    [null], [undefined], a function, or an object that is neither a Node, a
    CalDom instance nor array-like), a Node, a CalDom instance, or an
    array-like of such entries. *)
#[local] Unset Elimination Schemes.
Inductive insertable :=
  | InsVal (v : jsval)
  | InsNode (n : nat)
  | InsCalDom (c : nat)
  | InsList (l : list insertable).
#[local] Set Elimination Schemes.

(** [!!item] *)
Definition ins_truthy (x : insertable) : bool :=
  match x with
  | InsVal v => truthy v
  | _ => true
  end.

(** [typeof v == 'object'] for an entry. *)
Definition ins_typeof_object (x : insertable) : bool :=
  match x with
  | InsVal v => typeof_object v
  | _ => true
  end.

(** [String(v)] for the values turned into text. The result is exact for
    strings, booleans, [null], [undefined] and the integers of the safe
    range; the text of a function and of a number beyond that range is not
    modelled, and the property about text content is restricted to the
    former ([text_exact]). *)
Definition js_to_string (v : jsval) : string :=
  match v with
  | VStr s => s
  | VNum z => pretty z
  | VBool true => "true"
  | VBool false => "false"
  | VUndef => "undefined"
  | VNull => "null"
  | VFun _ => "function(){}"
  | _ => "[object Object]"
  end.

(** The third argument of [insertBefore]: which host function inserts. *)
Inductive insert_func := InsertFunc_appendChild | InsertFunc_insertBefore.

(** The reference argument: [undefined], [null], a node, or a CalDom. *)
Inductive before_ref := BUndef | BNull | BNode (n : nat) | BCalDom (c : nat).

(** [_insertFunc.call(elem, new_elem, before)]; without a target element the
    host raises. [appendChild] ignores the reference. An [undefined]
    reference is treated by the host like [null]. *)
Definition call_insertFunc (f : insert_func) (elem : option nat) (new_elem : nat)
    (before : before_ref) (w : world) : outcome unit :=
  match elem with
  | None => Throw w
  | Some p =>
      match f with
      | InsertFunc_appendChild => Ok tt (host_appendChild p new_elem w)
      | InsertFunc_insertBefore =>
          host_insertBefore p new_elem
            (match before with BNode r => Some r | _ => None end) w
      end
  end.

(** The inner loop body: one entry of [new_elems]. *)
Definition insert_entry (f : insert_func) (elem : option nat) (before : before_ref)
    (new_elem : insertable) (w : world) : outcome unit :=
  if negb (ins_truthy new_elem) then Ok tt w
  else if negb (ins_typeof_object new_elem) then
    match new_elem with
    | InsVal v =>
        let '(t, w1) := createTextNode (js_to_string v) w in
        call_insertFunc f elem t before w1
    | _ => Throw w
    end
  else
    match new_elem with
    | InsNode n => call_insertFunc f elem n before w
    | _ => Throw w (* not a Node: the host rejects it *)
    end.

Fixpoint insert_entries (f : insert_func) (elem : option nat) (before : before_ref)
    (new_elems : list insertable) (w : world) : outcome unit :=
  match new_elems with
  | [] => Ok tt w
  | x :: rest =>
      bind (insert_entry f elem before x w) (fun _ w1 => insert_entries f elem before rest w1)
  end.

(** [_isArrayLike(this_item)] for an item that is not a CalDom instance; a
    function has a [length] and so counts as array-like, with no indexed
    entries. *)
Definition array_like_entries (x : insertable) : option (list insertable) :=
  match x with
  | InsList l => Some l
  | InsVal (VFun _) => Some []
  | _ => None
  end.

(** [if( before === undefined ) before = elem.firstChild] *)
Definition resolve_before (elem : option nat) (before : before_ref) (w : world) : outcome before_ref :=
  match before with
  | BUndef =>
      match elem with
      | None => Throw w
      | Some p => Ok (match head (children_of p w) with
                      | Some fc => BNode fc
                      | None => BNull
                      end) w
      end
  | _ => Ok before w
  end.

(** The outer loop of [insertBefore]. *)
Fixpoint insert_items (f : insert_func) (e : env) (this : nat) (items : list insertable)
    (before : before_ref) (w : world) : outcome env :=
  match items with
  | [] => Ok e w
  | this_item :: rest =>
      if negb (ins_truthy this_item) then insert_items f e this rest before w
      else
        let elem_of w := get_comp this w ≫= fun cd => head (elems cd) in
        match this_item with
        | InsCalDom c =>
            bind (_willMount e c w) (fun e1 w1 =>
              let new_elems :=
                match get_comp c w1 with
                | Some cd => InsNode <$> default (elems cd) (_v cd)
                | None => []
                end in
              bind (resolve_before (elem_of w1) before w1) (fun before1 w2 =>
                bind (insert_entries f (elem_of w2) before1 new_elems w2) (fun _ w3 =>
                  insert_items f e1 this rest before1
                    (_didMount c (upd_comp c (with_v None) w3)))))
        | _ =>
            let new_elems := default [this_item] (array_like_entries this_item) in
            bind (resolve_before (elem_of w) before w) (fun before1 w2 =>
              bind (insert_entries f (elem_of w2) before1 new_elems w2) (fun _ w3 =>
                insert_items f e this rest before1 w3))
        end
  end.

Definition insertBefore (e : env) (this : nat) (element_or_elements_or_caldom : list insertable)
    (before_elem_or_caldom : before_ref) (_insertFunc : insert_func) (w : world) : outcome env :=
  let before :=
    match before_elem_or_caldom with
    | BCalDom b => match get_comp b w ≫= fun cd => head (elems cd) with
                   | Some n => BNode n
                   | None => BUndef
                   end
    | b => b
    end in
  insert_items _insertFunc e this element_or_elements_or_caldom before w.

(** [append(items...)] and [prepend(items, before)] *)
Definition append (e : env) (this : nat) (items : list insertable) (w : world) : outcome env :=
  insertBefore e this items BNull InsertFunc_appendChild w.

Definition prepend (e : env) (this : nat) (items : list insertable) (before : before_ref)
    (w : world) : outcome env :=
  insertBefore e this items before InsertFunc_insertBefore w.

(** ** Node Collections: init and the accessors *)

(** A new instance sees the prototype's defaults. *)
Definition proto_component : component :=
  Component [] false None VUndef None 0 None None false false false false false false.

(** [_setMultipleMode()] installs the iterating accessors. *)
Definition _setMultipleMode (cd : component) : component := with_multiple true cd.

(** The first argument of the constructor: falsy ([undefined], [null],
    the empty string), a query string, an array-like of nodes, or one node. *)
Inductive init_arg :=
  | ArgAbsent
  | ArgStr (s : string)
  | ArgArrayLike (l : list nat)
  | ArgObject (n : nat).

Inductive val_or_array (A : Type) :=
  | Single (a : A)
  | Array (l : list A).
Arguments Single {A} a.
Arguments Array {A} l.

(** [elem.style[key] = v], [elem[key] = v], [elem.classList.add/remove(token)] *)
Definition host_set_style (n : nat) (k v : string) (w : world) : world :=
  upd n (fun nd => with_style (<[k := v]> (style nd)) nd) w.

Definition host_set_property (n : nat) (k : string) (v : jsval) (w : world) : world :=
  upd n (fun nd => with_expando (<[k := v]> (expando nd)) nd) w.

Definition host_get_property (n : nat) (k : string) (w : world) : jsval :=
  default VUndef (nodes w !! n ≫= fun nd => expando nd !! k).

(** An empty token is refused by the host (SyntaxError). *)
Definition host_classList_add (n : nat) (token : string) (w : world) : outcome unit :=
  if String.eqb token "" then Throw w
  else Ok tt (upd n (fun nd => if bool_decide (token ∈ classList nd) then nd
                               else with_classList (classList nd ++ [token]) nd) w).

Definition host_classList_remove (n : nat) (token : string) (w : world) : outcome unit :=
  if String.eqb token "" then Throw w
  else Ok tt (upd n (fun nd => with_classList (filter (fun t => t ≠ token) (classList nd)) nd) w).

(** [values.split(" ")] *)
Fixpoint split_spaces_aux (s : string) (cur : string) : list string :=
  match s with
  | EmptyString => [String.rev cur]
  | String c s' =>
      if Ascii.eqb c " "%char then String.rev cur :: split_spaces_aux s' ""
      else split_spaces_aux s' (String c cur)
  end.

(** [_getSpaceSeparatedArray(values)] *)
Definition _getSpaceSeparatedArray (values : val_or_array string) : list string :=
  match values with
  | Single s => split_spaces_aux s ""
  | Array l => l
  end.

(** A loop of fallible steps over a list, with the index. *)
Fixpoint for_each {A : Type} (step : A -> nat -> world -> outcome unit)
    (l : list A) (i : nat) (w : world) : outcome unit :=
  match l with
  | [] => Ok tt w
  | x :: rest => bind (step x i w) (fun _ w1 => for_each step rest (S i) w1)
  end.

Section Accessors.
(** The query resolver [q(query, document)] (creation tokens, selectors,
    XPath), a host-backed collaborator. *)
Variable q : string -> world -> outcome (list nat).

Definition init (e : env) (c : nat) (selector_xpath_caldom_elems : init_arg)
    (children_array : option (list insertable)) (w : world) : outcome env :=
  let w0 := set_comps <[c := proto_component]> w in
  let finish (found : option (list nat)) (w1 : world) : outcome env :=
    let w2 :=
      match found with
      | Some l =>
          upd_comp c (fun cd =>
            let cd1 := with_elems l cd in
            if negb (Nat.eqb (length l) 1) then _setMultipleMode cd1 else cd1) w1
      | None => w1
      end in
    match children_array with
    | Some items => insertBefore e c items BNull InsertFunc_appendChild w2
    | None => Ok e w2
    end in
  match selector_xpath_caldom_elems with
  | ArgAbsent => finish None w0
  | ArgStr s =>
      if String.eqb s "" then finish None w0
      else bind (q s w0) (fun l w1 => finish (Some l) w1)
  | ArgArrayLike l => finish (Some l) w0
  | ArgObject n => finish (Some [n]) w0
  end.

(** *** each / map *)

(** An [each] callback receives [(elem, i)]; its result tells whether it
    returned [false]. In single mode [elem] is [this.elems[0]], which may be
    [undefined]. *)
Definition each_callback := option nat -> nat -> world -> outcome bool.

Definition _eachSingle (c : nat) (callback : each_callback) (w : world) : outcome unit :=
  bind (callback (get_comp c w ≫= fun cd => head (elems cd)) 0 w) (fun _ w1 => Ok tt w1).

Fixpoint each_loop (callback : each_callback) (l : list nat) (i : nat) (w : world) : outcome unit :=
  match l with
  | [] => Ok tt w
  | x :: rest =>
      bind (callback (Some x) i w) (fun returned_false w1 =>
        if returned_false then Ok tt w1 else each_loop callback rest (S i) w1)
  end.

Definition _eachMultiple (c : nat) (callback : each_callback) (w : world) : outcome unit :=
  each_loop callback (default [] (elems <$> get_comp c w)) 0 w.

Definition is_multiple (c : nat) (w : world) : bool :=
  default false (multiple <$> get_comp c w).

Definition each (c : nat) (callback : each_callback) (w : world) : outcome unit :=
  if is_multiple c w then _eachMultiple c callback w else _eachSingle c callback w.

Definition map_callback (A : Type) := option nat -> nat -> world -> outcome A.

Definition _mapSingle {A} (c : nat) (callback : map_callback A) (w : world) : outcome (list A) :=
  bind (callback (get_comp c w ≫= fun cd => head (elems cd)) 0 w) (fun a w1 => Ok [a] w1).

Fixpoint map_loop {A} (callback : map_callback A) (l : list nat) (i : nat) (w : world)
    : outcome (list A) :=
  match l with
  | [] => Ok [] w
  | x :: rest =>
      bind (callback (Some x) i w) (fun a w1 =>
        bind (map_loop callback rest (S i) w1) (fun out w2 => Ok (a :: out) w2))
  end.

Definition _mapMultiple {A} (c : nat) (callback : map_callback A) (w : world) : outcome (list A) :=
  map_loop callback (default [] (elems <$> get_comp c w)) 0 w.

Definition map {A} (c : nat) (callback : map_callback A) (w : world) : outcome (list A) :=
  if is_multiple c w then _mapMultiple c callback w else _mapSingle c callback w.

(** A write applied to one element; [None] is [undefined] and makes the
    host raise on the member access. *)
Definition on_elem (op : nat -> world -> outcome unit) (elem : option nat) (w : world)
    : outcome unit :=
  match elem with
  | Some n => op n w
  | None => Throw w
  end.

Definition first_elem (c : nat) (w : world) : option nat :=
  get_comp c w ≫= fun cd => head (elems cd).

(** A callback that never returns [false], as all accessors pass to [each]. *)
Definition each_do (op : nat -> nat -> world -> outcome unit) : each_callback :=
  fun elem i w => bind (on_elem (fun n => op n i) elem w) (fun _ w1 => Ok false w1).

(** *** attr *)

Inductive attr_args :=
  | AttrKeyValues (kvs : list (string * string))
  | AttrSet (key : string) (v : val_or_array string)
  | AttrGet (key : string).

(** [val_or_val_array[i]]; a missing entry is [undefined]. *)
Definition nth_value (l : list string) (i : nat) : string := default "undefined" (l !! i).

Definition set_attributes_of (kvs : list (string * string)) (n : nat) (w : world) : outcome unit :=
  Ok tt (foldl (fun acc kv => host_setAttribute n (fst kv) (snd kv) acc) w kvs).

Definition _attrSingle (c : nat) (a : attr_args) (w : world)
    : outcome (option (list (option string))) :=
  match a with
  | AttrKeyValues kvs =>
      bind (for_each (fun kv _ w1 =>
              on_elem (fun n w2 => Ok tt (host_setAttribute n (fst kv) (snd kv) w2))
                      (first_elem c w1) w1) kvs 0 w)
           (fun _ w1 => Ok None w1)
  | AttrSet key (Array l) =>
      bind (on_elem (fun n w1 => Ok tt (host_setAttribute n key (nth_value l 0) w1))
                    (first_elem c w) w)
           (fun _ w1 => Ok None w1)
  | AttrSet key (Single v) =>
      bind (on_elem (fun n w1 => Ok tt (host_setAttribute n key v w1)) (first_elem c w) w)
           (fun _ w1 => Ok None w1)
  | AttrGet key =>
      match first_elem c w with
      | Some n => Ok (Some [nodes w !! n ≫= fun nd => getAttribute nd key]) w
      | None => Throw w
      end
  end.

Definition _attrMultiple (c : nat) (a : attr_args) (w : world)
    : outcome (option (list (option string))) :=
  match a with
  | AttrKeyValues kvs =>
      bind (each c (each_do (fun n _ => set_attributes_of kvs n)) w) (fun _ w1 => Ok None w1)
  | AttrSet key (Array l) =>
      bind (each c (each_do (fun n i w1 => Ok tt (host_setAttribute n key (nth_value l i) w1))) w)
           (fun _ w1 => Ok None w1)
  | AttrSet key (Single v) =>
      bind (each c (each_do (fun n _ w1 => Ok tt (host_setAttribute n key v w1))) w)
           (fun _ w1 => Ok None w1)
  | AttrGet key =>
      bind (map c (fun elem _ w1 =>
              match elem with
              | Some n => Ok (nodes w1 !! n ≫= fun nd => getAttribute nd key) w1
              | None => Throw w1
              end) w)
           (fun out w1 => Ok (Some out) w1)
  end.

Definition attr (c : nat) (a : attr_args) (w : world) :=
  if is_multiple c w then _attrMultiple c a w else _attrSingle c a w.
(** *** prop *)

(** [val_or_val_array] is [Single VUndef] when the argument is missing. *)
Inductive prop_args :=
  | PropKeyValues (kvs : list (string * jsval))
  | PropKey (key : string) (v : val_or_array jsval).

Definition nth_jsval (l : list jsval) (i : nat) : jsval := default VUndef (l !! i).

(** [val_or_val_array != undefined] *)
Definition is_given (v : val_or_array jsval) : bool :=
  match v with
  | Single x => not_nullish x
  | Array _ => true
  end.

Definition set_properties_of (kvs : list (string * jsval)) (n : nat) (w : world) : outcome unit :=
  Ok tt (foldl (fun acc kv => host_set_property n (fst kv) (snd kv) acc) w kvs).

Definition _propSingle (c : nat) (a : prop_args) (w : world) : outcome (option (list jsval)) :=
  match a with
  | PropKeyValues kvs =>
      bind (for_each (fun kv _ w1 =>
              on_elem (fun n w2 => Ok tt (host_set_property n (fst kv) (snd kv) w2))
                      (first_elem c w1) w1) kvs 0 w)
           (fun _ w1 => Ok None w1)
  | PropKey key v =>
      if is_given v then
        bind (on_elem (fun n w1 =>
                Ok tt (host_set_property n key
                         (match v with Array l => nth_jsval l 0 | Single x => x end) w1))
                      (first_elem c w) w)
             (fun _ w1 => Ok None w1)
      else
        match first_elem c w with
        | Some n => Ok (Some [host_get_property n key w]) w
        | None => Throw w
        end
  end.

Definition _propMultiple (c : nat) (a : prop_args) (w : world) : outcome (option (list jsval)) :=
  match a with
  | PropKeyValues kvs =>
      bind (each c (each_do (fun n _ => set_properties_of kvs n)) w) (fun _ w1 => Ok None w1)
  | PropKey key v =>
      if is_given v then
        bind (each c (each_do (fun n i w1 =>
                Ok tt (host_set_property n key
                         (match v with Array l => nth_jsval l i | Single x => x end) w1))) w)
             (fun _ w1 => Ok None w1)
      else
        bind (map c (fun elem _ w1 =>
                match elem with
                | Some n => Ok (host_get_property n key w1) w1
                | None => Throw w1
                end) w)
             (fun out w1 => Ok (Some out) w1)
  end.

Definition prop (c : nat) (a : prop_args) (w : world) :=
  if is_multiple c w then _propMultiple c a w else _propSingle c a w.

(** *** css *)

(** [v] is [None] when the value argument is missing. *)
Inductive css_args :=
  | CssKeyValues (kvs : list (string * string))
  | CssKey (key : string) (v : option (val_or_array string)).

Definition set_styles_of (kvs : list (string * string)) (n : nat) (w : world) : outcome unit :=
  Ok tt (foldl (fun acc kv => host_set_style n (fst kv) (snd kv) acc) w kvs).

Definition get_style (n : nat) (key : string) (w : world) : option string :=
  nodes w !! n ≫= fun nd => style nd !! key.

Definition _cssSingle (c : nat) (a : css_args) (w : world)
    : outcome (option (list (option string))) :=
  match a with
  | CssKeyValues kvs =>
      bind (for_each (fun kv _ w1 =>
              on_elem (fun n w2 => Ok tt (host_set_style n (fst kv) (snd kv) w2))
                      (first_elem c w1) w1) kvs 0 w)
           (fun _ w1 => Ok None w1)
  | CssKey key (Some v) =>
      bind (on_elem (fun n w1 =>
              Ok tt (host_set_style n key
                       (match v with Array l => nth_value l 0 | Single x => x end) w1))
                    (first_elem c w) w)
           (fun _ w1 => Ok None w1)
  | CssKey key None =>
      match first_elem c w with
      | Some n => Ok (Some [get_style n key w]) w
      | None => Throw w
      end
  end.

Definition _cssMultiple (c : nat) (a : css_args) (w : world)
    : outcome (option (list (option string))) :=
  match a with
  | CssKeyValues kvs =>
      bind (each c (each_do (fun n _ => set_styles_of kvs n)) w) (fun _ w1 => Ok None w1)
  | CssKey key (Some v) =>
      bind (each c (each_do (fun n i w1 =>
              Ok tt (host_set_style n key
                       (match v with Array l => nth_value l i | Single x => x end) w1))) w)
           (fun _ w1 => Ok None w1)
  | CssKey key None =>
      bind (map c (fun elem _ w1 =>
              match elem with
              | Some n => Ok (get_style n key w1) w1
              | None => Throw w1
              end) w)
           (fun out w1 => Ok (Some out) w1)
  end.

Definition css (c : nat) (a : css_args) (w : world) :=
  if is_multiple c w then _cssMultiple c a w else _cssSingle c a w.

(** *** addClass / removeClass *)

Definition _addClassListElem (elem : option nat) (classes : list string) (w : world) : outcome unit :=
  for_each (fun token _ w1 => on_elem (fun n => host_classList_add n token) elem w1) classes 0 w.

Definition _addClassSingle (c : nat) (class_names : val_or_array string) (w : world) : outcome unit :=
  _addClassListElem (first_elem c w) (_getSpaceSeparatedArray class_names) w.

Definition _addClassMultiple (c : nat) (class_names : val_or_array string) (w : world) : outcome unit :=
  each c (fun elem _ w1 =>
    bind (_addClassListElem elem (_getSpaceSeparatedArray class_names) w1)
         (fun _ w2 => Ok false w2)) w.

Definition addClass (c : nat) (class_names : val_or_array string) (w : world) : outcome unit :=
  if is_multiple c w then _addClassMultiple c class_names w else _addClassSingle c class_names w.

Definition _removeClassListElem (elem : option nat) (classes : list string) (w : world) : outcome unit :=
  for_each (fun token _ w1 => on_elem (fun n => host_classList_remove n token) elem w1) classes 0 w.

Definition _removeClassSingle (c : nat) (class_names : val_or_array string) (w : world) : outcome unit :=
  _removeClassListElem (first_elem c w) (_getSpaceSeparatedArray class_names) w.

Definition _removeClassMultiple (c : nat) (class_names : val_or_array string) (w : world) : outcome unit :=
  each c (fun elem _ w1 =>
    bind (_removeClassListElem elem (_getSpaceSeparatedArray class_names) w1)
         (fun _ w2 => Ok false w2)) w.

Definition removeClass (c : nat) (class_names : val_or_array string) (w : world) : outcome unit :=
  if is_multiple c w then _removeClassMultiple c class_names w else _removeClassSingle c class_names w.

(** *** remove *)

(** [remove()]: every element leaves its parent; the instance becomes empty
    and iterating. *)
Definition remove (c : nat) (w : world) : outcome unit :=
  let w1 := _willUnmount c (Some true) w in
  bind (each c (fun elem _ w2 =>
          match elem with
          | Some n =>
              match parent_of n w2 with
              | Some p => bind (host_removeChild p n w2) (fun _ w3 => Ok false w3)
              | None => Throw w2
              end
          | None => Throw w2
          end) w1)
       (fun _ w2 =>
          Ok tt (_didUnmount c (Some true)
                   (upd_comp c (fun cd => _setMultipleMode (with_elems [] cd)) w2))).
End Accessors.

(** ** State mutations seen by the controller *)

(** A mutation of watched state: a write or a delete through a wrapper.
    [target] is what the wrapper wraps: a plain object (the state root or a
    nested object) or, when a wrapper was itself stored in the state or
    handed to [react], again a wrapper. *)
Inductive mutation :=
  | MutSet (target : jsval) (key : string) (v : jsval)
  | MutDelete (target : jsval) (key : string).








(** The mutation as executed: the trap runs with the callback [react]
    registered for instance [c]. *)
Definition apply_mutation (e : env) (c : nat) (m : mutation) (w : world) : world :=
  match m with
  | MutSet t k v => trap_set (watch_callback e c) t k v w
  | MutDelete t k => trap_deleteProperty (watch_callback e c) t k w
  end.

Definition apply_mutations (e : env) (c : nat) (ms : list mutation) (w : world) : world :=
  foldl (fun acc m => apply_mutation e c m acc) w ms.



(** What a pass not triggered by a mount starts from: [react] has gone
    through its configuration step and cleared [_z]; for the frame callback,
    the callback has been dequeued first. *)
Definition pass_world (c : nat) (w : world) : world :=
  upd_comp c (with_z None)
    (if has_Proxy w then w else upd_comp c (with_watched (Some false)) w).



(** ** Sample instances and stores used by the examples *)



Definition world_with (cd : component) : world := set_comps <[0 := cd]> empty_world.


(** An [update] that asks for nothing more, and one that asks for a render. *)
Definition update_done : update_fn := fun _ _ _ _ w => Ok false w.
Definition update_wants_render : update_fn := fun _ _ _ _ w => Ok true w.
Definition render_nothing : render_fn := fun _ _ w => Ok RFalsy w.

Definition env_update_only : env := {[0 := Callbacks None (Some update_done)]}.
Definition env_update_truthy : env := {[0 := Callbacks None (Some update_wants_render)]}.
Definition env_render_only : env := {[0 := Callbacks (Some render_nothing) None]}.

(** A mounted, idle instance with an explicitly watched state. *)
Definition idle_component : component :=
  Component [] false None (VProxy 0 (VObj 5)) None 0 None None true false false false false true.

Definition world_idle : world := world_with idle_component.

(** ** Log entries of the lifecycle signals *)

(** What calling a hook of instance [c] adds to the log. *)
Definition hook_events (present : component -> bool) (h : hook) (c : nat)
    (directly_removed : option bool) (w : world) : list event :=
  match get_comp c w with
  | Some cd => if present cd then [EvHook h c directly_removed] else []
  | None => []
  end.

(** The unmount-begin and unmount-complete entries for a node owned by
    [owner] (none when the node has no owner). *)
Definition unmount_begin (owner : option nat) (w : world) : list event :=
  match owner with
  | Some h => hook_events has_willUnmount WillUnmount h None w
  | None => []
  end.

Definition unmount_end (owner : option nat) (w : world) : list event :=
  match owner with
  | Some h => hook_events has_didUnmount DidUnmount h None w
  | None => []
  end.

(** The log entries of removing the trailing child [child] of [old]. *)
Definition removal_events (old : nat) (w : world) (child : nat) : list event :=
  let owner := nodes w !! child ≫= _h in
  unmount_begin owner w ++ [EvRemoveChild old child] ++ unmount_end owner w.


(** ** Building sample trees *)

Definition mk_element (tag : string) (attrs : list (string * string)) (children : list nat)
    (parent : option nat) : node :=
  Node (Element tag) attrs children parent None false None None None None None None None ∅ [] ∅.

Definition mk_input (attrs : list (string * string)) (parent : option nat) (v : string) : node :=
  Node (Element "INPUT") attrs [] parent None true (Some v) (Some false) (Some false)
       None None None None ∅ [] ∅.

Definition mk_text (data : string) (parent : option nat) : node :=
  Node TextNode [] [] parent (Some data) false None None None None None None None ∅ [] ∅.

Definition mk_document (children : list nat) : node :=
  Node DocumentNode [] children None None false None None None None None None None ∅ [] ∅.

Definition owned_by (c : nat) (nd : node) : node := with_h (Some c) nd.

Definition world_of (ns : list (nat * node)) (cs : list (nat * component)) : world :=
  World ∅ 0 (list_to_map ns) 1000 (list_to_map cs) ∅ [] 1%positive true [].

(** A live [<div>] (node 1) under the document (node 100), and a detached
    candidate [<span>] (node 2). *)
Definition world_div_span : world :=
  world_of [(100, mk_document [1]); (1, mk_element "DIV" [] [] (Some 100));
            (2, mk_element "SPAN" [] [] None)] [].

(** The pairwise walk as a relation: the [i]-th candidate child meets the
    child found at index [i] of the live list at that moment. *)
Inductive walked (rec : option nat -> option nat -> nat -> world -> outcome (option nat))
    (old : nat) : list nat -> nat -> world -> world -> Prop :=
  | walked_nil i w : walked rec old [] i w w
  | walked_cons c cs i w r w1 w' :
      rec (Some c) (children_of old w !! i) old w = Ok r w1 ->
      walked rec old cs (S i) (track_replaced r w1) w' ->
      walked rec old (c :: cs) i w w'.

(** The store an outcome ends in ([w] when the bound was hit). *)
Definition world_after {A} (w : world) (m : outcome A) : world :=
  match m with
  | Ok _ w' => w'
  | Throw w' => w'
  | OutOfFuel => w
  end.

(** A component with both unmount hooks, owning node 13. *)
Definition item_component : component :=
  Component [13] false None VUndef None 0 None None true false false true true false.

(** A live list [<ul>] (node 1) with items A, B, C (nodes 11, 12, 13; C is
    owned by component 7) under the document, and a detached candidate
    [<ul>] (node 2) with items A', B' (nodes 21, 22), A' carrying a new
    class. *)
Definition world_abc : world :=
  world_of
    [(100, mk_document [1]);
     (1, mk_element "UL" [] [11; 12; 13] (Some 100));
     (11, mk_element "LI" [] [] (Some 1));
     (12, mk_element "LI" [] [] (Some 1));
     (13, owned_by 7 (mk_element "LI" [] [] (Some 1)));
     (2, mk_element "UL" [] [21; 22] None);
     (21, mk_element "LI" [("class", "x")] [] (Some 2));
     (22, mk_element "LI" [] [] (Some 2))]
    [(7, item_component)].

(** The store after the pairwise walk of the sample lists. *)
Definition walked_abc : world :=
  world_after world_abc (walk_children (_replace_fuel 5) 1 [21; 22] 0 world_abc).

(** ** What the deep-equal short-circuit may and may not touch *)




(** ** Sample store for the insertion engine *)

(** What a CalDom item contributes: its staged clone when there is one,
    otherwise its own elements. *)
Definition contributed (c : nat) (w : world) : list insertable :=
  match get_comp c w with
  | Some cd => InsNode <$> default (elems cd) (_v cd)
  | None => []
  end.

(** An entry that is a Node or a plain value other than an object or a
    function. *)
Definition is_simple_entry (x : insertable) : bool :=
  match x with
  | InsNode _ => true
  | InsVal (VUndef | VNull | VBool _ | VNum _ | VStr _) => true
  | _ => false
  end.

(** The collection [this] (instance 0) wraps a [<div>] (node 1) under the
    document; instance 5 is a component with mount hooks and an [update],
    wrapping the detached [<p>] (node 3). *)
Definition mounting_component : component :=
  Component [3] false None VUndef None 0 None None false true true false false false.

Definition world_insert : world :=
  world_of [(100, mk_document [1]); (1, mk_element "DIV" [] [] (Some 100));
            (3, mk_element "P" [] [] None)]
           [(0, with_elems [1] proto_component); (5, mounting_component)].

Definition env_insert : env := {[5 := Callbacks None (Some update_done)]}.

(** ** The broadcast reading of the accessors *)

(** What the specification calls broadcasting: the per-element operation is
    applied to every element of the collection, in order, with its index.
    The definitions below say, for each accessor and argument form, what
    broadcasting over the element list [l] means; they do not look at the
    installed mode. *)
Definition pick {A} (dflt : list A -> nat -> A) (v : val_or_array A) (i : nat) : A :=
  match v with
  | Single x => x
  | Array l => dflt l i
  end.

Definition attr_broadcast (l : list nat) (a : attr_args) (w : world)
    : outcome (option (list (option string))) :=
  match a with
  | AttrKeyValues kvs =>
      bind (for_each (fun n _ => set_attributes_of kvs n) l 0 w) (fun _ w1 => Ok None w1)
  | AttrSet key v =>
      bind (for_each (fun n i w1 => Ok tt (host_setAttribute n key (pick nth_value v i) w1)) l 0 w)
           (fun _ w1 => Ok None w1)
  | AttrGet key =>
      Ok (Some ((fun n => nodes w !! n ≫= fun nd => getAttribute nd key) <$> l)) w
  end.

Definition prop_broadcast (l : list nat) (a : prop_args) (w : world)
    : outcome (option (list jsval)) :=
  match a with
  | PropKeyValues kvs =>
      bind (for_each (fun n _ => set_properties_of kvs n) l 0 w) (fun _ w1 => Ok None w1)
  | PropKey key v =>
      if is_given v then
        bind (for_each (fun n i w1 => Ok tt (host_set_property n key (pick nth_jsval v i) w1)) l 0 w)
             (fun _ w1 => Ok None w1)
      else Ok (Some ((fun n => host_get_property n key w) <$> l)) w
  end.

Definition css_broadcast (l : list nat) (a : css_args) (w : world)
    : outcome (option (list (option string))) :=
  match a with
  | CssKeyValues kvs =>
      bind (for_each (fun n _ => set_styles_of kvs n) l 0 w) (fun _ w1 => Ok None w1)
  | CssKey key (Some v) =>
      bind (for_each (fun n i w1 => Ok tt (host_set_style n key (pick nth_value v i) w1)) l 0 w)
           (fun _ w1 => Ok None w1)
  | CssKey key None => Ok (Some ((fun n => get_style n key w) <$> l)) w
  end.

Definition addClass_broadcast (l : list nat) (class_names : val_or_array string) (w : world)
    : outcome unit :=
  for_each (fun n _ => _addClassListElem (Some n) (_getSpaceSeparatedArray class_names)) l 0 w.

Definition removeClass_broadcast (l : list nat) (class_names : val_or_array string) (w : world)
    : outcome unit :=
  for_each (fun n _ => _removeClassListElem (Some n) (_getSpaceSeparatedArray class_names)) l 0 w.

(** The accessors installed on an instance fit its size: the iterating set,
    or the single-element set on exactly one element. *)
Definition mode_fits (cd : component) : Prop :=
  multiple cd = true \/ length (elems cd) = 1.

(** A query resolver for the examples: nothing matches. *)
Definition q_nothing : string -> world -> outcome (list nat) := fun _ w => Ok [] w.

(** A callback that counts its calls in the log. *)
Definition count_calls : option nat -> nat -> world -> outcome bool :=
  fun elem i w => Ok false (emit (EvSetProp (default 0 elem) "called") w).

(** [_([node1, node3])] and [_()] on the sample store, as instance 9. *)
Definition world_two : world :=
  world_after world_insert (init q_nothing ∅ 9 (ArgArrayLike [1; 3]) None world_insert).

Definition world_empty_collection : world :=
  world_after world_insert (init q_nothing ∅ 9 ArgAbsent None world_insert).

(** ** The proxy: specification-side order and sample stores *)

(** The order the specification gives for a write through a wrapper: notify
    first, write afterwards. Compared with [trap_set] below. *)
Definition spec_order_set (onSetCallback : string -> bool -> world -> world)
    (o : nat) (key : string) (v : jsval) (w : world) : world :=
  obj_write o key v (onSetCallback key true w).

(** A callback that copies what the object [0] holds under "x" at the moment
    it runs into object [1] under "seen". *)
Definition observe_x (_ : string) (_ : bool) (w : world) : world :=
  obj_write 1 "seen" (obj_read 0 "x" w) w.

Definition world_x1 : world := obj_write 0 "x" (VNum 1) empty_world.

(** The condition under which the [get] trap wraps what it read. *)
Definition wraps (destination : jsval) (key : string) : bool :=
  typeof_object destination && not_nullish destination
  && negb (instanceof_CalDom destination) && key_is_public key.

(** The state object 0 holds the nested object 1 under "a". *)
Definition world_nested : world :=
  obj_write 0 "a" (VObj 1) (obj_write 1 "n" (VNum 7) empty_world).


(** ** eq(index) and data(key, value) *)

(** [eq(index)]: a new instance [c'] around [this.elems[index]], counted
    from the end for a negative index; an index outside the list picks
    [undefined]. *)
Definition caldom_eq (q : string -> world -> outcome (list nat)) (e : env) (c c' : nat)
    (index : Z) (w : world) : outcome env :=
  let l := default [] (elems <$> get_comp c w) in
  let i := if (index <? 0)%Z then (Z.of_nat (length l) + index)%Z else index in
  let picked := if (i <? 0)%Z then None else l !! Z.to_nat i in
  init q e c' (match picked with Some n => ArgObject n | None => ArgAbsent end) None w.

(** [{}]: a new plain object. *)
Definition new_object (w : world) : nat * world :=
  let o := fresh (dom (objs w)) in
  (o, set_objs <[o := ∅]> w).

(** [if( !elem["_data"] ) elem["_data"] = {}; elem["_data"][key] = v] *)
Definition data_write (key : string) (v : jsval) (n : nat) (w : world) : outcome unit :=
  match nodes w !! n ≫= _data with
  | Some d => Ok tt (obj_write d key v w)
  | None =>
      let '(d, w1) := new_object w in
      Ok tt (obj_write d key v (upd n (with_data (Some d)) w1))
  end.

(** [if( elem["_data"] ) return elem["_data"][key]] *)
Definition data_read (key : string) (n : nat) (w : world) : jsval :=
  match nodes w !! n ≫= _data with
  | Some d => obj_read d key w
  | None => VUndef
  end.

(** [data(key, value)]: a read when [value == undefined], a write of the
    value (of [value[i]] for an array) otherwise. *)
Definition data (c : nat) (key : string) (value : val_or_array jsval) (w : world)
    : outcome (option (list jsval)) :=
  if negb (is_given value) then
    bind (map c (fun elem _ w1 =>
            match elem with
            | Some n => Ok (data_read key n w1) w1
            | None => Throw w1
            end) w)
         (fun out w1 => Ok (Some out) w1)
  else
    bind (each c (each_do (fun n i =>
            data_write key (match value with Array l => nth_jsval l i | Single x => x end) n)) w)
         (fun _ w1 => Ok None w1).

(** What a finished write of [data(key, v)] leaves on an element: a
    [_data] object holding [v] under [key]. *)
Definition holds_data (key : string) (v : jsval) (w : world) (x : nat) : Prop :=
  exists d, (nodes w !! x ≫= _data) = Some d /\ (objs w !! d ≫= (.!! key)) = Some v.

(** ** Cloning: what is assumed of the store and what a clone leaves *)

(** Node identities are handed out in increasing order: every node of the
    store lies below the allocation mark. *)
Definition below_mark (w : world) : Prop :=
  forall m, is_Some (nodes w !! m) -> m < next_node w.

(** What a successful clone leaves: the nodes below the old mark, the
    instances and the log as they were, the mark not lowered. *)
Definition clone_extends (w w' : world) : Prop :=
  (forall m, m < next_node w -> nodes w' !! m = nodes w !! m)
  /\ next_node w <= next_node w'
  /\ comps w' = comps w
  /\ log w' = log w
  /\ below_mark w'.


(** A live form (node 1) with a text input (node 11) holding "old", and a
    detached candidate form (node 2) with an input (node 21) holding
    "new": the two trees are equal for the host. *)
Definition world_form : world :=
  world_of [(100, mk_document [1]);
            (1, mk_element "FORM" [] [11] (Some 100));
            (11, mk_input [("type", "text")] (Some 1) "old");
            (2, mk_element "FORM" [] [21] None);
            (21, mk_input [("type", "text")] (Some 2) "new")] [].








(** * Properties *)

(** ** The change-observation proxy *)

Lemma own_property_write_eq o key v w :
  key <> proto_key -> own_property o key (obj_write o key v w) = Some v.
Proof.
  intros Hk. unfold own_property, obj_write.
  rewrite (proj2 (String.eqb_neq key proto_key) Hk). unfold set_objs; cbn [objs].
  rewrite lookup_insert_eq. cbn [mbind option_bind]. by rewrite lookup_insert_eq.
Qed.

Lemma own_property_delete_eq o key w : own_property o key (obj_delete o key w) = None.
Proof.
  unfold own_property, obj_delete, set_objs; cbn [objs].
  rewrite lookup_insert_eq. cbn [mbind option_bind]. by rewrite lookup_delete_eq.
Qed.

Lemma obj_read_own o key w : obj_read o key w = default VUndef (own_property o key w).
Proof. reflexivity. Qed.

Lemma obj_read_write_eq o key v w :
  key <> proto_key -> obj_read o key (obj_write o key v w) = v.
Proof. intros Hk. by rewrite obj_read_own, own_property_write_eq. Qed.

Lemma obj_read_delete_eq o key w : obj_read o key (obj_delete o key w) = VUndef.
Proof. by rewrite obj_read_own, own_property_delete_eq. Qed.

Lemma obj_write_proto o v w : obj_write o proto_key v w = w.
Proof. reflexivity. Qed.

(** C5, as the code has it: a write through a wrapper of a plain object
    first stores the value and then invokes the callback with [(key, true)];
    a delete first removes the property and then invokes the callback with
    [(key, false)]. The store the callback receives already holds the
    written value as an own property, for every key but [__proto__], whose
    assignment creates no property and leaves the own properties as they
    were; after a delete the object has no own property of that name, so
    that a name it does not inherit reads [undefined]. *)
Theorem watch_write_then_notify :
  forall (onSetCallback : string -> bool -> world -> world) p o key v w,
    proxy_write onSetCallback (VProxy p (VObj o)) key v w
      = onSetCallback key true (obj_write o key v w)
    /\ (key <> proto_key ->
        own_property o key (obj_write o key v w) = Some v
        /\ obj_read o key (obj_write o key v w) = v)
    /\ (forall k, own_property o k (obj_write o proto_key v w) = own_property o k w)
    /\ proxy_delete onSetCallback (VProxy p (VObj o)) key w
      = onSetCallback key false (obj_delete o key w)
    /\ own_property o key (obj_delete o key w) = None
    /\ (inherited_name key = false -> obj_read o key (obj_delete o key w) = VUndef).
Proof.
  intros. split; [reflexivity|]. split; [|split; [|split; [reflexivity|split]]].
  - intros Hk. split; [by apply own_property_write_eq|by apply obj_read_write_eq].
  - intros k. by rewrite obj_write_proto.
  - apply own_property_delete_eq.
  - intros _. apply obj_read_delete_eq.
Qed.

Lemma watch_write_then_notify_witness :
  own_property 0 "x" (obj_write 0 "x" (VNum 2) world_x1) = Some (VNum 2)
  /\ obj_read 0 "x" (obj_write 0 "x" (VNum 2) world_x1) = VNum 2.
Proof.
  refine (proj1 (proj2 (watch_write_then_notify observe_x 0 0 "x" (VNum 2) world_x1)) _).
  discriminate.
Defined.

(** C5 as stated fails: when the callback runs for the write [x := 2] on an
    object holding [x = 1], it reads 2, not the pre-write 1; the code differs
    from the notify-then-write order. *)
Lemma watch_callback_sees_written_value :
  let w' := proxy_write observe_x (VProxy 0 (VObj 0)) "x" (VNum 2) world_x1 in
  obj_read 0 "x" world_x1 = VNum 1
  /\ obj_read 1 "seen" w' = VNum 2
  /\ obj_read 1 "seen" (spec_order_set observe_x 0 "x" (VNum 2) world_x1) = VNum 1
  /\ w' <> spec_order_set observe_x 0 "x" (VNum 2) world_x1.
Proof.
  assert (H1 : obj_read 1 "seen"
                 (proxy_write observe_x (VProxy 0 (VObj 0)) "x" (VNum 2) world_x1) = VNum 2)
    by (vm_compute; reflexivity).
  assert (H2 : obj_read 1 "seen" (spec_order_set observe_x 0 "x" (VNum 2) world_x1) = VNum 1)
    by (vm_compute; reflexivity).
  cbv zeta. split; [vm_compute; reflexivity|].
  split; [exact H1|]. split; [exact H2|].
  intros Heq. apply (f_equal (obj_read 1 "seen")) in Heq. congruence.
Qed.

Lemma set_next_proxy_twice n m w :
  set_next_proxy n (set_next_proxy m w) = set_next_proxy n w.
Proof. reflexivity. Qed.

(** A read through a wrapper whose chain ends in the plain object [o], of a
    key holding a value that qualifies, returns a proxy allocated by this very
    read, standing for the stored value; the object heap is left alone. *)
Lemma trap_get_wraps t :
  forall o key w,
    underlying t = VObj o ->
    wraps (obj_read o key w) key = true ->
    exists p d,
      trap_get t key w = (VProxy p d, set_next_proxy (S p) w)
      /\ next_proxy w <= p
      /\ underlying d = underlying (obj_read o key w)
      /\ typeof_object d = true /\ instanceof_CalDom d = false.
Proof.
  induction t as [| | | | | | o' | | q t IH]; intros o key w Hu Hw; simpl in Hu; try discriminate.
  - injection Hu as ->. simpl.
    unfold wraps in Hw. rewrite Hw. unfold new_Proxy.
    exists (next_proxy w), (obj_read o key w).
    apply andb_prop in Hw as [Hw _]. apply andb_prop in Hw as [Hw Hc].
    apply andb_prop in Hw as [Ht _]. apply negb_true_iff in Hc.
    repeat split; auto.
  - destruct (IH o key w Hu Hw) as (p & d & Hg & Hle & Hd & Ht & Hc).
    simpl. rewrite Hg. simpl. rewrite Ht, Hc. simpl.
    assert (Hk : key_is_public key = true).
    { unfold wraps in Hw. by apply andb_prop in Hw as [_ Hk]. }
    rewrite Hk. unfold new_Proxy. simpl.
    exists (S p), (VProxy p d). rewrite set_next_proxy_twice.
    repeat split; auto.
Qed.

(** A write through any chain of wrappers lands in the plain object the chain
    ends in (for a callback that leaves the object heap alone). *)
Lemma trap_set_underlying (cb : string -> bool -> world -> world) t :
  (forall k b w, objs (cb k b w) = objs w) ->
  forall o key v w,
    underlying t = VObj o ->
    objs (trap_set cb t key v w) = objs (obj_write o key v w).
Proof.
  intros Hcb. induction t as [| | | | | | o' | | q t IH]; intros o key v w Hu;
    simpl in Hu; try discriminate.
  - injection Hu as ->. simpl. by rewrite Hcb.
  - simpl. rewrite Hcb. by apply IH.
Qed.

(** C10: two successive reads, through the same wrapper, of a key whose
    value is a non-null object that is not a Component and whose name does not
    start with an underscore return two proxies with different identities
    ([state.a === state.a] is false); both stand for the same stored object,
    a write through either lands in that object, and the reads themselves do
    not touch the object heap. *)
Theorem watch_get_fresh_wrapper :
  forall t o key w,
    underlying t = VObj o ->
    wraps (obj_read o key w) key = true ->
    let r1 := trap_get t key w in
    let r2 := trap_get t key (snd r1) in
    (exists p1 d1 p2 d2,
        fst r1 = VProxy p1 d1 /\ fst r2 = VProxy p2 d2 /\ p1 <> p2)
    /\ strict_eq (fst r1) (fst r2) = false
    /\ underlying (fst r1) = underlying (obj_read o key w)
    /\ underlying (fst r2) = underlying (obj_read o key w)
    /\ objs (snd r2) = objs w
    /\ (forall (cb : string -> bool -> world -> world) o' k v w',
          (forall k b w, objs (cb k b w) = objs w) ->
          underlying (obj_read o key w) = VObj o' ->
          objs (proxy_write cb (fst r1) k v w') = objs (obj_write o' k v w')
          /\ objs (proxy_write cb (fst r2) k v w') = objs (obj_write o' k v w')).
Proof.
  intros t o key w Hu Hw.
  destruct (trap_get_wraps t o key w Hu Hw) as (p1 & d1 & Hg1 & Hle1 & Hd1 & _).
  assert (Hw' : wraps (obj_read o key (set_next_proxy (S p1) w)) key = true) by exact Hw.
  destruct (trap_get_wraps t o key _ Hu Hw') as (p2 & d2 & Hg2 & Hle2 & Hd2 & _).
  cbv zeta. rewrite Hg1. cbn [fst snd]. rewrite Hg2. cbn [fst snd].
  simpl in Hle2.
  assert (Hne : p1 <> p2) by lia.
  split; [by exists p1, d1, p2, d2|].
  split; [simpl; by apply Nat.eqb_neq|].
  split; [exact Hd1|]. split; [exact Hd2|]. split; [reflexivity|].
  intros cb o' k v w' Hcb Ho'. simpl.
  split; apply trap_set_underlying; auto; [rewrite Hd1 | rewrite Hd2]; exact Ho'.
Qed.

Lemma watch_get_fresh_wrapper_witness :
  strict_eq (fst (trap_get (VObj 0) "a" world_nested))
            (fst (trap_get (VObj 0) "a" (snd (trap_get (VObj 0) "a" world_nested)))) = false.
Proof.
  assert (Hu : underlying (VObj 0) = VObj 0) by reflexivity.
  assert (Hw : wraps (obj_read 0 "a" world_nested) "a" = true) by (vm_compute; reflexivity).
  exact (proj1 (proj2 (watch_get_fresh_wrapper (VObj 0) 0 "a" world_nested Hu Hw))).
Defined.

(** ** The reactive controller *)

Lemma get_comp_upd_comp c f w : get_comp c (upd_comp c f w) = f <$> get_comp c w.
Proof. unfold get_comp, upd_comp; simpl. apply lookup_alter_eq. Qed.

Lemma get_comp_upd_comp_ne c c' f w : c <> c' -> get_comp c' (upd_comp c f w) = get_comp c' w.
Proof. intros. unfold get_comp, upd_comp; simpl. by apply lookup_alter_ne. Qed.



(** Writing the ledger leaves the scheduling handle, the frame queue and the
    change count of the instance alone. *)
Lemma ledger_write_z c key v w :
  (get_comp c (ledger_write c key v w) ≫= _z) = (get_comp c w ≫= _z).
Proof.
  unfold ledger_write. destruct (get_comp c w ≫= own_changed_keys); [|reflexivity].
  rewrite get_comp_upd_comp. by destruct (get_comp c w).
Qed.

Lemma ledger_write_frames c key v w :
  frames (ledger_write c key v w) = frames w /\ next_frame (ledger_write c key v w) = next_frame w.
Proof. unfold ledger_write. by destruct (get_comp c w ≫= own_changed_keys). Qed.




(** Once a pass is scheduled the branch adds no further frame callback. *)
Lemma react_schedule_scheduled has_update c a w h :
  (get_comp c w ≫= _z) = Some h ->
  let w' := react_schedule has_update c a w in
  (get_comp c w' ≫= _z) = Some h
  /\ frames w' = frames w
  /\ next_frame w' = next_frame w.
Proof.
  intros Hz. unfold react_schedule.
  set (w1 := if has_update then _ else w).
  assert (H1 : (get_comp c w1 ≫= _z) = Some h /\ frames w1 = frames w
               /\ next_frame w1 = next_frame w).
  { subst w1. destruct has_update; [|by eauto].
    set (w0 := if negb _ then _ else w).
    rewrite ledger_write_z.
    destruct (ledger_write_frames c (a_state_changed_key a) (a_state_is_key_available a) w0)
      as [-> ->].
    subst w0. destruct (negb _); [|by auto].
    rewrite get_comp_upd_comp. destruct (get_comp c w); simpl in *; auto. }
  destruct H1 as (Hz1 & Hf1 & Hn1). cbv zeta. rewrite Hz1. auto.
Qed.





Lemma changed_keys_upd_comp c c' f w :
  (forall cd, own_changed_keys (f cd) = own_changed_keys cd) ->
  changed_keys c' (upd_comp c f w) = changed_keys c' w.
Proof.
  intros Hf. unfold changed_keys. destruct (decide (c = c')) as [->|Hne].
  - rewrite get_comp_upd_comp. destruct (get_comp c' w); simpl; [by rewrite Hf|done].
  - by rewrite get_comp_upd_comp_ne.
Qed.

Lemma change_count_upd_comp c c' f w :
  (forall cd, _watch_state_change_count (f cd) = _watch_state_change_count cd) ->
  change_count c' (upd_comp c f w) = change_count c' w.
Proof.
  intros Hf. unfold change_count. destruct (decide (c = c')) as [->|Hne].
  - rewrite get_comp_upd_comp. destruct (get_comp c' w); simpl; [by rewrite Hf|done].
  - by rewrite get_comp_upd_comp_ne.
Qed.







Section Coalescing.
Variables (e : env) (c : nat).
Hypothesis Hupd : is_Some (update (callbacks_of e c)).








End Coalescing.




Lemma changed_keys_pass_world c w : changed_keys c (pass_world c w) = changed_keys c w.
Proof.
  unfold pass_world. rewrite changed_keys_upd_comp by reflexivity.
  destruct (has_Proxy _); [reflexivity|]. by rewrite changed_keys_upd_comp.
Qed.

Lemma change_count_pass_world c w : change_count c (pass_world c w) = change_count c w.
Proof.
  unfold pass_world. rewrite change_count_upd_comp by reflexivity.
  destruct (has_Proxy _); [reflexivity|]. by rewrite change_count_upd_comp.
Qed.


(** The frame callback goes through the configuration step, which only
    degrades [watched] when the host has no Proxy. *)
Lemma react_frame_eq e c w cd :
  get_comp c w = Some cd ->
  react e c args_frame w
    = react_pass e c args_frame
        (if has_Proxy w then w else upd_comp c (with_watched (Some false)) w).
Proof.
  intros Hcd. unfold react. rewrite Hcd. simpl. rewrite andb_false_r.
  unfold react_configure. reflexivity.
Qed.

(** A pass of a mounted instance that has [update] and no [render], not
    started by a mount: [update] is called on the current ledger and count;
    a falsy result completes the pass, a truthy one reaches the call of the
    missing [render]. *)
Lemma react_pass_renderless e c a w cd upd_f :
  get_comp c (upd_comp c (with_z None) w) = Some cd ->
  _mounted cd = true ->
  a_mounting a = false ->
  render (callbacks_of e c) = None ->
  update (callbacks_of e c) = Some upd_f ->
  react_pass e c a w
    = bind (upd_f (state cd) c
              (changed_keys c (upd_comp c (with_z None) w))
              (change_count c (upd_comp c (with_z None) w))
              (upd_comp c (with_z None) w))
           (fun continue_to_render w1 =>
              if continue_to_render then Throw w1 else Ok e (_didUpdate c w1)).
Proof.
  intros Hg Hm Ha Hr Hu. unfold react_pass. rewrite Hg, Hm, Ha, Hu, Hr. cbn [negb andb].
  rewrite Hg. cbn [fmap option_fmap option_map default]. rewrite Hm.
  cbn [negb andb orb bool_decide].
  match goal with |- context [bool_decide (is_Some None)] =>
    rewrite (bool_decide_eq_false_2 (is_Some (@None render_fn))) by (by intros [? ?]) end.
  cbn [negb andb orb].
  destruct (upd_f _ _ _ _ _) as [b w1|w1|]; [|reflexivity|reflexivity].
  destruct b; reflexivity.
Qed.






(** One write through a wrapper of a wrapper runs the callback of each
    layer: the count grows by 2, with one frame callback queued; and a write
    of [__proto__] is counted but not recorded. *)
Example react_counts_every_layer :
  let w' := apply_mutations env_update_only 0
              [MutSet (VProxy 1 (VObj 5)) "a" (VNum 1)] world_idle in
  let w'' := apply_mutations env_update_only 0
               [MutSet (VObj 5) "__proto__" (VNum 1)] world_idle in
  change_count 0 w' = 2 /\ frames w' = [(1%positive, 0)]
  /\ change_count 0 w'' = 1 /\ changed_keys 0 w'' = ∅.
Proof. vm_compute. repeat split. Qed.

(** C9: a pass, not started by a mount, of a mounted instance that has
    [update] and no [render] calls [update]; if that returns a truthy value
    the pass raises (the call of the missing [render]) in the very store
    [update] left, so the ledger is not reset and [didUpdate] is not fired;
    if it returns a falsy value the pass completes through [_didUpdate]. A
    completed pass therefore implies a falsy [update] result. *)
Theorem react_renderless_truthy_update_throws :
  forall e c a w cd upd_f,
    get_comp c w = Some cd ->
    _mounted cd = true ->
    a_mounting a = false ->
    render (callbacks_of e c) = None ->
    update (callbacks_of e c) = Some upd_f ->
    let wp := upd_comp c (with_z None) w in
    let result := upd_f (state cd) c (changed_keys c wp) (change_count c wp) wp in
    (forall w1, result = Ok true w1 -> react_pass e c a w = Throw w1)
    /\ (forall w1, result = Ok false w1 ->
          react_pass e c a w = Ok e (_didUpdate c w1)
          /\ (is_Some (get_comp c w1) ->
              changed_keys c (_didUpdate c w1) = ∅
              /\ change_count c (_didUpdate c w1) = 0))
    /\ (forall e' w', react_pass e c a w = Ok e' w' ->
          exists w1, result = Ok false w1 /\ w' = _didUpdate c w1)
    /\ (forall w0,
          is_Some (get_comp c w0) ->
          w = (if has_Proxy w0 then w0 else upd_comp c (with_watched (Some false)) w0) ->
          react e c args_frame w0 = react_pass e c args_frame w).
Proof.
  intros e c a w cd upd_f Hcd Hm Ha Hr Hu. cbv zeta.
  assert (Hg : get_comp c (upd_comp c (with_z None) w) = Some (with_z None cd))
    by (by rewrite get_comp_upd_comp, Hcd).
  rewrite (react_pass_renderless e c a w (with_z None cd) upd_f Hg Hm Ha Hr Hu).
  change (state (with_z None cd)) with (state cd).
  split; [|split; [|split]]; [| | |by intros w0 [cd0 Hcd0] ->; apply (react_frame_eq e c w0 cd0)].
  - intros w1 ->. reflexivity.
  - intros w1 H. rewrite H. cbn [bind]. split; [reflexivity|].
    intros [cd1 Hcd1].
    assert (Hg' : get_comp c (_didUpdate c w1)
                  = Some (with_change_count 0 (with_changed_keys (Some ∅) cd1))).
    { unfold _didUpdate, call_hook. rewrite !get_comp_upd_comp, Hcd1. cbn [fmap option_fmap option_map].
      destruct (has_didUpdate _); [|by rewrite get_comp_upd_comp, Hcd1].
      change (get_comp c (emit ?x ?y)) with (get_comp c y).
      by rewrite get_comp_upd_comp, Hcd1. }
    unfold changed_keys, change_count. rewrite Hg'. split; reflexivity.
  - intros e' w'. destruct (upd_f _ _ _ _ _) as [b w1|w1|]; simpl; try discriminate.
    destruct b; [discriminate|]. intros [= <- <-]. eauto.
Qed.

Lemma react_renderless_truthy_update_throws_witness :
  react_pass env_update_truthy 0 args_frame world_idle
    = Throw (upd_comp 0 (with_z None) world_idle).
Proof.
  assert (Hg : get_comp 0 world_idle = Some idle_component) by reflexivity.
  assert (Hm : _mounted idle_component = true) by reflexivity.
  assert (Ha : a_mounting args_frame = false) by reflexivity.
  assert (Hr : render (callbacks_of env_update_truthy 0) = None) by reflexivity.
  assert (Hu : update (callbacks_of env_update_truthy 0) = Some update_wants_render)
    by reflexivity.
  apply (proj1 (react_renderless_truthy_update_throws env_update_truthy 0 args_frame
                  world_idle idle_component update_wants_render Hg Hm Ha Hr Hu)).
  reflexivity.
Defined.


(** ** The store under host calls *)

Lemma nodes_upd_eq k f w : nodes (upd k f w) !! k = f <$> nodes w !! k.
Proof. unfold upd; simpl. apply lookup_alter_eq. Qed.

Lemma nodes_upd_ne k k' f w : k <> k' -> nodes (upd k f w) !! k' = nodes w !! k'.
Proof. intros. unfold upd; simpl. by apply lookup_alter_ne. Qed.

(** An update that keeps a field keeps every reading of that field. *)
Lemma field_upd_keep {A} (g : node -> A) k k' f w :
  (forall x, g (f x) = g x) ->
  g <$> nodes (upd k f w) !! k' = g <$> nodes w !! k'.
Proof.
  intros Hf. destruct (decide (k = k')) as [->|Hne].
  - rewrite nodes_upd_eq. destruct (nodes w !! k'); simpl; [by rewrite Hf|done].
  - by rewrite nodes_upd_ne.
Qed.

Lemma children_of_upd_keep k k' f w :
  (forall x, childNodes (f x) = childNodes x) ->
  children_of k' (upd k f w) = children_of k' w.
Proof. intros Hf. unfold children_of. by rewrite (field_upd_keep childNodes). Qed.

Lemma children_of_upd_eq k g w :
  children_of k (upd k (fun nd => with_childNodes (g (childNodes nd)) nd) w)
    = default [] (g <$> (childNodes <$> nodes w !! k)).
Proof. unfold children_of. rewrite nodes_upd_eq. by destruct (nodes w !! k). Qed.

Lemma parent_of_upd_keep k k' f w :
  (forall x, parentNode (f x) = parentNode x) ->
  parent_of k' (upd k f w) = parent_of k' w.
Proof.
  intros Hf. unfold parent_of.
  pose proof (field_upd_keep parentNode k k' f w Hf) as H.
  destruct (nodes (upd k f w) !! k'), (nodes w !! k'); simpl in *; congruence.
Qed.

Lemma parent_of_upd_eq k v w :
  is_Some (nodes w !! k) ->
  parent_of k (upd k (with_parentNode v) w) = v.
Proof. intros [x Hx]. unfold parent_of. rewrite nodes_upd_eq, Hx. reflexivity. Qed.

Lemma is_Some_nodes_upd k k' f w :
  is_Some (nodes (upd k f w) !! k') <-> is_Some (nodes w !! k').
Proof.
  destruct (decide (k = k')) as [->|Hne].
  - rewrite nodes_upd_eq. by rewrite fmap_is_Some.
  - by rewrite nodes_upd_ne.
Qed.

Lemma log_call_hook present hk c dr w :
  log (call_hook present hk c dr w) = log w ++ hook_events present hk c dr w.
Proof.
  unfold call_hook, hook_events. destruct (get_comp c w) as [cd|]; [|by rewrite app_nil_r].
  destruct (present cd); simpl; [done|by rewrite app_nil_r].
Qed.

Lemma nodes_call_hook present hk c dr w : nodes (call_hook present hk c dr w) = nodes w.
Proof.
  unfold call_hook. destruct (get_comp c w) as [cd|]; [|done]. by destruct (present cd).
Qed.

Lemma comps_call_hook present hk c dr w : comps (call_hook present hk c dr w) = comps w.
Proof.
  unfold call_hook. destruct (get_comp c w) as [cd|]; [|done]. by destruct (present cd).
Qed.

Lemma hook_events_upd_comp present hk c dr c' f w :
  (forall cd, present (f cd) = present cd) ->
  hook_events present hk c dr (upd_comp c' f w) = hook_events present hk c dr w.
Proof.
  intros Hf. unfold hook_events. destruct (decide (c' = c)) as [->|Hne].
  - rewrite get_comp_upd_comp. destruct (get_comp c w); simpl; [by rewrite Hf|done].
  - by rewrite get_comp_upd_comp_ne.
Qed.

Lemma log_willUnmount owner w :
  log (match owner with Some h => _willUnmount h None w | None => w end)
    = log w ++ unmount_begin owner w.
Proof. destruct owner; simpl; [apply log_call_hook|by rewrite app_nil_r]. Qed.

Lemma nodes_willUnmount owner w :
  nodes (match owner with Some h => _willUnmount h None w | None => w end) = nodes w.
Proof. destruct owner; [apply nodes_call_hook|done]. Qed.

Lemma comps_willUnmount owner w :
  comps (match owner with Some h => _willUnmount h None w | None => w end) = comps w.
Proof. destruct owner; [apply comps_call_hook|done]. Qed.

Lemma log_didUnmount owner w :
  log (match owner with Some h => _didUnmount h None w | None => w end)
    = log w ++ unmount_end owner w.
Proof.
  destruct owner as [h|]; simpl; [|by rewrite app_nil_r].
  unfold _didUnmount. rewrite log_call_hook. f_equal.
  by apply hook_events_upd_comp.
Qed.

Lemma nodes_didUnmount owner w :
  nodes (match owner with Some h => _didUnmount h None w | None => w end) = nodes w.
Proof. destruct owner; [unfold _didUnmount; by rewrite nodes_call_hook|done]. Qed.


(** ** Hard replacement *)


Lemma is_child_willUnmount owner c p w :
  is_child c p (match owner with Some h => _willUnmount h None w | None => w end)
    = is_child c p w.
Proof. unfold is_child, children_of. by rewrite nodes_willUnmount. Qed.











(** ** The child walk and the trailing removal *)

Lemma remove_child_middle c keep rm :
  c ∉ keep -> remove_child c (keep ++ c :: rm) = keep ++ rm.
Proof.
  induction keep as [|x keep IH]; intros Hnot; simpl.
  - by rewrite Nat.eqb_refl.
  - apply not_elem_of_cons in Hnot as [Hne Hnot].
    rewrite (proj2 (Nat.eqb_neq x c)) by congruence. by rewrite IH.
Qed.

Lemma removal_events_ext old (w w' : world) c :
  (nodes w' !! c ≫= _h) = (nodes w !! c ≫= _h) ->
  (forall h, (has_willUnmount <$> get_comp h w') = (has_willUnmount <$> get_comp h w)) ->
  (forall h, (has_didUnmount <$> get_comp h w') = (has_didUnmount <$> get_comp h w)) ->
  removal_events old w' c = removal_events old w c.
Proof.
  intros Hh Hw Hd. unfold removal_events. rewrite Hh.
  destruct (nodes w !! c ≫= _h) as [h|]; [|reflexivity].
  unfold unmount_begin, unmount_end, hook_events.
  specialize (Hw h). specialize (Hd h).
  destruct (get_comp h w'), (get_comp h w); simpl in *; try discriminate; [|reflexivity].
  injection Hw as ->. injection Hd as ->. reflexivity.
Qed.

Lemma unmount_end_ext owner (w w' : world) :
  comps w' = comps w -> unmount_end owner w' = unmount_end owner w.
Proof.
  intros H. destruct owner; [|done]. unfold unmount_end, hook_events, get_comp. by rewrite H.
Qed.

(** One removal of the trailing loop. *)
Lemma remove_trailing_child_effect old c w :
  is_child c old w = true ->
  exists w',
    remove_trailing_child old c w = Ok tt w'
    /\ children_of old w' = remove_child c (children_of old w)
    /\ log w' = log w ++ removal_events old w c
    /\ parent_of c w' = None
    /\ (forall k, k <> c -> parent_of k w' = parent_of k w)
    /\ (forall k, (nodes w' !! k ≫= _h) = (nodes w !! k ≫= _h))
    /\ (forall h, (has_willUnmount <$> get_comp h w') = (has_willUnmount <$> get_comp h w))
    /\ (forall h, (has_didUnmount <$> get_comp h w') = (has_didUnmount <$> get_comp h w)).
Proof.
  intros Hc. unfold remove_trailing_child, host_removeChild.
  set (owner := nodes w !! c ≫= _h).
  rewrite is_child_willUnmount, Hc. cbn [bind].
  set (w0 := match owner with Some h => _willUnmount h None w | None => w end).
  assert (Hn0 : nodes w0 = nodes w) by apply nodes_willUnmount.
  assert (Hc0 : comps w0 = comps w) by apply comps_willUnmount.
  set (w1 := upd c (with_parentNode None)
               (upd old (fun nd => with_childNodes (remove_child c (childNodes nd)) nd) w0)).
  assert (Hold : is_Some (nodes w !! old)).
  { unfold is_child, children_of in Hc. apply bool_decide_eq_true in Hc.
    destruct (nodes w !! old); [eauto|]. simpl in Hc. by apply elem_of_nil in Hc. }
  eexists. split; [reflexivity|].
  split; [|split; [|split; [|split; [|split; [|split]]]]].
  - unfold children_of. rewrite nodes_didUnmount. cbn [nodes emit]. fold (children_of old w1).
    subst w1. rewrite children_of_upd_keep by reflexivity. rewrite children_of_upd_eq.
    unfold children_of. rewrite Hn0. destruct Hold as [x ->]. reflexivity.
  - rewrite log_didUnmount. cbn [log emit]. change (log w1) with (log w0).
    subst w0. rewrite log_willUnmount. unfold removal_events. fold owner.
    rewrite (unmount_end_ext owner w (emit (EvRemoveChild old c) w1)) by exact Hc0.
    by rewrite <- !app_assoc.
  - unfold parent_of. rewrite nodes_didUnmount. cbn [nodes emit]. subst w1.
    rewrite nodes_upd_eq.
    destruct (nodes (upd old (fun nd => with_childNodes (remove_child c (childNodes nd)) nd) w0) !! c);
      reflexivity.
  - intros k Hk. unfold parent_of. rewrite nodes_didUnmount. cbn [nodes emit]. subst w1.
    rewrite nodes_upd_ne by congruence.
    fold (parent_of k (upd old (fun nd => with_childNodes (remove_child c (childNodes nd)) nd) w0)).
    rewrite parent_of_upd_keep by reflexivity. unfold parent_of. by rewrite Hn0.
  - intros k. rewrite nodes_didUnmount. cbn [nodes emit]. subst w1.
    assert (H : _h <$> nodes (upd c (with_parentNode None)
                  (upd old (fun nd => with_childNodes (remove_child c (childNodes nd)) nd) w0)) !! k
                = _h <$> nodes w !! k).
    { rewrite !(field_upd_keep _h) by reflexivity. by rewrite Hn0. }
    destruct (nodes (upd c _ _) !! k), (nodes w !! k); simpl in *; congruence.
  - intros h.
    assert (Hc1 : comps (emit (EvRemoveChild old c) w1) = comps w) by exact Hc0.
    destruct owner as [h'|].
    + unfold _didUnmount, get_comp. rewrite comps_call_hook. unfold upd_comp. cbn [comps set_comps].
      rewrite Hc1. destruct (decide (h' = h)) as [->|Hne].
      * rewrite lookup_alter_eq. by destruct (comps w !! h).
      * by rewrite lookup_alter_ne.
    + unfold get_comp. by rewrite Hc1.
  - intros h.
    assert (Hc1 : comps (emit (EvRemoveChild old c) w1) = comps w) by exact Hc0.
    destruct owner as [h'|].
    + unfold _didUnmount, get_comp. rewrite comps_call_hook. unfold upd_comp. cbn [comps set_comps].
      rewrite Hc1. destruct (decide (h' = h)) as [->|Hne].
      * rewrite lookup_alter_eq. by destruct (comps w !! h).
      * by rewrite lookup_alter_ne.
    + unfold get_comp. by rewrite Hc1.
Qed.

(** The trailing loop removes, in order, exactly the children found from
    index [length keep] on, with the unmount signals of each around its
    removal; the iteration bound is never hit. *)
Lemma remove_trailing_effect rm :
  forall keep old w bound,
    children_of old w = keep ++ rm ->
    NoDup (keep ++ rm) ->
    length rm <= bound ->
    exists w',
      remove_trailing bound old (length keep) w = Ok tt w'
      /\ children_of old w' = keep
      /\ log w' = log w ++ concat (removal_events old w <$> rm)
      /\ (forall c, c ∈ rm -> parent_of c w' = None).
Proof.
  induction rm as [|c rm IH]; intros keep old w bound Hch Hnd Hb.
  - exists w. rewrite app_nil_r in Hch.
    assert (Hl : children_of old w !! length keep = None)
      by (rewrite Hch; by apply lookup_ge_None_2).
    destruct bound; simpl; rewrite Hl; rewrite ?app_nil_r;
      (repeat split; auto; intros c Hc; by apply elem_of_nil in Hc).
  - assert (Hl : children_of old w !! length keep = Some c)
      by (rewrite Hch; apply list_lookup_middle; reflexivity).
    destruct bound as [|bound]; [simpl in Hb; lia|].
    cbn [remove_trailing]. rewrite Hl.
    assert (Hin : is_child c old w = true).
    { unfold is_child. apply bool_decide_eq_true. rewrite Hch. set_solver. }
    destruct (remove_trailing_child_effect old c w Hin)
      as (w1 & Hr & Hch1 & Hlog1 & Hp1 & Hpk & Hh & Hwu & Hdu).
    rewrite Hr. cbn [bind].
    assert (Hnot : c ∉ keep).
    { apply NoDup_app in Hnd as (_ & Hd & _). intros Hk. apply (Hd c Hk). set_solver. }
    assert (Hnd' : NoDup (keep ++ rm)).
    { apply NoDup_app in Hnd as (H1 & H2 & H3). apply NoDup_cons in H3 as [_ H3].
      apply NoDup_app. repeat split; auto. intros x Hx Hx'. apply (H2 x Hx). set_solver. }
    rewrite Hch, remove_child_middle in Hch1 by exact Hnot.
    destruct (IH keep old w1 bound Hch1 Hnd') as (w' & Hr' & Hch' & Hlog' & Hp');
      [simpl in Hb; lia|].
    exists w'. split; [exact Hr'|]. split; [exact Hch'|]. split.
    + rewrite Hlog', Hlog1. rewrite fmap_cons. cbn [concat]. rewrite <- !app_assoc.
      do 2 f_equal. f_equal. apply list_fmap_ext. intros i x Hx.
      apply removal_events_ext; auto.
    + intros x Hx. apply elem_of_cons in Hx as [->|Hx]; [|by apply Hp'].
      assert (Hcrm : c ∉ rm).
      { apply NoDup_app in Hnd as (_ & _ & H3). by apply NoDup_cons in H3 as [H3 _]. }
      (* later removals leave the parent pointer of [c] alone *)
      clear -Hr' Hp1 Hcrm Hch1 Hnd'.
      revert w1 bound Hr' Hp1 Hch1. 
      induction rm as [|d rm IHrm]; intros w1 bound Hr' Hp1 Hch1.
      * assert (Hl : children_of old w1 !! length keep = None)
          by (rewrite Hch1, app_nil_r; by apply lookup_ge_None_2).
        destruct bound; simpl in Hr'; rewrite Hl in Hr'; by injection Hr' as <-.
      * assert (Hl : children_of old w1 !! length keep = Some d)
          by (rewrite Hch1; apply list_lookup_middle; reflexivity).
        destruct bound as [|bound]; simpl in Hr'; rewrite Hl in Hr'; [discriminate|].
        assert (Hin : is_child d old w1 = true).
        { unfold is_child. apply bool_decide_eq_true. rewrite Hch1. set_solver. }
        destruct (remove_trailing_child_effect old d w1 Hin)
          as (w2 & Hr2 & Hch2 & _ & _ & Hpk2 & _).
        rewrite Hr2 in Hr'. cbn [bind] in Hr'.
        apply not_elem_of_cons in Hcrm as [Hcd Hcrm].
        assert (Hnot : d ∉ keep).
        { apply NoDup_app in Hnd' as (_ & Hd & _). intros Hk. apply (Hd d Hk). set_solver. }
        assert (Hnd2 : NoDup (keep ++ rm)).
        { apply NoDup_app in Hnd' as (H1 & H2 & H3). apply NoDup_cons in H3 as [_ H3].
          apply NoDup_app. repeat split; auto. intros x Hx Hx'. apply (H2 x Hx). set_solver. }
        rewrite Hch1, remove_child_middle in Hch2 by exact Hnot.
        apply (IHrm Hnd2 Hcrm w2 bound Hr'); [|exact Hch2].
        rewrite Hpk2 by congruence. exact Hp1.
Qed.

Lemma walk_children_walked rec old cs :
  forall i w w', walk_children rec old cs i w = Ok tt w' <-> walked rec old cs i w w'.
Proof.
  induction cs as [|c cs IH]; intros i w w'; simpl.
  - split.
    + intros [= <-]. constructor.
    + intros H. by inversion H.
  - split.
    + destruct (rec (Some c) (children_of old w !! i) old w) as [r w1| |] eqn:Hr;
        cbn [bind]; try discriminate.
      intros H. apply IH in H. econstructor; eauto.
    + intros H. inversion H as [|c0 cs0 i0 w0 r w1 w0' Hr Hw]; subst.
      rewrite Hr. cbn [bind]. by apply IH.
Qed.

(** C2: in a soft replacement the candidate's children (a snapshot) are
    paired with the live children by position and each pair is reconciled
    recursively; afterwards every live child found at an index beyond the
    candidate's child count is removed, in order, each removal framed by
    the unmount-begin and unmount-complete signals of the child's owner (if
    any); the children kept are the leading ones, untouched by the removal
    (no [removeChild] or re-insertion is logged for them in this phase). *)
Theorem reconcile_children_by_position :
  forall rec n o nd od w w1,
    nodes w !! o = Some od ->
    walk_children rec o (childNodes nd) 0 w = Ok tt w1 ->
    NoDup (children_of o w1) ->
    let k := length (childNodes nd) in
    let removed := drop k (children_of o w1) in
    walked rec o (childNodes nd) 0 w w1
    /\ exists w2,
         reconcile_children rec n o nd od w = Ok (negb (hasChildNodes nd)) w2
         /\ children_of o w2 = take k (children_of o w1)
         /\ log w2 = log w1 ++ concat (removal_events o w1 <$> removed)
         /\ (forall c, c ∈ removed -> parent_of c w2 = None)
         /\ (isEqualNode w n o = false ->
             soft_replace rec n o nd od w
               = bind (_copyProps n o (negb (hasChildNodes nd))
                         (if negb (isEqualNode w2 n o) then sync_attributes n o w2 else w2))
                      (fun _ w3 => Ok None w3)).
Proof.
  intros rec n o nd od w w1 Ho Hwalk Hnd k removed.
  split; [by apply walk_children_walked|].
  assert (Hrt : exists w2,
            remove_trailing (length (children_of o w1)) o k w1 = Ok tt w2
            /\ children_of o w2 = take k (children_of o w1)
            /\ log w2 = log w1 ++ concat (removal_events o w1 <$> removed)
            /\ (forall c, c ∈ removed -> parent_of c w2 = None)).
  { destruct (decide (k <= length (children_of o w1))) as [Hle|Hgt].
    - destruct (remove_trailing_effect (drop k (children_of o w1)) (take k (children_of o w1))
                  o w1 (length (children_of o w1))) as (w2 & H1 & H2 & H3 & H4).
      + by rewrite take_drop.
      + by rewrite take_drop.
      + rewrite length_drop. lia.
      + rewrite length_take, Nat.min_l in H1 by lia. exists w2. auto.
    - exists w1. subst removed. rewrite drop_ge, take_ge by lia.
      assert (Hl : children_of o w1 !! k = None) by (apply lookup_ge_None_2; lia).
      destruct (children_of o w1) as [|x l] eqn:E; simpl; simpl in Hl; rewrite ?E, Hl;
        rewrite app_nil_r; repeat split; auto; intros c Hc; by apply elem_of_nil in Hc. }
  assert (Hrc : exists w2,
            reconcile_children rec n o nd od w = Ok (negb (hasChildNodes nd)) w2
            /\ children_of o w2 = take k (children_of o w1)
            /\ log w2 = log w1 ++ concat (removal_events o w1 <$> removed)
            /\ (forall c, c ∈ removed -> parent_of c w2 = None)).
  { destruct Hrt as (w2 & H1 & H2 & H3 & H4). unfold reconcile_children.
    destruct (hasChildNodes nd) eqn:Hnew; cbn [orb negb].
    - rewrite Hwalk. cbn [bind]. fold k. rewrite H1. cbn [bind]. exists w2. auto.
    - assert (Hcs : childNodes nd = []).
      { unfold hasChildNodes in Hnew. by destruct (childNodes nd). }
      assert (Hw : w1 = w) by (rewrite Hcs in Hwalk; simpl in Hwalk; congruence).
      subst w1. subst k. rewrite Hcs in *. cbn [length] in *.
      destruct (hasChildNodes od) eqn:Hold.
      + rewrite H1. cbn [bind]. exists w2. auto.
      + assert (Hch : children_of o w = []).
        { unfold children_of. rewrite Ho. simpl. unfold hasChildNodes in Hold.
          by destruct (childNodes od). }
        exists w. subst removed. rewrite Hch.
        rewrite drop_nil, take_nil. cbn [fmap list_fmap concat].
        split; [reflexivity|]. split; [reflexivity|]. split; [by rewrite app_nil_r|].
        intros c Hc. by apply elem_of_nil in Hc. }
  destruct Hrc as (w2 & H1 & H2 & H3 & H4). exists w2.
  repeat split; auto.
  intros Heq. unfold soft_replace. rewrite Heq, H1. reflexivity.
Qed.

Lemma reconcile_children_by_position_witness :
  exists w2,
    reconcile_children (_replace_fuel 5) 2 1
      (mk_element "UL" [] [21; 22] None) (mk_element "UL" [] [11; 12; 13] (Some 100)) world_abc
      = Ok false w2
    /\ children_of 1 w2 = [11; 12]
    /\ log w2 = [EvSetAttribute 11 "class" "x"; EvHook WillUnmount 7 None;
                 EvRemoveChild 1 13; EvHook DidUnmount 7 None]
    /\ parent_of 13 w2 = None.
Proof.
  assert (Ho : nodes world_abc !! 1 = Some (mk_element "UL" [] [11; 12; 13] (Some 100)))
    by (vm_compute; reflexivity).
  assert (Hwalk : walk_children (_replace_fuel 5) 1
                    (childNodes (mk_element "UL" [] [21; 22] None)) 0 world_abc
                  = Ok tt walked_abc) by (vm_compute; reflexivity).
  assert (Hnd : NoDup (children_of 1 walked_abc)).
  { apply (bool_decide_unpack _). vm_compute. exact I. }
  destruct (reconcile_children_by_position (_replace_fuel 5) 2 1
              (mk_element "UL" [] [21; 22] None) (mk_element "UL" [] [11; 12; 13] (Some 100))
              world_abc walked_abc Ho Hwalk Hnd) as (_ & w2 & H1 & H2 & H3 & H4 & _).
  exists w2. split; [exact H1|]. split; [rewrite H2; vm_compute; reflexivity|].
  split; [rewrite H3; vm_compute; reflexivity|].
  apply (H4 13).
  assert (E : drop (length (childNodes (mk_element "UL" [] [21; 22] None)))
                (children_of 1 walked_abc) = [13]) by (vm_compute; reflexivity).
  rewrite E. constructor.
Defined.


(** ** The deep-equal short-circuit *)























(** In the sample form the live input takes over the candidate's value
    while the form itself and the tree stay as they were. *)
Example replace_equal_form_input :
  exists w',
    _replace (Some 2) (Some 1) 1 world_form = Ok None w'
    /\ (value <$> nodes w' !! 11) = Some (Some "new")
    /\ log w' = [EvSetProp 11 "value"].
Proof.
  exists (world_after world_form (_replace (Some 2) (Some 1) 1 world_form)).
  repeat split; vm_compute; reflexivity.
Qed.



(** ** The insertion engine *)

Lemma bind_assoc {A B C} (m : outcome A) (f : A -> world -> outcome B)
    (g : B -> world -> outcome C) :
  bind (bind m f) g = bind m (fun a w => bind (f a w) g).
Proof. by destruct m. Qed.

Lemma comps_detach c w : comps (detach c w) = comps w.
Proof. unfold detach. by destruct (parent_of c w). Qed.

Lemma comps_call_insertFunc f elem n before w u w' :
  call_insertFunc f elem n before w = Ok u w' -> comps w' = comps w.
Proof.
  unfold call_insertFunc. destruct elem as [p|]; [|discriminate]. destruct f.
  - intros [= _ <-]. unfold host_appendChild. cbn [comps emit upd set_nodes]. apply comps_detach.
  - unfold host_insertBefore. destruct (match before with BNode r => Some r | _ => None end) as [r|].
    + destruct (is_child r p w); [|discriminate]. intros [= _ <-].
      cbn [comps emit upd set_nodes]. apply comps_detach.
    + intros [= _ <-]. cbn [comps emit upd set_nodes]. apply comps_detach.
Qed.

(** Inserting an entry does not touch any CalDom instance. *)
Lemma comps_insert_entry f elem before x w u w' :
  insert_entry f elem before x w = Ok u w' -> comps w' = comps w.
Proof.
  unfold insert_entry. destruct (negb (ins_truthy x)); [by intros [= _ <-]|].
  destruct (negb (ins_typeof_object x)).
  - destruct x; try discriminate. unfold createTextNode, alloc_node.
    intros H. by apply comps_call_insertFunc in H.
  - destruct x; try discriminate. apply comps_call_insertFunc.
Qed.

Section Flatten.
Variables (f : insert_func) (e : env) (this : nat) (before : before_ref).
Hypothesis Hbefore : before <> BUndef.

Lemma resolve_before_given elem w : resolve_before elem before w = Ok before w.
Proof using Hbefore. unfold resolve_before. by destruct before. Qed.

(** Simple entries handed over one by one are inserted exactly as when they
    are handed over inside one array. *)
Lemma insert_items_app_simple l rest :
  Forall (fun x => is_simple_entry x = true) l ->
  forall w,
    insert_items f e this (l ++ rest) before w
      = bind (insert_entries f (first_elem this w) before l w)
             (fun _ w3 => insert_items f e this rest before w3).
Proof using Hbefore.
  induction 1 as [|x l Hx Hl IH]; intros w; [reflexivity|].
  cbn [app insert_items insert_entries].
  destruct (ins_truthy x) eqn:Ht; cbn [negb].
  - assert (Hnew : match x with
                   | InsCalDom _ => False
                   | _ => default [x] (array_like_entries x) = [x]
                   end).
    { destruct x as [v| | |]; try discriminate; [destruct v; try discriminate|]; reflexivity. }
    destruct x as [v|n|c|l']; try contradiction; rewrite ?Hnew;
      rewrite resolve_before_given; cbn [bind insert_entries]; rewrite !bind_assoc;
      change (get_comp this w ≫= fun cd => head (elems cd)) with (first_elem this w);
      (destruct (insert_entry f (first_elem this w) before _ w) as [u w1| |] eqn:E; cbn [bind];
       [|reflexivity|reflexivity]);
      rewrite IH; unfold first_elem, get_comp;
      by rewrite (comps_insert_entry _ _ _ _ _ _ _ E).
  - unfold insert_entry at 1. rewrite Ht. cbn [negb bind]. apply IH.
Qed.
End Flatten.



(** The loop tests truthiness: the entries [0], [false] and the empty
    string are skipped like [null] and [undefined] (the only ones the
    documentation of [append] and [prepend] names); the number [42] next to
    them is inserted as the text "42". *)
Lemma insertBefore_skips_falsy_values :
  append env_insert 0 [InsVal (VNum 0)] world_insert = Ok env_insert world_insert
  /\ append env_insert 0 [InsVal (VBool false); InsVal (VStr "")] world_insert
     = Ok env_insert world_insert
  /\ children_of 1 world_insert = []
  /\ children_of 1 (world_after world_insert (append env_insert 0 [InsVal (VNum 42)] world_insert))
     = [1000].
Proof. repeat split. Qed.

(** A component item: mount-begin, insertion of its node, mount-complete. *)
Example append_component_log :
  log (world_after world_insert (append env_insert 0 [InsCalDom 5] world_insert))
    = [EvHook WillMount 5 None; EvAppendChild 1 3; EvHook DidMount 5 None].
Proof. vm_compute. reflexivity. Qed.


(** ** Node Collections: the single and the iterating accessors *)

Lemma each_loop_never_false (g : option nat -> nat -> world -> outcome unit) l :
  forall i w,
    each_loop (fun elem i w => bind (g elem i w) (fun _ w1 => Ok false w1)) l i w
      = for_each (fun n i => g (Some n) i) l i w.
Proof.
  induction l as [|x l IH]; intros i w; [reflexivity|].
  cbn [each_loop for_each]. rewrite bind_assoc.
  destruct (g (Some x) i w) as [u w1| |]; cbn [bind]; [apply IH|reflexivity|reflexivity].
Qed.

Lemma map_loop_pure {A} (g : nat -> world -> A) l :
  forall i w,
    map_loop (fun elem _ w1 => match elem with
                               | Some n => Ok (g n w1) w1
                               | None => Throw w1
                               end) l i w
      = Ok ((fun n => g n w) <$> l) w.
Proof.
  induction l as [|x l IH]; intros i w; [reflexivity|].
  cbn [map_loop bind]. rewrite IH. reflexivity.
Qed.

(** In single mode a key-value object is written entry by entry onto
    [elems[0]]. *)
Lemma for_each_on_first {A} (g : nat -> A -> world -> world) c x kvs :
  (forall n kv w, comps (g n kv w) = comps w) ->
  forall i w,
    first_elem c w = Some x ->
    for_each (fun kv _ w1 => on_elem (fun n w2 => Ok tt (g n kv w2)) (first_elem c w1) w1) kvs i w
      = Ok tt (foldl (fun acc kv => g x kv acc) w kvs).
Proof.
  intros Hg. induction kvs as [|kv kvs IH]; intros i w Hx; [reflexivity|].
  cbn [for_each foldl]. rewrite Hx. cbn [on_elem bind]. apply IH.
  unfold first_elem, get_comp in *. by rewrite Hg.
Qed.

Lemma is_multiple_eq c w cd : get_comp c w = Some cd -> is_multiple c w = multiple cd.
Proof. intros H. unfold is_multiple. by rewrite H. Qed.

Lemma single_elem (cd : component) :
  length (elems cd) = 1 -> exists x, elems cd = [x].
Proof. destruct (elems cd) as [|x [|y l]]; try discriminate. eauto. Qed.

Section Broadcast.
Variables (c : nat) (w : world) (cd : component).
Hypothesis Hcd : get_comp c w = Some cd.
Hypothesis Hfit : mode_fits cd.

Lemma each_multiple_loop cb :
  _eachMultiple c cb w = each_loop cb (elems cd) 0 w.
Proof using Hcd. unfold _eachMultiple. by rewrite Hcd. Qed.

Lemma each_fits cb : each c cb w = each_loop cb (elems cd) 0 w.
Proof using Hcd Hfit.
  unfold each. rewrite (is_multiple_eq c w cd Hcd).
  destruct (multiple cd) eqn:Hm; [apply each_multiple_loop|].
  destruct Hfit as [?|Hl]; [congruence|]. destruct (single_elem cd Hl) as [x Hx].
  unfold _eachSingle. rewrite Hcd. cbn [mbind option_bind]. rewrite Hx. cbn [head each_loop].
  destruct (cb (Some x) 0 w) as [b w1| |]; cbn [bind]; [by destruct b|reflexivity|reflexivity].
Qed.

Lemma map_fits {A} (cb : map_callback A) : map c cb w = map_loop cb (elems cd) 0 w.
Proof using Hcd Hfit.
  unfold map. rewrite (is_multiple_eq c w cd Hcd).
  destruct (multiple cd) eqn:Hm; [unfold _mapMultiple; by rewrite Hcd|].
  destruct Hfit as [?|Hl]; [congruence|]. destruct (single_elem cd Hl) as [x Hx].
  unfold _mapSingle. rewrite Hcd. cbn [mbind option_bind]. rewrite Hx. cbn [head map_loop].
  destruct (cb (Some x) 0 w) as [b w1| |]; reflexivity.
Qed.

Lemma first_elem_single x : elems cd = [x] -> first_elem c w = Some x.
Proof using Hcd. intros Hx. unfold first_elem. rewrite Hcd. cbn [mbind option_bind]. by rewrite Hx. Qed.

Lemma attr_fits a : attr c a w = attr_broadcast (elems cd) a w.
Proof using Hcd Hfit.
  unfold attr. rewrite (is_multiple_eq c w cd Hcd).
  destruct (multiple cd) eqn:Hm.
  - unfold _attrMultiple, attr_broadcast. destruct a as [kvs|key [v|vs]|key].
    + rewrite each_fits. unfold each_do. by rewrite each_loop_never_false.
    + rewrite each_fits. unfold each_do. by rewrite each_loop_never_false.
    + rewrite each_fits. unfold each_do. by rewrite each_loop_never_false.
    + rewrite map_fits, map_loop_pure. reflexivity.
  - destruct Hfit as [?|Hl]; [congruence|]. destruct (single_elem cd Hl) as [x Hx].
    pose proof (first_elem_single x Hx) as Hf.
    unfold _attrSingle, attr_broadcast. rewrite Hx. destruct a as [kvs|key [v|vs]|key].
    + rewrite (for_each_on_first (fun n kv => host_setAttribute n (fst kv) (snd kv)) c x kvs)
        by done. reflexivity.
    + rewrite Hf. reflexivity.
    + rewrite Hf. reflexivity.
    + rewrite Hf. reflexivity.
Qed.

Lemma prop_fits a : prop c a w = prop_broadcast (elems cd) a w.
Proof using Hcd Hfit.
  unfold prop. rewrite (is_multiple_eq c w cd Hcd).
  destruct (multiple cd) eqn:Hm.
  - unfold _propMultiple, prop_broadcast. destruct a as [kvs|key v].
    + rewrite each_fits. unfold each_do. by rewrite each_loop_never_false.
    + destruct (is_given v).
      * rewrite each_fits. unfold each_do. rewrite each_loop_never_false. by destruct v.
      * rewrite map_fits, map_loop_pure. reflexivity.
  - destruct Hfit as [?|Hl]; [congruence|]. destruct (single_elem cd Hl) as [x Hx].
    pose proof (first_elem_single x Hx) as Hf.
    unfold _propSingle, prop_broadcast. rewrite Hx. destruct a as [kvs|key v].
    + rewrite (for_each_on_first (fun n kv => host_set_property n (fst kv) (snd kv)) c x kvs)
        by done. reflexivity.
    + rewrite Hf. destruct (is_given v); [by destruct v|reflexivity].
Qed.

Lemma css_fits a : css c a w = css_broadcast (elems cd) a w.
Proof using Hcd Hfit.
  unfold css. rewrite (is_multiple_eq c w cd Hcd).
  destruct (multiple cd) eqn:Hm.
  - unfold _cssMultiple, css_broadcast. destruct a as [kvs|key [v|]].
    + rewrite each_fits. unfold each_do. by rewrite each_loop_never_false.
    + rewrite each_fits. unfold each_do. rewrite each_loop_never_false. by destruct v.
    + rewrite map_fits, map_loop_pure. reflexivity.
  - destruct Hfit as [?|Hl]; [congruence|]. destruct (single_elem cd Hl) as [x Hx].
    pose proof (first_elem_single x Hx) as Hf.
    unfold _cssSingle, css_broadcast. rewrite Hx. destruct a as [kvs|key [v|]].
    + rewrite (for_each_on_first (fun n kv => host_set_style n (fst kv) (snd kv)) c x kvs)
        by done. reflexivity.
    + rewrite Hf. by destruct v.
    + rewrite Hf. reflexivity.
Qed.

Lemma addClass_fits names : addClass c names w = addClass_broadcast (elems cd) names w.
Proof using Hcd Hfit.
  unfold addClass. rewrite (is_multiple_eq c w cd Hcd).
  destruct (multiple cd) eqn:Hm.
  - unfold _addClassMultiple, addClass_broadcast. rewrite each_fits.
    by rewrite (each_loop_never_false
                  (fun elem _ => _addClassListElem elem (_getSpaceSeparatedArray names))).
  - destruct Hfit as [?|Hl]; [congruence|]. destruct (single_elem cd Hl) as [x Hx].
    unfold _addClassSingle, addClass_broadcast. rewrite (first_elem_single x Hx), Hx.
    cbn [for_each]. by destruct (_addClassListElem _ _ _) as [[] w1| |].
Qed.

Lemma removeClass_fits names : removeClass c names w = removeClass_broadcast (elems cd) names w.
Proof using Hcd Hfit.
  unfold removeClass. rewrite (is_multiple_eq c w cd Hcd).
  destruct (multiple cd) eqn:Hm.
  - unfold _removeClassMultiple, removeClass_broadcast. rewrite each_fits.
    by rewrite (each_loop_never_false
                  (fun elem _ => _removeClassListElem elem (_getSpaceSeparatedArray names))).
  - destruct Hfit as [?|Hl]; [congruence|]. destruct (single_elem cd Hl) as [x Hx].
    unfold _removeClassSingle, removeClass_broadcast. rewrite (first_elem_single x Hx), Hx.
    cbn [for_each]. by destruct (_removeClassListElem _ _ _) as [[] w1| |].
Qed.
End Broadcast.

(** What [init] installs for an argument that resolves to the elements [l]. *)
Lemma init_found (q : string -> world -> outcome (list nat)) e c l w0 arg :
  (arg = ArgArrayLike l \/ (exists n, arg = ArgObject n /\ l = [n])) ->
  exists cd,
    get_comp c (world_after w0 (init q e c arg None w0)) = Some cd
    /\ elems cd = l
    /\ multiple cd = negb (Nat.eqb (length l) 1)
    /\ mode_fits cd.
Proof.
  intros Harg.
  assert (H : init q e c arg None w0
              = Ok e (upd_comp c (fun cd => let cd1 := with_elems l cd in
                                   if negb (Nat.eqb (length l) 1) then _setMultipleMode cd1 else cd1)
                       (set_comps <[c := proto_component]> w0))).
  { destruct Harg as [->|(n & -> & ->)]; reflexivity. }
  rewrite H. cbn [world_after]. rewrite get_comp_upd_comp.
  unfold get_comp at 1. cbn [comps set_comps]. rewrite lookup_insert_eq.
  cbn [fmap option_fmap option_map]. eexists. split; [reflexivity|].
  unfold mode_fits. destruct (Nat.eqb (length l) 1) eqn:E; cbn [negb]; simpl.
  - apply Nat.eqb_eq in E. auto.
  - auto.
Qed.

(** The same for a query string, when the resolver finds [l] and leaves the
    instances alone. *)
Lemma init_query (q : string -> world -> outcome (list nat)) e c s l w0 w1 :
  s <> "" ->
  q s (set_comps <[c := proto_component]> w0) = Ok l w1 ->
  comps w1 = comps (set_comps <[c := proto_component]> w0) ->
  exists cd,
    get_comp c (world_after w0 (init q e c (ArgStr s) None w0)) = Some cd
    /\ elems cd = l
    /\ multiple cd = negb (Nat.eqb (length l) 1)
    /\ mode_fits cd.
Proof.
  intros Hs Hq Hc. unfold init.
  rewrite (proj2 (String.eqb_neq s "") Hs), Hq. cbn [bind world_after].
  rewrite get_comp_upd_comp. unfold get_comp at 1. rewrite Hc.
  cbn [comps set_comps]. rewrite lookup_insert_eq.
  cbn [fmap option_fmap option_map]. eexists. split; [reflexivity|].
  unfold mode_fits. destruct (Nat.eqb (length l) 1) eqn:E; cbn [negb]; simpl.
  - apply Nat.eqb_eq in E. auto.
  - auto.
Qed.

(** C8, as the code has it. An instance whose installed accessors fit its
    size (the iterating set, or the single-element set on exactly one
    element) applies every accessor to each of its elements in order; with
    exactly one element that is the first element only. [init] establishes
    this for every argument that resolves to elements: the iterating set is
    installed exactly when their number is not 1 (zero included). *)
Theorem accessors_broadcast_when_mode_fits :
  forall c w cd,
    get_comp c w = Some cd ->
    mode_fits cd ->
    (forall cb, each c cb w = each_loop cb (elems cd) 0 w)
    /\ (forall A (cb : map_callback A), map c cb w = map_loop cb (elems cd) 0 w)
    /\ (forall a, attr c a w = attr_broadcast (elems cd) a w)
    /\ (forall a, prop c a w = prop_broadcast (elems cd) a w)
    /\ (forall a, css c a w = css_broadcast (elems cd) a w)
    /\ (forall names, addClass c names w = addClass_broadcast (elems cd) names w)
    /\ (forall names, removeClass c names w = removeClass_broadcast (elems cd) names w)
    /\ (forall x cb, elems cd = [x] ->
          each c cb w = bind (cb (Some x) 0 w) (fun _ w1 => Ok tt w1))
    /\ (forall q e c' l w0 arg,
          arg = ArgArrayLike l \/ (exists n, arg = ArgObject n /\ l = [n]) ->
          exists cd',
            get_comp c' (world_after w0 (init q e c' arg None w0)) = Some cd'
            /\ elems cd' = l
            /\ multiple cd' = negb (Nat.eqb (length l) 1)
            /\ mode_fits cd')
    /\ (forall (q : string -> world -> outcome (list nat)) e c' s l w0 w1,
          s <> "" ->
          q s (set_comps <[c' := proto_component]> w0) = Ok l w1 ->
          comps w1 = comps (set_comps <[c' := proto_component]> w0) ->
          exists cd',
            get_comp c' (world_after w0 (init q e c' (ArgStr s) None w0)) = Some cd'
            /\ elems cd' = l
            /\ multiple cd' = negb (Nat.eqb (length l) 1)
            /\ mode_fits cd').
Proof.
  intros c w cd Hcd Hfit.
  split; [intros; by apply each_fits|].
  split; [intros; by apply map_fits|].
  split; [intros; by apply attr_fits|].
  split; [intros; by apply prop_fits|].
  split; [intros; by apply css_fits|].
  split; [intros; by apply addClass_fits|].
  split; [intros; by apply removeClass_fits|].
  split; [|split; [intros; by apply init_found|intros; by eapply init_query]].
  intros x cb Hx. rewrite (each_fits c w cd Hcd Hfit), Hx. cbn [each_loop].
  destruct (cb (Some x) 0 w) as [b w1| |]; cbn [bind]; [by destruct b|reflexivity|reflexivity].
Qed.

Lemma accessors_broadcast_when_mode_fits_witness :
  attr 9 (AttrSet "title" (Single "t")) world_two
    = attr_broadcast [1; 3] (AttrSet "title" (Single "t")) world_two.
Proof.
  assert (Hcd : get_comp 9 world_two
                = Some (_setMultipleMode (with_elems [1; 3] proto_component)))
    by (vm_compute; reflexivity).
  assert (Hfit : mode_fits (_setMultipleMode (with_elems [1; 3] proto_component)))
    by (left; reflexivity).
  destruct (accessors_broadcast_when_mode_fits 9 world_two _ Hcd Hfit) as (_ & _ & Ha & _).
  exact (Ha (AttrSet "title" (Single "t"))).
Defined.

(** C8 as stated fails for a collection made without an argument ([_()]):
    it holds no element, so its size is not 1, yet the single-element
    accessors stay installed: [each] calls its callback once (on
    [undefined]) instead of zero times, and [attr] raises instead of doing
    nothing. *)
Lemma empty_collection_is_single_mode :
  get_comp 9 world_empty_collection = Some proto_component
  /\ elems proto_component = []
  /\ multiple proto_component = false
  /\ log (world_after world_empty_collection (each 9 count_calls world_empty_collection))
     = [EvSetProp 0 "called"]
  /\ each_loop count_calls [] 0 world_empty_collection = Ok tt world_empty_collection
  /\ attr 9 (AttrSet "title" (Single "t")) world_empty_collection
     = Throw world_empty_collection
  /\ attr_broadcast [] (AttrSet "title" (Single "t")) world_empty_collection
     = Ok None world_empty_collection.
Proof. repeat split; vm_compute; reflexivity. Qed.


(** ** The recursion bound *)

Lemma bind_not_out {A B} (m : outcome A) (k : A -> world -> outcome B) :
  bind m k <> OutOfFuel -> m <> OutOfFuel.
Proof. by destruct m. Qed.

(** A walk that stays within the bound is the same under a more generous
    recursive reconciler. *)
Lemma walk_children_mono rec rec' old cs :
  (forall n o p w, rec n o p w <> OutOfFuel -> rec' n o p w = rec n o p w) ->
  forall i w,
    walk_children rec old cs i w <> OutOfFuel ->
    walk_children rec' old cs i w = walk_children rec old cs i w.
Proof.
  intros Hrec. induction cs as [|c cs IH]; intros i w H; [reflexivity|].
  cbn [walk_children] in *.
  rewrite Hrec by (by apply bind_not_out in H).
  destruct (rec (Some c) (children_of old w !! i) old w) as [r w1| |]; cbn [bind] in *;
    [by apply IH|reflexivity|reflexivity].
Qed.

(** A result obtained within the bound does not depend on the bound. *)
Lemma replace_fuel_mono fuel :
  forall n o p w,
    _replace_fuel fuel n o p w <> OutOfFuel ->
    _replace_fuel (S fuel) n o p w = _replace_fuel fuel n o p w.
Proof.
  induction fuel as [|fuel IH]; intros n o p w H; [by destruct H|].
  remember (S fuel) as f eqn:Ef.
  rewrite Ef in H at 1. rewrite Ef at 2.
  cbn [_replace_fuel] in *.
  destruct n as [n0|]; [|reflexivity].
  destruct (nodes w !! n0) as [n0d|]; [|reflexivity].
  destruct o as [o|]; [|reflexivity].
  destruct (nodes w !! default n0 (_original_root n0d)) as [nd|]; [|reflexivity].
  destruct (nodes w !! o) as [od|]; [|reflexivity].
  destruct (soft_replacable nd od); [|reflexivity].
  unfold soft_replace in *.
  destruct (negb (isEqualNode w (default n0 (_original_root n0d)) o)); [|reflexivity].
  apply bind_not_out in H. apply bind_not_out in H.
  assert (Hrc : reconcile_children (_replace_fuel f) (default n0 (_original_root n0d)) o nd od w
                = reconcile_children (_replace_fuel fuel) (default n0 (_original_root n0d)) o nd od w).
  { unfold reconcile_children in *.
    destruct (hasChildNodes nd || hasChildNodes od); [|reflexivity].
    destruct (hasChildNodes nd); [|reflexivity].
    apply bind_not_out in H.
    rewrite (walk_children_mono (_replace_fuel fuel) (_replace_fuel f)); [reflexivity| |exact H].
    intros n' o' p' w' H'. subst f. by apply IH. }
  by rewrite Hrc.
Qed.

Lemma replace_fuel_enough fuel extra n o p w :
  _replace_fuel fuel n o p w <> OutOfFuel ->
  _replace_fuel (extra + fuel) n o p w = _replace_fuel fuel n o p w.
Proof.
  intros H. induction extra as [|k IH]; [reflexivity|].
  cbn [Nat.add]. rewrite replace_fuel_mono; [exact IH|]. by rewrite IH.
Qed.

(** The whole reconciliation of the sample lists: A is patched in place (one
    attribute written), B is left alone, C is removed between the unmount
    signals of its owner; nothing is returned. *)
Example replace_abc_run :
  exists w',
    _replace (Some 2) (Some 1) 1 world_abc = Ok None w'
    /\ children_of 1 w' = [11; 12]
    /\ parent_of 11 w' = Some 1 /\ parent_of 12 w' = Some 1 /\ parent_of 13 w' = None
    /\ (_mounted <$> get_comp 7 w') = Some false
    /\ log w' = [EvSetAttribute 11 "class" "x"; EvHook WillUnmount 7 None;
                 EvRemoveChild 1 13; EvHook DidUnmount 7 None].
Proof.
  exists (world_after world_abc (_replace (Some 2) (Some 1) 1 world_abc)).
  split; [vm_compute; reflexivity|]. split; [vm_compute; reflexivity|].
  split; [vm_compute; reflexivity|]. split; [vm_compute; reflexivity|].
  split; [vm_compute; reflexivity|]. split; vm_compute; reflexivity.
Qed.


(** * Further properties of the code *)

(** ** The proxy: unwrapped reads and round trips *)

Lemma trap_get_unwrapped t o key w :
  underlying t = VObj o ->
  wraps (obj_read o key w) key = false ->
  trap_get t key w = (obj_read o key w, w).
Proof.
  intros Hu Hw.
  induction t as [| | | | | | o' | | q t IH]; simpl in Hu; try discriminate.
  - injection Hu as ->. cbn [trap_get]. unfold wraps in Hw. by rewrite Hw.
  - cbn [trap_get]. rewrite (IH Hu). unfold wraps in Hw. by rewrite Hw.
Qed.

(** X1. Through any chain of wrappers, a value the [get] trap does not wrap (a
    key starting with an underscore, a CalDom instance, a primitive, a
    function, [null]) comes back as stored, and no proxy is created. *)
Theorem watch_get_unwrapped :
  forall t o key w p,
    underlying t = VObj o ->
    wraps (obj_read o key w) key = false ->
    js_get (VProxy p t) key w = (obj_read o key w, w).
Proof. intros t o key w p Hu Hw. cbn [js_get]. by apply trap_get_unwrapped. Qed.

Lemma watch_get_unwrapped_witness :
  js_get (VProxy 0 (VObj 0)) "_secret" (obj_write 0 "_secret" (VObj 1) empty_world)
    = (obj_read 0 "_secret" (obj_write 0 "_secret" (VObj 1) empty_world),
       obj_write 0 "_secret" (VObj 1) empty_world).
Proof.
  apply (watch_get_unwrapped (VObj 0) 0 "_secret" _ 0); [reflexivity|].
  vm_compute. reflexivity.
Defined.

Lemma obj_read_objs o key (w w' : world) : objs w' = objs w -> obj_read o key w' = obj_read o key w.
Proof. intros H. unfold obj_read. by rewrite H. Qed.

Lemma trap_delete_underlying (cb : string -> bool -> world -> world) t :
  (forall k b w, objs (cb k b w) = objs w) ->
  forall o key w,
    underlying t = VObj o ->
    objs (trap_deleteProperty cb t key w) = objs (obj_delete o key w).
Proof.
  intros Hcb. induction t as [| | | | | | o' | | q t IH]; intros o key w Hu;
    simpl in Hu; try discriminate.
  - injection Hu as ->. simpl. by rewrite Hcb.
  - simpl. rewrite Hcb. by apply IH.
Qed.

(** The scheduling branch never touches the state objects. *)
Lemma objs_react_schedule b c a w : objs (react_schedule b c a w) = objs w.
Proof.
  unfold react_schedule.
  set (w1 := if b then _ else w).
  assert (H1 : objs w1 = objs w).
  { subst w1. destruct b; [|reflexivity]. unfold ledger_write.
    destruct (get_comp c _ ≫= own_changed_keys); simpl; by destruct (negb _). }
  destruct (get_comp c w1 ≫= _z); [exact H1|].
  unfold requestAnimationFrame. simpl. exact H1.
Qed.

Lemma objs_watch_callback e c k b w : objs (watch_callback e c k b w) = objs w.
Proof.
  unfold watch_callback, react. destruct (get_comp c w) as [cd|]; [|reflexivity].
  simpl. rewrite andb_false_r. apply objs_react_schedule.
Qed.

(** X2. A write through a wrapper, of a key other than [__proto__], followed
    by a read of the same key through a wrapper of the same object gives the
    written value back (as it is when the trap does not wrap it, behind a
    fresh proxy otherwise); after a delete, a read of a key that
    [Object.prototype] does not provide gives [undefined]. This holds for
    every callback that leaves the state objects alone, and the callback
    [react] registers is one. *)
Theorem watch_write_read_round_trip :
  forall (cb : string -> bool -> world -> world) t t' o key v w p p',
    (forall k b w, objs (cb k b w) = objs w) ->
    underlying t = VObj o ->
    underlying t' = VObj o ->
    (key <> proto_key ->
       underlying (fst (js_get (VProxy p' t') key (proxy_write cb (VProxy p t) key v w)))
         = underlying v
       /\ (wraps v key = false ->
           fst (js_get (VProxy p' t') key (proxy_write cb (VProxy p t) key v w)) = v))
    /\ (inherited_name key = false ->
        fst (js_get (VProxy p' t') key (proxy_delete cb (VProxy p t) key w)) = VUndef)
    /\ (forall e c k b w0, objs (watch_callback e c k b w0) = objs w0).
Proof.
  intros cb t t' o key v w p p' Hcb Hu Hu'.
  split; [|split; [|intros; apply objs_watch_callback]].
  - intros Hkey.
    set (w1 := proxy_write cb (VProxy p t) key v w).
    assert (Hr : obj_read o key w1 = v).
    { rewrite (obj_read_objs o key (obj_write o key v w) w1);
        [by apply obj_read_write_eq|].
      subst w1. cbn [proxy_write]. by apply trap_set_underlying. }
    assert (Hunw : wraps v key = false -> fst (js_get (VProxy p' t') key w1) = v).
    { intros Hw. cbn [js_get].
      rewrite (trap_get_unwrapped t' o key w1 Hu') by (by rewrite Hr).
      exact Hr. }
    split; [|exact Hunw].
    destruct (wraps v key) eqn:Hw; [|by rewrite Hunw].
    destruct (trap_get_wraps t' o key w1 Hu') as (q & d & Hg & _ & Hd & _);
      [by rewrite Hr|].
    cbn [js_get]. rewrite Hg. cbn [fst underlying]. by rewrite Hd, Hr.
  - intros _.
    set (w2 := proxy_delete cb (VProxy p t) key w).
    assert (Hr2 : obj_read o key w2 = VUndef).
    { rewrite (obj_read_objs o key (obj_delete o key w) w2); [apply obj_read_delete_eq|].
      subst w2. cbn [proxy_delete]. by apply trap_delete_underlying. }
    cbn [js_get]. rewrite (trap_get_unwrapped t' o key w2 Hu'); [exact Hr2|]. by rewrite Hr2.
Qed.

Lemma watch_write_read_round_trip_witness :
  fst (js_get (VProxy 1 (VObj 5)) "name"
         (proxy_write (watch_callback env_update_only 0) (VProxy 0 (VObj 5)) "name"
            (VStr "CalDom") world_idle)) = VStr "CalDom"
  /\ fst (js_get (VProxy 1 (VObj 5)) "name"
         (proxy_delete (watch_callback env_update_only 0) (VProxy 0 (VObj 5)) "name"
            world_idle)) = VUndef.
Proof.
  destruct (watch_write_read_round_trip (watch_callback env_update_only 0)
              (VObj 5) (VObj 5) 5 "name" (VStr "CalDom") world_idle 0 1)
    as (Hw & Hd & _).
  - intros. apply objs_watch_callback.
  - reflexivity.
  - reflexivity.
  - split; [apply Hw; [discriminate|reflexivity]|apply Hd; reflexivity].
Defined.

(** ** Splitting class names *)

Lemma string_app_cons a (r t : string) : (String a r ++ t)%string = String a (r ++ t)%string.
Proof. reflexivity. Qed.

Lemma string_app_nil_r (r : string) : (r ++ "")%string = r.
Proof. induction r as [|a r IH]; [reflexivity|]. by rewrite string_app_cons, IH. Qed.

Lemma string_app_cons_assoc (r : string) a t :
  ((r ++ String a "") ++ t)%string = (r ++ String a t)%string.
Proof. induction r as [|b r IH]; [reflexivity|]. by rewrite !string_app_cons, IH. Qed.

Lemma string_rev_app cur : forall acc, String.rev_app cur acc = (String.rev cur ++ acc)%string.
Proof.
  unfold String.rev. induction cur as [|a cur IH]; intros acc; [reflexivity|].
  cbn [String.rev_app]. rewrite (IH (String a acc)), (IH (String a "")).
  by rewrite string_app_cons_assoc.
Qed.

Lemma string_rev_cons a cur : String.rev (String a cur) = (String.rev cur ++ String a "")%string.
Proof. unfold String.rev at 1. cbn [String.rev_app]. apply string_rev_app. Qed.

Lemma concat_split_spaces_aux s :
  forall cur, String.concat " " (split_spaces_aux s cur) = (String.rev cur ++ s)%string.
Proof.
  induction s as [|ch s IH]; intros cur.
  - cbn [split_spaces_aux String.concat]. by rewrite string_app_nil_r.
  - cbn [split_spaces_aux]. destruct (Ascii.eqb ch " ") eqn:Hc.
    + apply Ascii.eqb_eq in Hc. subst ch.
      assert (Hne : exists x xs, split_spaces_aux s "" = x :: xs).
      { clear. generalize ""%string. induction s as [|a s IH]; intros cur; simpl; [eauto|].
        destruct (Ascii.eqb a " "); eauto. }
      destruct Hne as (x & xs & Hx).
      specialize (IH ""%string). rewrite Hx in *. cbn [String.concat].
      cbn [String.concat] in IH. rewrite IH. reflexivity.
    + rewrite IH, string_rev_cons. apply string_app_cons_assoc.
Qed.

Lemma list_ascii_of_string_app (r t : string) :
  list_ascii_of_string (r ++ t)%string = list_ascii_of_string r ++ list_ascii_of_string t.
Proof.
  induction r as [|b r IHr]; [reflexivity|]. rewrite string_app_cons. simpl. by rewrite IHr.
Qed.

Lemma split_spaces_aux_no_space s :
  forall cur,
    (forall x, x ∈ list_ascii_of_string cur -> x <> " "%char) ->
    Forall (fun piece => forall x, x ∈ list_ascii_of_string piece -> x <> " "%char)
           (split_spaces_aux s cur).
Proof.
  assert (Hrev : forall cur x, x ∈ list_ascii_of_string (String.rev cur) ->
                               x ∈ list_ascii_of_string cur).
  { induction cur as [|a cur IH]; intros x; [done|]. rewrite string_rev_cons.
    rewrite list_ascii_of_string_app. simpl.
    rewrite elem_of_app, !elem_of_cons.
    intros [H|[->|H]]; [right; by apply IH|by left|by apply elem_of_nil in H]. }
  induction s as [|ch s IH]; intros cur Hcur; cbn [split_spaces_aux].
  - constructor; [|constructor]. intros x Hx. apply Hcur. by apply Hrev.
  - destruct (Ascii.eqb ch " ") eqn:Hc.
    + constructor.
      * intros x Hx. apply Hcur. by apply Hrev.
      * apply IH. intros x Hx. simpl in Hx. by apply elem_of_nil in Hx.
    + apply IH. intros x Hx. simpl in Hx. apply elem_of_cons in Hx as [->|Hx]; [|by apply Hcur].
      intros ->. by rewrite Ascii.eqb_refl in Hc.
Qed.

(** X3. [_getSpaceSeparatedArray] loses nothing of a string of class names:
    joining the pieces with single spaces gives the string back, and no
    piece contains a space. An array argument is passed on as it is. *)
Theorem getSpaceSeparatedArray_round_trip :
  forall s : string,
    String.concat " " (_getSpaceSeparatedArray (Single s)) = s
    /\ Forall (fun piece => forall x, x ∈ list_ascii_of_string piece -> x <> " "%char)
              (_getSpaceSeparatedArray (Single s))
    /\ forall l, _getSpaceSeparatedArray (Array l) = l.
Proof.
  intros s. cbn [_getSpaceSeparatedArray]. split; [|split; [|reflexivity]].
  - apply (concat_split_spaces_aux s "").
  - apply split_spaces_aux_no_space. intros x Hx. by apply elem_of_nil in Hx.
Qed.

(** ** each: stopping at the first [false] *)

Lemma each_loop_stops (cb : each_callback) x post :
  forall pre i w,
    (forall w', exists w'', cb (Some x) (i + length pre) w' = Ok true w'') ->
    each_loop cb (pre ++ x :: post) i w = each_loop cb (pre ++ [x]) i w.
Proof.
  induction pre as [|y pre IH]; intros i w Hx.
  - cbn [app each_loop]. destruct (Hx w) as [w'' Hw]. rewrite Nat.add_0_r in Hw.
    rewrite Hw. reflexivity.
  - cbn [app each_loop]. destruct (cb (Some y) i w) as [b w1| |]; cbn [bind]; try reflexivity.
    destruct b; [reflexivity|]. apply IH. intros w'. destruct (Hx w') as [w'' Hw].
    exists w''. rewrite <- Hw. f_equal. simpl. lia.
Qed.

(** X4. On an iterating instance, [each] stops after the first element whose
    callback returns [false]: the elements behind it are never visited. *)
Theorem each_stops_at_false :
  forall c (cb : each_callback) pre x post w cd,
    get_comp c w = Some cd ->
    multiple cd = true ->
    elems cd = pre ++ x :: post ->
    (forall w', exists w'', cb (Some x) (length pre) w' = Ok true w'') ->
    each c cb w = each_loop cb (pre ++ [x]) 0 w.
Proof.
  intros c cb pre x post w cd Hcd Hm He Hx.
  rewrite (each_fits c w cd Hcd (or_introl Hm)), He. by apply each_loop_stops.
Qed.

(** ** Mounting once *)

Lemma upd_comp_id c f w cd :
  get_comp c w = Some cd -> f cd = cd -> upd_comp c f w = w.
Proof.
  intros Hc Hf. unfold upd_comp, set_comps.
  rewrite (alter_id f (comps w) c); [by destruct w|].
  intros y Hy. unfold get_comp in Hc. congruence.
Qed.

(** X5. [_didMount] calls the [didMount] hook on the first mount only: a second
    call changes nothing at all, and after [_didUnmount] the next call
    signals again. *)
Theorem didMount_signals_once :
  forall c w cd dr,
    get_comp c w = Some cd ->
    _didMount c (_didMount c w) = _didMount c w
    /\ log (_didMount c (_didUnmount c dr (_didMount c w)))
         = log (_didUnmount c dr (_didMount c w))
             ++ hook_events has_didMount DidMount c None w.
Proof.
  intros c w cd dr Hcd.
  assert (Hm : exists cd', get_comp c (_didMount c w) = Some cd' /\ _mounted cd' = true).
  { unfold _didMount. rewrite Hcd. exists (with_mounted true cd).
    split; [|by destruct cd].
    destruct (negb (_mounted cd)); unfold get_comp;
      rewrite ?comps_call_hook; fold (get_comp c (upd_comp c (with_mounted true) w));
      by rewrite get_comp_upd_comp, Hcd. }
  destruct Hm as (cd' & Hcd' & Hmt). split.
  - unfold _didMount at 1. rewrite Hcd', Hmt. cbn [negb].
    apply (upd_comp_id c _ _ cd' Hcd'). destruct cd'. simpl in Hmt. by subst.
  - set (w1 := _didMount c w) in *. set (w2 := _didUnmount c dr w1).
    assert (H2 : get_comp c w2 = Some (with_mounted false cd')).
    { subst w2. unfold _didUnmount, get_comp. rewrite comps_call_hook.
      fold (get_comp c (upd_comp c (with_mounted false) w1)).
      by rewrite get_comp_upd_comp, Hcd'. }
    unfold _didMount at 1. rewrite H2.
    replace (_mounted (with_mounted false cd')) with false by (by destruct cd').
    cbn [negb]. rewrite log_call_hook. f_equal.
    rewrite hook_events_upd_comp by (intros x; by destruct x).
    unfold hook_events. rewrite H2, Hcd.
    replace (has_didMount (with_mounted false cd')) with (has_didMount cd); [done|].
    assert (E : Some cd' = Some (with_mounted true cd)).
    { rewrite <- Hcd'. subst w1. unfold _didMount. rewrite Hcd.
      destruct (negb (_mounted cd)); unfold get_comp;
        rewrite ?comps_call_hook; fold (get_comp c (upd_comp c (with_mounted true) w));
        by rewrite get_comp_upd_comp, Hcd. }
    injection E as ->. by destruct cd.
Qed.

Lemma each_stops_at_false_witness :
  each 9 (fun elem i w => Ok (bool_decide (elem = Some 1)) (emit (EvSetProp (default 0 elem) "seen") w))
       world_two
    = each_loop (fun elem i w => Ok (bool_decide (elem = Some 1)) (emit (EvSetProp (default 0 elem) "seen") w))
        ([] ++ [1]) 0 world_two.
Proof.
  assert (H : exists cd, get_comp 9 world_two = Some cd /\ multiple cd = true
                         /\ elems cd = [] ++ 1 :: tail (elems cd)).
  { eexists. split; [vm_compute; reflexivity|]. split; vm_compute; reflexivity. }
  destruct H as (cd & H1 & H2 & H3).
  apply (each_stops_at_false 9 _ [] 1 (tail (elems cd)) world_two cd H1 H2 H3).
  intros w'. eexists. reflexivity.
Defined.

Lemma didMount_signals_once_witness :
  _didMount 0 (_didMount 0 world_idle) = _didMount 0 world_idle.
Proof.
  exact (proj1 (didMount_signals_once 0 world_idle idle_component None eq_refl)).
Defined.

(** ** Attribute synchronisation *)

Lemma assoc_set_eq k v l : assoc k (assoc_set k v l) = Some v.
Proof.
  induction l as [|[k' v'] l IH]; simpl; [by rewrite String.eqb_refl|].
  destruct (String.eqb k k') eqn:E; simpl; [by rewrite String.eqb_refl|by rewrite E].
Qed.

Lemma assoc_set_ne k k' v l : k <> k' -> assoc k' (assoc_set k v l) = assoc k' l.
Proof.
  intros Hne. induction l as [|[k2 v2] l IH]; simpl.
  - destruct (String.eqb k' k) eqn:E; [apply String.eqb_eq in E; congruence|done].
  - destruct (String.eqb k k2) eqn:E; simpl.
    + apply String.eqb_eq in E. subst k2.
      destruct (String.eqb k' k) eqn:E'; [apply String.eqb_eq in E'; congruence|done].
    + destruct (String.eqb k' k2); [done|exact IH].
Qed.

Lemma assoc_remove_ne k k' l : k <> k' -> assoc k' (assoc_remove k l) = assoc k' l.
Proof.
  intros Hne. induction l as [|[k2 v2] l IH]; simpl; [done|].
  destruct (String.eqb k k2) eqn:E; simpl.
  - apply String.eqb_eq in E. subst k2.
    destruct (String.eqb k' k) eqn:E'; [apply String.eqb_eq in E'; congruence|done].
  - destruct (String.eqb k' k2); [done|exact IH].
Qed.

Lemma assoc_None_notin k l : assoc k l = None <-> k ∉ l.*1.
Proof.
  induction l as [|[k2 v2] l IH]; simpl; [split; [intros _; apply not_elem_of_nil|done]|].
  rewrite not_elem_of_cons. destruct (String.eqb k k2) eqn:E.
  - apply String.eqb_eq in E. split; [done|]. intros [H _]. by destruct H.
  - apply String.eqb_neq in E. rewrite IH. tauto.
Qed.

Lemma assoc_remove_eq k l : NoDup l.*1 -> assoc k (assoc_remove k l) = None.
Proof.
  induction l as [|[k2 v2] l IH]; simpl; [done|]. intros Hnd.
  apply NoDup_cons in Hnd as [Hk Hnd]. destruct (String.eqb k k2) eqn:E; simpl.
  - apply String.eqb_eq in E. subst k2. by apply assoc_None_notin.
  - rewrite E. by apply IH.
Qed.

Lemma assoc_set_keys k v l :
  forall x, x ∈ (assoc_set k v l).*1 <-> x = k \/ x ∈ l.*1.
Proof.
  induction l as [|[k2 v2] l IH]; intros x; simpl.
  - rewrite list_elem_of_singleton. split; [tauto|]. intros [H|H]; [done|by apply elem_of_nil in H].
  - destruct (String.eqb k k2) eqn:E; simpl; rewrite !elem_of_cons.
    + apply String.eqb_eq in E. subst k2. tauto.
    + rewrite IH. tauto.
Qed.

Lemma assoc_set_NoDup k v l : NoDup l.*1 -> NoDup (assoc_set k v l).*1.
Proof.
  induction l as [|[k2 v2] l IH]; simpl; intros Hnd.
  - apply NoDup_singleton.
  - apply NoDup_cons in Hnd as [Hk Hnd]. destruct (String.eqb k k2) eqn:E; simpl.
    + apply String.eqb_eq in E. subst k2. by apply NoDup_cons.
    + apply String.eqb_neq in E. apply NoDup_cons. split; [|by apply IH].
      rewrite assoc_set_keys. intros [H|H]; [congruence|done].
Qed.

Lemma assoc_remove_NoDup k l : NoDup l.*1 -> NoDup (assoc_remove k l).*1.
Proof.
  induction l as [|[k2 v2] l IH]; simpl; intros Hnd; [done|].
  apply NoDup_cons in Hnd as [Hk Hnd]. destruct (String.eqb k k2) eqn:E; simpl; [done|].
  apply NoDup_cons. split; [|by apply IH].
  intros Hin. apply Hk. clear -Hin. induction l as [|[k3 v3] l IH]; simpl in *; [done|].
  destruct (String.eqb k k3); simpl in *; rewrite ?elem_of_cons in *; [by right|].
  destruct Hin as [->|H]; [by left|right; by apply IH].
Qed.

(** The writing loop, seen on the attribute list of the live node. *)
Lemma sync_attributes_write_loop o (attrs : list (string * string)) :
  forall w L,
    attributes <$> nodes w !! o = Some L ->
    let w1 := foldl (fun acc kv =>
                if bool_decide ((nodes acc !! o ≫= fun od => getAttribute od (fst kv)) = Some (snd kv))
                then acc else host_setAttribute o (fst kv) (snd kv) acc) w attrs in
    attributes <$> nodes w1 !! o
      = Some (foldl (fun l kv => if bool_decide (assoc (fst kv) l = Some (snd kv)) then l
                                 else assoc_set (fst kv) (snd kv) l) L attrs)
    /\ forall m, m <> o -> nodes w1 !! m = nodes w !! m.
Proof.
  induction attrs as [|[k v] attrs IH]; intros w L HL; [by split|].
  cbn [foldl fst snd].
  assert (Hc : (nodes w !! o ≫= fun od => getAttribute od k) = assoc k L).
  { destruct (nodes w !! o) as [od|]; [|done]. simpl in *. injection HL as <-. done. }
  rewrite Hc. destruct (bool_decide (assoc k L = Some v)); [by apply IH|].
  destruct (IH (host_setAttribute o k v w) (assoc_set k v L)) as [H1 H2].
  { unfold host_setAttribute. cbn [nodes emit]. rewrite nodes_upd_eq.
    destruct (nodes w !! o) as [od|]; [|done]. simpl in *. injection HL as <-. by destruct od. }
  split; [exact H1|]. intros m Hm. rewrite (H2 m Hm).
  unfold host_setAttribute. cbn [nodes emit]. by rewrite nodes_upd_ne.
Qed.

(** The removing loop, seen on the attribute list of the live node. *)
Lemma sync_attributes_remove_loop o (nd : node) (snapshot : list (string * string)) :
  forall w L,
    attributes <$> nodes w !! o = Some L ->
    let w1 := foldl (fun acc kv => if hasAttribute nd (fst kv) then acc
                                   else host_removeAttribute o (fst kv) acc) w snapshot in
    attributes <$> nodes w1 !! o
      = Some (foldl (fun l kv => if hasAttribute nd (fst kv) then l
                                 else assoc_remove (fst kv) l) L snapshot)
    /\ forall m, m <> o -> nodes w1 !! m = nodes w !! m.
Proof.
  induction snapshot as [|[k v] snapshot IH]; intros w L HL; [by split|].
  cbn [foldl fst snd]. destruct (hasAttribute nd k); [by apply IH|].
  destruct (IH (host_removeAttribute o k w) (assoc_remove k L)) as [H1 H2].
  { unfold host_removeAttribute. cbn [nodes emit]. rewrite nodes_upd_eq.
    destruct (nodes w !! o) as [od|]; [|done]. simpl in *. injection HL as <-. by destruct od. }
  split; [exact H1|]. intros m Hm. rewrite (H2 m Hm).
  unfold host_removeAttribute. cbn [nodes emit]. by rewrite nodes_upd_ne.
Qed.

Lemma write_loop_assoc (attrs : list (string * string)) :
  NoDup attrs.*1 ->
  forall L k,
    assoc k (foldl (fun l kv => if bool_decide (assoc (fst kv) l = Some (snd kv)) then l
                                else assoc_set (fst kv) (snd kv) l) L attrs)
      = match assoc k attrs with Some v => Some v | None => assoc k L end.
Proof.
  induction attrs as [|[k' v'] attrs IH]; intros Hnd L k; [done|].
  rewrite fmap_cons in Hnd. cbn [fst] in Hnd. apply NoDup_cons in Hnd as [Hk Hnd]. cbn [foldl fst snd assoc]. rewrite (IH Hnd).
  destruct (String.eqb k k') eqn:E.
  - apply String.eqb_eq in E. subst k'.
    apply assoc_None_notin in Hk. rewrite Hk.
    case_bool_decide as Hb; [done|apply assoc_set_eq].
  - apply String.eqb_neq in E. destruct (assoc k attrs); [done|].
    case_bool_decide; [done|]. apply assoc_set_ne. congruence.
Qed.

Lemma write_loop_NoDup (attrs : list (string * string)) :
  forall L, NoDup L.*1 ->
    NoDup (foldl (fun l kv => if bool_decide (assoc (fst kv) l = Some (snd kv)) then l
                              else assoc_set (fst kv) (snd kv) l) L attrs).*1.
Proof.
  induction attrs as [|[k' v'] attrs IH]; intros L Hnd; [done|].
  cbn [foldl fst snd]. apply IH. case_bool_decide; [done|by apply assoc_set_NoDup].
Qed.

Lemma remove_loop_assoc (keep : string -> bool) (snapshot : list (string * string)) :
  forall L k,
    NoDup L.*1 ->
    (keep k = true \/ k ∈ snapshot.*1 \/ assoc k L = None) ->
    assoc k (foldl (fun l kv => if keep (fst kv) then l else assoc_remove (fst kv) l) L snapshot)
      = if keep k then assoc k L else None.
Proof.
  induction snapshot as [|[k' v'] snapshot IH]; intros L k Hnd Hk.
  - cbn [foldl]. destruct (keep k); [done|].
    destruct Hk as [?|[H|H]]; [done|by apply elem_of_nil in H|done].
  - cbn [foldl fst snd]. destruct (keep k') eqn:Hk'.
    + apply IH; [done|]. destruct Hk as [?|[H|?]]; [by left| |by right; right].
      simpl in H. apply elem_of_cons in H as [->|H]; [by left|by right; left].
    + destruct (decide (k = k')) as [->|Hne].
      * rewrite IH; [|by apply assoc_remove_NoDup|right; right; by apply assoc_remove_eq].
        rewrite Hk'. done.
      * rewrite IH; [|by apply assoc_remove_NoDup|].
        -- rewrite assoc_remove_ne by congruence. done.
        -- destruct Hk as [?|[H|H]]; [by left| |].
           ++ simpl in H. apply elem_of_cons in H as [?|H]; [done|by right; left].
           ++ right; right. rewrite assoc_remove_ne by congruence. done.
Qed.

(** The two loops together: the live node ends up with the candidate's
    attributes, whatever their order. *)
Lemma sync_attributes_getAttribute n o w nd od :
  nodes w !! n = Some nd ->
  nodes w !! o = Some od ->
  n <> o ->
  NoDup (attributes nd).*1 ->
  NoDup (attributes od).*1 ->
  (forall k, (nodes (sync_attributes n o w) !! o ≫= fun x => getAttribute x k)
             = getAttribute nd k)
  /\ (forall m, m <> o -> nodes (sync_attributes n o w) !! m = nodes w !! m).
Proof.
  intros Hn Ho Hne Hndn Hndo. unfold sync_attributes. rewrite Hn.
  assert (HL : attributes <$> nodes w !! o = Some (attributes od)) by (by rewrite Ho).
  destruct (sync_attributes_write_loop o (attributes nd) w (attributes od) HL) as [H1 H1'].
  set (w1 := foldl _ w (attributes nd)) in *.
  set (L1 := foldl _ (attributes od) (attributes nd)) in *.
  rewrite H1. cbn [default]. unfold id.
  destruct (sync_attributes_remove_loop o nd L1 w1 L1 H1) as [H2 H2'].
  set (w2 := foldl _ w1 L1) in *.
  set (L2 := foldl _ L1 L1) in *.
  split.
  - intros k.
    assert (E : (nodes w2 !! o ≫= fun x => getAttribute x k) = assoc k L2).
    { destruct (nodes w2 !! o) as [x|]; [|done]. simpl in *. by injection H2 as <-. }
    rewrite E. subst L2.
    assert (Hnd1 : NoDup L1.*1) by (by apply write_loop_NoDup).
    assert (HL1 : assoc k L1 = match assoc k (attributes nd) with
                               | Some v => Some v | None => assoc k (attributes od) end)
      by (by apply write_loop_assoc).
    rewrite (remove_loop_assoc (hasAttribute nd)); [| done |].
    + unfold hasAttribute, getAttribute. rewrite HL1.
      destruct (assoc k (attributes nd)) as [v|] eqn:Ea.
      * rewrite bool_decide_eq_true_2; [done|by eexists].
      * rewrite bool_decide_eq_false_2; [done|]. by intros [? ?].
    + destruct (assoc k L1) eqn:Ek; [|by right; right]. right; left.
      destruct (decide (k ∈ L1.*1)) as [?|Hn']; [done|].
      apply assoc_None_notin in Hn'. congruence.
  - intros m Hm. rewrite (H2' m Hm). by apply H1'.
Qed.

(** X6. After [sync_attributes] the live node answers [getAttribute] exactly as
    the candidate does, for every name; the candidate and all other nodes
    are left as they were. Attribute names are unique within a node. *)
Theorem sync_attributes_agree :
  forall n o w nd od,
    nodes w !! n = Some nd ->
    nodes w !! o = Some od ->
    n <> o ->
    NoDup (attributes nd).*1 ->
    NoDup (attributes od).*1 ->
    (forall k, (nodes (sync_attributes n o w) !! o ≫= fun x => getAttribute x k)
               = getAttribute nd k)
    /\ (forall m, m <> o -> nodes (sync_attributes n o w) !! m = nodes w !! m).
Proof.
  intros n o w nd od. apply sync_attributes_getAttribute.
Qed.

Lemma sync_attributes_agree_witness :
  (nodes (sync_attributes 2 1
            (world_of [(1, mk_element "DIV" [("id", "a"); ("class", "x")] [] None);
                       (2, mk_element "DIV" [("class", "b"); ("title", "t")] [] None)] []))
     !! 1 ≫= fun x => getAttribute x "id")
  = getAttribute (mk_element "DIV" [("class", "b"); ("title", "t")] [] None) "id".
Proof.
  refine (proj1 (sync_attributes_agree 2 1 _ _
                   (mk_element "DIV" [("id", "a"); ("class", "x")] [] None) _ _ _ _ _) "id").
  - vm_compute. reflexivity.
  - vm_compute. reflexivity.
  - lia.
  - apply (bool_decide_unpack _). vm_compute. reflexivity.
  - apply (bool_decide_unpack _). vm_compute. reflexivity.
Defined.

(** ** The soft path on a pair of childless elements *)














(** The host refuses a candidate that contains the parent of the live
    node: the hard path then ends in an exception, and nothing is swapped. *)
Example hard_replace_refuses_ancestor :
  let w := world_of [(100, mk_document [1]);
                     (1, mk_element "DIV" [] [2] (Some 100));
                     (2, mk_element "SPAN" [] [] (Some 1))] [] in
  _replace (Some 1) (Some 2) 1 w = Throw w.
Proof. vm_compute. reflexivity. Qed.

(** ** A pass on an instance that is neither mounted nor connected *)

Lemma isConnected_fuel_nodes fuel : forall n w w',
  nodes w' = nodes w -> isConnected_fuel fuel n w' = isConnected_fuel fuel n w.
Proof.
  induction fuel as [|fuel IH]; intros n w w' H; [reflexivity|].
  cbn [isConnected_fuel]. rewrite H. destruct (nodes w !! n) as [nd|]; [|reflexivity].
  destruct (kind nd); try reflexivity; destruct (parentNode nd); try reflexivity; by apply IH.
Qed.

Lemma isNodeConnected_nodes n w w' :
  nodes w' = nodes w -> _isNodeConnected n w' = _isNodeConnected n w.
Proof. intros H. unfold _isNodeConnected. rewrite H. by apply isConnected_fuel_nodes. Qed.

Lemma react_pass_detached e c a w cd :
  get_comp c w = Some cd ->
  _mounted cd = false ->
  a_mounting a = false ->
  (forall n, head (elems cd) = Some n -> _isNodeConnected n w = false) ->
  react_pass e c a w = Ok e (upd_comp c (with_z None) w).
Proof.
  intros Hcd Hm Ha Hn. unfold react_pass. rewrite get_comp_upd_comp, Hcd. cbn [fmap option_fmap option_map].
  replace (_mounted (with_z None cd)) with false by (by destruct cd).
  replace (elems (with_z None cd)) with (elems cd) by (by destruct cd).
  rewrite Ha. cbn [negb andb].
  destruct (head (elems cd)) as [n|] eqn:Hh; [|reflexivity].
  rewrite (isNodeConnected_nodes n w (upd_comp c (with_z None) w) eq_refl), (Hn n eq_refl).
  reflexivity.
Qed.

(** X7. The frame callback of an instance that is not mounted and whose first
    element is missing or outside the document gives up after clearing the
    pending handle: whatever [render] and [update] are, none is called, the
    ledger and the change count stay, nothing is logged. *)
Theorem react_frame_detached_gives_up :
  forall e c w cd,
    get_comp c w = Some cd ->
    _mounted cd = false ->
    (forall n, head (elems cd) = Some n -> _isNodeConnected n w = false) ->
    react e c args_frame w = Ok e (pass_world c w)
    /\ (_z <$> get_comp c (pass_world c w)) = Some None
    /\ changed_keys c (pass_world c w) = changed_keys c w
    /\ change_count c (pass_world c w) = change_count c w
    /\ log (pass_world c w) = log w
    /\ nodes (pass_world c w) = nodes w.
Proof.
  intros e c w cd Hcd Hm Hn.
  split; [|split; [|split; [apply changed_keys_pass_world
                           |split; [apply change_count_pass_world|]]]].
  - rewrite (react_frame_eq e c w cd Hcd). unfold pass_world.
    destruct (has_Proxy w).
    + by apply (react_pass_detached e c args_frame w cd).
    + apply (react_pass_detached e c args_frame _ (with_watched (Some false) cd)).
      * by rewrite get_comp_upd_comp, Hcd.
      * by destruct cd.
      * reflexivity.
      * intros n Hh.
        rewrite (isNodeConnected_nodes n w (upd_comp c (with_watched (Some false)) w) eq_refl).
        apply Hn.
        by destruct cd.
  - unfold pass_world. rewrite get_comp_upd_comp.
    destruct (has_Proxy w); [by rewrite Hcd|]. by rewrite get_comp_upd_comp, Hcd.
  - unfold pass_world. by destruct (has_Proxy w).
Qed.

(** ** react(state, config): how the state is stored *)

(** X8. On an instance without elements that is not mounted, [react(state,
    config)] copies the config onto the instance and stores the state: as
    it is when watching is switched off (by [watched: false], or by a host
    without Proxy, in which case [watched] is forced to [false]), behind a
    new proxy otherwise. A primitive state that is to be watched makes
    [new Proxy] raise. No pass follows and nothing is scheduled. *)
Theorem react_stores_state :
  forall e c st cfg w cd,
    get_comp c w = Some cd ->
    _mounted cd = false ->
    elems cd = [] ->
    not_nullish st = true ->
    let opted_out :=
      bool_decide (default (watched cd) (cfg_watched cfg) = Some false) || negb (has_Proxy w) in
    let primitive := match st with VBool _ | VNum _ | VStr _ => true | _ => false end in
    if negb opted_out && primitive then
      exists w', react e c (args_init st (Some cfg)) w = Throw w'
    else
      exists e1 w1,
        react e c (args_init st (Some cfg)) w = Ok e1 w1
        /\ callbacks_of e1 c = merge_config_env cfg (callbacks_of e c)
        /\ (state <$> get_comp c w1)
             = Some (if opted_out then st else VProxy (next_proxy w) st)
        /\ (has_Proxy w = false -> (watched <$> get_comp c w1) = Some (Some false))
        /\ frames w1 = frames w /\ log w1 = log w.
Proof.
  intros e c st cfg w cd Hcd Hm He Hst opted_out primitive.
  unfold react. rewrite Hcd. cbn [args_init a_argc a_is_watched_updated a_mounting
    a_is_request_animation_frame Nat.eqb andb orb negb]. rewrite andb_false_r.
  unfold react_configure. cbn [args_init a_config a_state]. rewrite Hst.
  set (w1 := upd_comp c (merge_config_comp cfg) w).
  assert (Hp : has_Proxy w1 = has_Proxy w) by reflexivity.
  assert (H1 : get_comp c w1 = Some (merge_config_comp cfg cd))
    by (subst w1; by rewrite get_comp_upd_comp, Hcd).
  set (w2 := if has_Proxy w1 then w1 else upd_comp c (with_watched (Some false)) w1).
  assert (H2 : exists cd2, get_comp c w2 = Some cd2 /\ _mounted cd2 = false /\ elems cd2 = []
             /\ watched cd2 = (if has_Proxy w then default (watched cd) (cfg_watched cfg)
                               else Some false)
             /\ frames w2 = frames w /\ log w2 = log w /\ next_proxy w2 = next_proxy w
             /\ has_Proxy w2 = has_Proxy w).
  { subst w2. rewrite Hp. destruct (has_Proxy w).
    - exists (merge_config_comp cfg cd). by repeat split.
    - exists (with_watched (Some false) (merge_config_comp cfg cd)).
      rewrite get_comp_upd_comp, H1. by repeat split. }
  destruct H2 as (cd2 & H2 & Hm2 & He2 & Hw2 & Hf2 & Hl2 & Hn2 & Hp2).
  assert (Hpass : forall e1 w3 cd3,
            get_comp c w3 = Some cd3 -> _mounted cd3 = false -> elems cd3 = [] ->
            react_pass e1 c (args_init st (Some cfg)) w3 = Ok e1 (upd_comp c (with_z None) w3)).
  { intros e1 w3 cd3 H3 Hm3 He3.
    apply (react_pass_detached e1 c (args_init st (Some cfg)) w3 cd3 H3 Hm3 eq_refl).
    rewrite He3. discriminate. }
  assert (Hcb : callbacks_of (<[c := merge_config_env cfg (callbacks_of e c)]> e) c
                = merge_config_env cfg (callbacks_of e c)).
  { unfold callbacks_of at 1. by rewrite lookup_insert_eq. }
  rewrite H2. cbn [mbind option_bind]. rewrite Hw2.
  assert (Ho : opted_out = bool_decide ((if has_Proxy w then default (watched cd) (cfg_watched cfg)
                                         else Some false) = Some false)).
  { subst opted_out. destruct (has_Proxy w); cbn [negb]; [by rewrite orb_false_r|].
    by rewrite orb_true_r. }
  rewrite <- Ho. destruct opted_out; cbn [negb andb].
  - cbn [bind]. rewrite (Hpass _ _ (with_state st cd2)); [| |by destruct cd2|by destruct cd2].
    2:{ by rewrite get_comp_upd_comp, H2. }
    eexists _, _. split; [reflexivity|].
    rewrite !get_comp_upd_comp, H2. split; [exact Hcb|]. split; [by destruct cd2|].
    split; [|by split]. intros Hnp. rewrite Hnp in Hw2. destruct cd2; simpl in *. by subst.
  - assert (Hwatch : bind (let '(p, w3) := watch st w2 in
                           Ok (<[c := merge_config_env cfg (callbacks_of e c)]> e)
                              (upd_comp c (with_state p) w3))
                       (fun e1 w1 => react_pass e1 c (args_init st (Some cfg)) w1)
              = Ok (<[c := merge_config_env cfg (callbacks_of e c)]> e)
                   (upd_comp c (with_z None)
                      (upd_comp c (with_state (VProxy (next_proxy w) st))
                         (set_next_proxy (S (next_proxy w2)) w2)))).
    { unfold watch, new_Proxy. cbn [bind]. rewrite Hn2.
      apply (Hpass _ _ (with_state (VProxy (next_proxy w) st) cd2));
        [|by destruct cd2|by destruct cd2].
      rewrite get_comp_upd_comp. unfold get_comp in *. cbn [comps set_next_proxy].
      by rewrite H2. }
    assert (Hres : exists e1 w1,
        Ok (<[c := merge_config_env cfg (callbacks_of e c)]> e)
           (upd_comp c (with_z None)
              (upd_comp c (with_state (VProxy (next_proxy w) st))
                 (set_next_proxy (S (next_proxy w2)) w2))) = Ok e1 w1
        /\ callbacks_of e1 c = merge_config_env cfg (callbacks_of e c)
        /\ (state <$> get_comp c w1) = Some (VProxy (next_proxy w) st)
        /\ (has_Proxy w = false -> (watched <$> get_comp c w1) = Some (Some false))
        /\ frames w1 = frames w /\ log w1 = log w).
    { eexists _, _. split; [reflexivity|].
      split; [exact Hcb|]. rewrite !get_comp_upd_comp. unfold get_comp in *.
      cbn [comps set_next_proxy]. rewrite H2. split; [by destruct cd2|].
      split; [|by split]. intros Hnp. rewrite Hnp in Hw2. destruct cd2; simpl in *. by subst. }
    subst primitive.
    destruct st; try (rewrite Hwatch; exact Hres); try discriminate; cbn [bind]; by eexists.
Qed.

Lemma react_frame_detached_gives_up_witness :
  react env_render_only 0 args_frame (world_with proto_component)
    = Ok env_render_only (pass_world 0 (world_with proto_component)).
Proof.
  refine (proj1 (react_frame_detached_gives_up env_render_only 0 (world_with proto_component)
                   proto_component _ eq_refl _)).
  - vm_compute. reflexivity.
  - intros n Hn. discriminate Hn.
Defined.

Lemma react_stores_state_witness :
  exists e1 w1,
    react ∅ 0 (args_init (VObj 5) (Some (Config None None None None None None None None)))
          (world_with proto_component) = Ok e1 w1
    /\ (state <$> get_comp 0 w1) = Some (VProxy 0 (VObj 5)).
Proof.
  assert (H0 : get_comp 0 (world_with proto_component) = Some proto_component)
    by (vm_compute; reflexivity).
  destruct (react_stores_state ∅ 0 (VObj 5) (Config None None None None None None None None)
              (world_with proto_component) proto_component H0 eq_refl eq_refl eq_refl)
    as (e1 & w1 & Ha & _ & Hb & _).
  exists e1, w1. split; [exact Ha|exact Hb].
Defined.

(** ** Reconciling a staged clone against its own original *)

Lemma sync_prop_self {A : Type} `{EqDecision A} name (get : node -> A) set x w :
  sync_prop name get set x x w = w.
Proof.
  unfold sync_prop. destruct (nodes w !! x); [|reflexivity].
  by rewrite bool_decide_eq_true_2.
Qed.

Lemma copyProps_own_self x w :
  is_Some (nodes w !! x) -> _copyProps_own (Some x) (Some x) w = Ok tt w.
Proof.
  intros [nd Hx]. unfold _copyProps_own. rewrite Hx.
  rewrite !sync_prop_self. by destruct (proto_has_value nd).
Qed.

Lemma copy_children_self l : forall w,
  Forall (fun x => is_Some (nodes w !! x)) l -> copy_children l l w = Ok tt w.
Proof.
  induction l as [|x l IH]; intros w Hl; [reflexivity|].
  apply Forall_cons in Hl as [Hx Hl]. cbn [copy_children head tail].
  rewrite (copyProps_own_self x w Hx). cbn [bind]. by apply IH.
Qed.

Lemma replace_original_root_self n0 o p w n0d :
  nodes w !! n0 = Some n0d ->
  _original_root n0d = Some o ->
  is_Some (nodes w !! o) ->
  isEqualNode w o o = true ->
  _replace (Some n0) (Some o) p w = Ok None w.
Proof.
  intros Hn0 Hor [od Ho] Heq.
  unfold _replace. cbn [_replace_fuel]. rewrite Hn0, Hor. cbn [default]. unfold id. rewrite Ho.
  assert (Hcp : _copyProps o o true w = Ok tt w).
  { unfold _copyProps. rewrite copyProps_own_self by (by rewrite Ho). cbn [bind].
    apply copy_children_self. apply Forall_forall. intros x Hx.
    unfold element_children in Hx. apply list_elem_of_filter in Hx as [Hx _].
    destruct (nodes w !! x); [by eexists|discriminate]. }
  destruct (soft_replacable od od).
  - unfold soft_replace. rewrite Heq. cbn [negb bind]. by rewrite Hcp.
  - unfold replace_whole. by rewrite Heq.
Qed.

(** X9. A staged clone stands for the node it was cloned from. When that node
    is the live node itself (a child component that was not rendered anew),
    [_replace] changes nothing and reports no replacement, whatever the
    clone looks like. *)
Theorem replace_staged_clone_of_live_node :
  forall n0 o p w n0d,
    nodes w !! n0 = Some n0d ->
    _original_root n0d = Some o ->
    is_Some (nodes w !! o) ->
    isEqualNode w o o = true ->
    _replace (Some n0) (Some o) p w = Ok None w.
Proof. intros n0 o p w n0d. apply replace_original_root_self. Qed.

Lemma replace_staged_clone_of_live_node_witness :
  _replace (Some 2) (Some 1) 100
    (upd 2 (with_original_root (Some 1)) world_div_span)
  = Ok None (upd 2 (with_original_root (Some 1)) world_div_span).
Proof.
  assert (H : exists n0d, nodes (upd 2 (with_original_root (Some 1)) world_div_span) !! 2 = Some n0d
                          /\ _original_root n0d = Some 1).
  { eexists. split; vm_compute; reflexivity. }
  destruct H as (n0d & H1 & H2).
  apply (replace_staged_clone_of_live_node 2 1 100 _ n0d H1 H2).
  - apply (bool_decide_unpack _). vm_compute. reflexivity.
  - vm_compute. reflexivity.
Defined.

(** ** remove() *)

Lemma hook_events_comps present hk c dr (w w' : world) :
  comps w' = comps w -> hook_events present hk c dr w' = hook_events present hk c dr w.
Proof. intros H. unfold hook_events, get_comp. by rewrite H. Qed.

Lemma elem_of_remove_child_ne y x l : y <> x -> y ∈ l -> y ∈ remove_child x l.
Proof.
  intros Hne. induction l as [|z l IH]; [done|]. cbn [remove_child].
  rewrite elem_of_cons. intros [->|Hy].
  - rewrite (proj2 (Nat.eqb_neq z x)) by congruence. by left.
  - destruct (Nat.eqb z x); [done|]. right. by apply IH.
Qed.

(** The loop of [remove()]: each element is taken out of its parent. *)
Lemma remove_loop l : forall i w,
  NoDup l ->
  (forall x, x ∈ l -> exists p, parent_of x w = Some p /\ x ∈ children_of p w) ->
  exists w',
    each_loop (fun elem _ w2 =>
                 match elem with
                 | Some n =>
                     match parent_of n w2 with
                     | Some p => bind (host_removeChild p n w2) (fun _ w3 => Ok false w3)
                     | None => Throw w2
                     end
                 | None => Throw w2
                 end) l i w = Ok tt w'
    /\ comps w' = comps w
    /\ log w' = log w ++ ((fun x => EvRemoveChild (default 0 (parent_of x w)) x) <$> l)
    /\ (forall x, x ∈ l -> parent_of x w' = None)
    /\ (forall y, y ∉ l -> parent_of y w' = parent_of y w).
Proof.
  induction l as [|x l IH]; intros i w Hnd Hp.
  - exists w. split; [reflexivity|]. split; [reflexivity|]. split; [by rewrite app_nil_r|].
    split; [intros x Hx; by apply elem_of_nil in Hx|done].
  - apply NoDup_cons in Hnd as [Hx Hnd].
    destruct (Hp x) as (p & Hpx & Hcx); [by left|].
    cbn [each_loop]. rewrite Hpx. unfold host_removeChild, is_child.
    rewrite bool_decide_eq_true_2 by exact Hcx. cbn [bind].
    set (w1 := emit (EvRemoveChild p x) _).
    assert (Hx_in : is_Some (nodes w !! x)).
    { unfold parent_of in Hpx. destruct (nodes w !! x); [by eexists|discriminate]. }
    assert (Hpar : forall y, y <> x -> parent_of y w1 = parent_of y w).
    { intros y Hy. subst w1. unfold parent_of. cbn [nodes emit].
      rewrite nodes_upd_ne by congruence. fold (parent_of y (upd p (fun nd =>
        with_childNodes (remove_child x (childNodes nd)) nd) w)).
      apply parent_of_upd_keep. intros z. by destruct z. }
    assert (Hparx : parent_of x w1 = None).
    { subst w1. unfold parent_of at 1. cbn [nodes emit]. fold (parent_of x (upd x (with_parentNode None)
        (upd p (fun nd => with_childNodes (remove_child x (childNodes nd)) nd) w))).
      apply parent_of_upd_eq. by apply is_Some_nodes_upd. }
    assert (Hch : forall y q, y <> x -> y ∈ children_of q w -> y ∈ children_of q w1).
    { intros y q Hy Hin. subst w1. unfold children_of at 1. cbn [nodes emit].
      fold (children_of q (upd x (with_parentNode None)
        (upd p (fun nd => with_childNodes (remove_child x (childNodes nd)) nd) w))).
      rewrite children_of_upd_keep by (intros z; by destruct z).
      destruct (decide (p = q)) as [->|Hpq].
      - rewrite children_of_upd_eq. unfold children_of in Hin.
        destruct (nodes w !! q) as [qd|]; [|done]. simpl in *.
        by apply elem_of_remove_child_ne.
      - unfold children_of. by rewrite nodes_upd_ne. }
    destruct (IH (S i) w1 Hnd) as (w' & Hrun & Hc & Hl & Hnone & Hkeep).
    { intros y Hy. assert (Hyx : y <> x) by (intros ->; done).
      destruct (Hp y) as (q & Hq & Hin); [by right|]. exists q.
      split; [by rewrite Hpar|by apply Hch]. }
    exists w'. split; [exact Hrun|]. split; [by rewrite Hc|]. split; [|split].
    + rewrite Hl. subst w1. cbn [log emit upd set_nodes]. rewrite fmap_cons, Hpx. cbn [default].
      rewrite <- app_assoc. cbn [app]. do 2 f_equal.
      apply list_fmap_ext. intros j y Hj. rewrite Hpar; [done|].
      intros ->. apply Hx. by apply list_elem_of_lookup_2 in Hj.
    + intros y Hy. apply elem_of_cons in Hy as [->|Hy]; [|by apply Hnone].
      rewrite Hkeep by done. exact Hparx.
    + intros y Hy. apply not_elem_of_cons in Hy as [Hyx Hy]. rewrite Hkeep by done.
      by apply Hpar.
Qed.

(** X10. [remove()] on an instance whose accessors fit its size and whose
    elements are distinct nodes, each a child of its parent: the unmount
    signals frame one [removeChild] per element, in order; afterwards every
    element is without a parent and the instance is empty, iterating and
    not mounted. *)
Theorem remove_detaches_every_element :
  forall c w cd,
    get_comp c w = Some cd ->
    mode_fits cd ->
    NoDup (elems cd) ->
    (forall x, x ∈ elems cd -> exists p, parent_of x w = Some p /\ x ∈ children_of p w) ->
    exists w' cd',
      remove c w = Ok tt w'
      /\ get_comp c w' = Some cd'
      /\ elems cd' = [] /\ multiple cd' = true /\ _mounted cd' = false
      /\ (forall x, x ∈ elems cd -> parent_of x w' = None)
      /\ log w' = log w
           ++ hook_events has_willUnmount WillUnmount c (Some true) w
           ++ ((fun x => EvRemoveChild (default 0 (parent_of x w)) x) <$> elems cd)
           ++ hook_events has_didUnmount DidUnmount c (Some true) w.
Proof.
  intros c w cd Hcd Hfit Hnd Hp. unfold remove.
  set (w1 := _willUnmount c (Some true) w).
  assert (Hc1 : comps w1 = comps w) by apply comps_call_hook.
  assert (Hn1 : nodes w1 = nodes w) by apply nodes_call_hook.
  assert (Hl1 : log w1 = log w ++ hook_events has_willUnmount WillUnmount c (Some true) w)
    by apply log_call_hook.
  assert (Hcd1 : get_comp c w1 = Some cd) by (unfold get_comp; by rewrite Hc1).
  rewrite (each_fits c w1 cd Hcd1 Hfit).
  destruct (remove_loop (elems cd) 0 w1 Hnd) as (w2 & Hrun & Hc2 & Hl2 & Hnone & _).
  { intros x Hx. destruct (Hp x Hx) as (p & H1 & H2). exists p.
    unfold parent_of, children_of in *. by rewrite Hn1. }
  rewrite Hrun. cbn [bind].
  set (w3 := upd_comp c (fun cd0 => _setMultipleMode (with_elems [] cd0)) w2).
  assert (Hcd2 : get_comp c w2 = Some cd) by (unfold get_comp; by rewrite Hc2, Hc1).
  exists (_didUnmount c (Some true) w3),
         (with_mounted false (_setMultipleMode (with_elems [] cd))).
  split; [reflexivity|]. split; [|split; [by destruct cd|split; [by destruct cd
    |split; [by destruct cd|split]]]].
  - unfold _didUnmount, get_comp. rewrite comps_call_hook.
    fold (get_comp c (upd_comp c (with_mounted false) w3)). subst w3.
    by rewrite !get_comp_upd_comp, Hcd2.
  - intros x Hx. unfold parent_of, _didUnmount. rewrite nodes_call_hook.
    cbn [nodes upd_comp set_comps]. by apply Hnone.
  - unfold _didUnmount. rewrite log_call_hook. subst w3.
    rewrite !hook_events_upd_comp by (intros z; by destruct z).
    rewrite (hook_events_comps _ _ _ _ w w2) by (by rewrite Hc2, Hc1).
    cbn [log upd_comp set_comps]. rewrite Hl2, Hl1. rewrite <- !app_assoc. do 2 f_equal.
    f_equal. apply list_fmap_ext. intros j y Hj. unfold parent_of. by rewrite Hn1.
Qed.

Lemma remove_detaches_every_element_witness :
  exists w', remove 7 world_abc = Ok tt w' /\ parent_of 13 w' = None.
Proof.
  assert (H0 : get_comp 7 world_abc = Some item_component) by (vm_compute; reflexivity).
  destruct (remove_detaches_every_element 7 world_abc item_component H0)
    as (w' & cd' & H1 & _ & _ & _ & _ & H6 & _).
  - right. reflexivity.
  - apply (bool_decide_unpack _). vm_compute. reflexivity.
  - intros x Hx. apply list_elem_of_singleton in Hx. subst x. exists 1.
    split; [vm_compute; reflexivity|]. apply (bool_decide_unpack _). vm_compute. reflexivity.
  - exists w'. split; [exact H1|]. apply H6. apply list_elem_of_singleton. reflexivity.
Defined.

(** X11. On an instance in single mode that has no element, [remove()] raises
    after the unmount-begin signal: the callback reads [parentNode] of
    [undefined]. *)
Theorem remove_without_element_raises :
  forall c w cd,
    get_comp c w = Some cd ->
    multiple cd = false ->
    elems cd = [] ->
    remove c w = Throw (_willUnmount c (Some true) w).
Proof.
  intros c w cd Hcd Hm He. unfold remove, each.
  assert (Hcd1 : get_comp c (_willUnmount c (Some true) w) = Some cd).
  { unfold get_comp, _willUnmount. by rewrite comps_call_hook. }
  rewrite (is_multiple_eq _ _ cd Hcd1), Hm. unfold _eachSingle. rewrite Hcd1.
  cbn [mbind option_bind]. rewrite He. reflexivity.
Qed.

Lemma remove_without_element_raises_witness :
  remove 0 (world_with proto_component) = Throw (_willUnmount 0 (Some true) (world_with proto_component)).
Proof.
  apply (remove_without_element_raises 0 (world_with proto_component) proto_component);
    [vm_compute; reflexivity|reflexivity|reflexivity].
Defined.


(** ** eq(index) *)

(** X12. [eq] counts a negative index from the end: on [n] elements, [eq(k - n)]
    is [eq(k)], an instance in single mode around the [k]-th element. An
    index outside the list gives an instance in single mode without any
    element. *)
Theorem caldom_eq_counts_from_the_end :
  forall q e c c' w cd,
    get_comp c w = Some cd ->
    (forall k x,
        elems cd !! k = Some x ->
        caldom_eq q e c c' (Z.of_nat k - Z.of_nat (length (elems cd))) w
          = caldom_eq q e c c' (Z.of_nat k) w
        /\ exists cd', get_comp c' (world_after w (caldom_eq q e c c' (Z.of_nat k) w)) = Some cd'
                       /\ elems cd' = [x] /\ multiple cd' = false)
    /\ (forall index,
          (Z.of_nat (length (elems cd)) <= index \/ index < - Z.of_nat (length (elems cd)))%Z ->
          exists cd', get_comp c' (world_after w (caldom_eq q e c c' index w)) = Some cd'
                      /\ elems cd' = [] /\ multiple cd' = false).
Proof.
  intros q e c c' w cd Hcd.
  assert (Hun : forall index,
            caldom_eq q e c c' index w
            = init q e c'
                (match (if ((if (index <? 0)%Z then (Z.of_nat (length (elems cd)) + index)%Z
                             else index) <? 0)%Z
                        then None
                        else elems cd !! Z.to_nat (if (index <? 0)%Z
                                                   then (Z.of_nat (length (elems cd)) + index)%Z
                                                   else index)) with
                 | Some n => ArgObject n
                 | None => ArgAbsent
                 end) None w).
  { intros index. unfold caldom_eq. by rewrite Hcd. }
  split.
  - intros k x Hk. pose proof (lookup_lt_Some _ _ _ Hk) as Hlt.
    assert (H1 : caldom_eq q e c c' (Z.of_nat k) w = init q e c' (ArgObject x) None w).
    { rewrite Hun. rewrite (proj2 (Z.ltb_ge (Z.of_nat k) 0)) by lia. cbv beta iota.
      rewrite (proj2 (Z.ltb_ge (Z.of_nat k) 0)) by lia. by rewrite Nat2Z.id, Hk. }
    split.
    + rewrite H1, Hun.
      rewrite (proj2 (Z.ltb_lt (Z.of_nat k - Z.of_nat (length (elems cd))) 0)) by lia.
      cbv beta iota.
      replace (Z.of_nat (length (elems cd)) + (Z.of_nat k - Z.of_nat (length (elems cd))))%Z
        with (Z.of_nat k) by lia.
      rewrite (proj2 (Z.ltb_ge (Z.of_nat k) 0)) by lia. by rewrite Nat2Z.id, Hk.
    + rewrite H1. destruct (init_found q e c' [x] w (ArgObject x)) as (cd' & H & He & Hm & _);
        [right; by exists x|]. exists cd'. by repeat split.
  - intros index Hout.
    assert (H1 : caldom_eq q e c c' index w = init q e c' ArgAbsent None w).
    { rewrite Hun. destruct (index <? 0)%Z eqn:E.
      - apply Z.ltb_lt in E.
        cbv beta iota.
        rewrite (proj2 (Z.ltb_lt (Z.of_nat (length (elems cd)) + index) 0)) by lia.
        reflexivity.
      - rewrite E. apply Z.ltb_ge in E. rewrite (lookup_ge_None_2 (elems cd)) by lia.
        reflexivity. }
    rewrite H1. exists proto_component. split; [|by split].
    unfold init. cbn [world_after]. unfold get_comp. cbn [comps set_comps].
    by rewrite lookup_insert_eq.
Qed.

Lemma caldom_eq_counts_from_the_end_witness :
  caldom_eq q_nothing ∅ 9 10 (Z.of_nat 1 - Z.of_nat 2) world_two
    = caldom_eq q_nothing ∅ 9 10 (Z.of_nat 1) world_two.
Proof.
  assert (H : exists cd, get_comp 9 world_two = Some cd /\ length (elems cd) = 2
                         /\ elems cd !! 1 = Some 3).
  { eexists. split; [vm_compute; reflexivity|]. split; vm_compute; reflexivity. }
  destruct H as (cd & H1 & H2 & H3).
  pose proof (proj1 (proj1 (caldom_eq_counts_from_the_end q_nothing ∅ 9 10 world_two cd H1)
                       1 3 H3)) as H.
  rewrite H2 in H. exact H.
Defined.

(** ** data(key, value) *)

Lemma comps_data_write key v n w u w' : data_write key v n w = Ok u w' -> comps w' = comps w.
Proof.
  unfold data_write, obj_write.
  destruct (nodes w !! n ≫= _data); intros [= _ <-]; by destruct (String.eqb key proto_key).
Qed.

Lemma data_write_holds key v y w :
  key <> proto_key ->
  is_Some (nodes w !! y) ->
  exists w',
    data_write key v y w = Ok tt w'
    /\ holds_data key v w' y
    /\ (forall x, holds_data key v w x -> holds_data key v w' x)
    /\ (forall x, is_Some (nodes w !! x) -> is_Some (nodes w' !! x)).
Proof.
  intros Hkey [yd Hy]. apply String.eqb_neq in Hkey.
  unfold data_write. destruct (nodes w !! y ≫= _data) as [d'|] eqn:Hd.
  - eexists. split; [reflexivity|]. unfold obj_write. rewrite Hkey. split; [|split].
    + exists d'. split; [exact Hd|]. unfold set_objs. cbn [objs].
      rewrite lookup_insert_eq. cbn [mbind option_bind]. apply lookup_insert_eq.
    + intros x (d & Hx & Hv). exists d. split; [exact Hx|].
      unfold set_objs. cbn [objs]. destruct (decide (d = d')) as [->|Hne].
      * rewrite lookup_insert_eq. cbn [mbind option_bind]. apply lookup_insert_eq.
      * by rewrite lookup_insert_ne.
    + done.
  - unfold new_object. set (o := fresh (dom (objs w))).
    assert (Ho : objs w !! o = None).
    { apply not_elem_of_dom. apply is_fresh. }
    eexists. split; [reflexivity|]. unfold obj_write. rewrite Hkey. split; [|split].
    + exists o. split.
      * cbn [nodes set_objs]. rewrite nodes_upd_eq. cbn [nodes set_objs].
        by rewrite Hy.
      * unfold set_objs. cbn [objs]. rewrite lookup_insert_eq.
        cbn [mbind option_bind]. apply lookup_insert_eq.
    + intros x (d & Hx & Hv). exists d.
      assert (Hxy : x <> y) by (intros ->; congruence).
      assert (Hdo : d <> o) by (intros ->; by rewrite Ho in Hv).
      split.
      * cbn [nodes set_objs]. rewrite nodes_upd_ne by congruence. exact Hx.
      * unfold set_objs, upd, set_nodes. cbn [objs].
        by rewrite !lookup_insert_ne by congruence.
    + intros x Hx. cbn [nodes set_objs]. by apply is_Some_nodes_upd.
Qed.

Lemma data_write_loop key v l : forall i w,
  key <> proto_key ->
  Forall (fun x => is_Some (nodes w !! x)) l ->
  exists w',
    for_each (fun n (_ : nat) => data_write key v n) l i w = Ok tt w'
    /\ comps w' = comps w
    /\ Forall (holds_data key v w') l
    /\ (forall x, holds_data key v w x -> holds_data key v w' x).
Proof.
  induction l as [|y l IH]; intros i w Hkey Hl.
  - exists w. by repeat split.
  - apply Forall_cons in Hl as [Hy Hl].
    destruct (data_write_holds key v y w Hkey Hy) as (w1 & H1 & Hh & Hk & Hn).
    destruct (IH (S i) w1 Hkey) as (w' & H2 & Hc & Hall & Hk').
    { eapply Forall_impl; [exact Hl|]. intros x. apply Hn. }
    exists w'. cbn [for_each]. rewrite H1. cbn [bind]. split; [exact H2|].
    split; [rewrite Hc; by apply comps_data_write in H1|].
    split; [apply Forall_cons; split; [by apply Hk'|exact Hall]|].
    intros x Hx. by apply Hk', Hk.
Qed.

(** X13. [data(key, v)], for a key other than [__proto__], followed by
    [data(key)] gives [v] back for every element. Only a value that is
    neither [null] nor [undefined] is written: with [null] or [undefined] as
    the value, [data] is a read (stated for the keys [Object.prototype]
    does not provide) and leaves the store as it is. *)
Theorem data_write_read_round_trip :
  forall c key v w cd,
    get_comp c w = Some cd ->
    mode_fits cd ->
    Forall (fun x => is_Some (nodes w !! x)) (elems cd) ->
    (not_nullish v = true -> key <> proto_key ->
       exists w1,
         data c key (Single v) w = Ok None w1
         /\ data c key (Single VUndef) w1 = Ok (Some ((fun _ => v) <$> elems cd)) w1)
    /\ (not_nullish v = false -> inherited_name key = false ->
       data c key (Single v) w = Ok (Some ((fun n => data_read key n w) <$> elems cd)) w).
Proof.
  intros c key v w cd Hcd Hfit Hin. split.
  - intros Hv Hkey. unfold data at 1. cbn [is_given]. rewrite Hv. cbn [negb].
    rewrite (each_fits c w cd Hcd Hfit). unfold each_do.
    rewrite (each_loop_never_false (fun elem i => on_elem (fun n => data_write key v n) elem)).
    destruct (data_write_loop key v (elems cd) 0 w Hkey Hin) as (w1 & Hrun & Hc & Hall & _).
    exists w1.
    change (for_each _ (elems cd) 0 w)
      with (for_each (fun n (_ : nat) => data_write key v n) (elems cd) 0 w).
    rewrite Hrun. cbn [bind].
    split; [reflexivity|].
    assert (Hcd1 : get_comp c w1 = Some cd) by (unfold get_comp; by rewrite Hc).
    unfold data. cbn [is_given not_nullish negb].
    rewrite (map_fits c w1 cd Hcd1 Hfit), (map_loop_pure (data_read key)). cbn [bind].
    do 2 f_equal. apply Forall_fmap_ext. eapply Forall_impl; [exact Hall|].
    intros x (d & Hx & Hd). unfold data_read, obj_read. rewrite Hx, Hd. reflexivity.
  - intros Hv _. unfold data. cbn [is_given]. rewrite Hv. cbn [negb].
    rewrite (map_fits c w cd Hcd Hfit), (map_loop_pure (data_read key)). reflexivity.
Qed.

Lemma data_write_read_round_trip_witness :
  exists w1,
    data 9 "k" (Single (VNum 7)) world_two = Ok None w1
    /\ data 9 "k" (Single VUndef) w1 = Ok (Some [VNum 7; VNum 7]) w1.
Proof.
  assert (H : exists cd, get_comp 9 world_two = Some cd /\ elems cd = [1; 3]
                         /\ multiple cd = true).
  { eexists. split; [vm_compute; reflexivity|]. split; vm_compute; reflexivity. }
  destruct H as (cd & H1 & H2 & H3).
  destruct (proj1 (data_write_read_round_trip 9 "k" (VNum 7) world_two cd H1 (or_introl H3)
              ltac:(rewrite H2; apply (bool_decide_unpack _); vm_compute; reflexivity))
              eq_refl ltac:(discriminate)) as (w1 & Ha & Hb).
  exists w1. rewrite H2 in Hb. by split.
Defined.

(** ** Accessors: writing, then reading *)

(** A loop that writes a slot of each element in turn, read back
    afterwards: the elements are distinct nodes of the store. *)
Lemma for_each_write_read {A} (wr : nat -> nat -> world -> world) (rd : nat -> world -> A)
    (val : nat -> A) :
  (forall n i w, is_Some (nodes w !! n) -> rd n (wr n i w) = val i) ->
  (forall n m i w, n <> m -> rd m (wr n i w) = rd m w) ->
  (forall n m i w, is_Some (nodes w !! m) -> is_Some (nodes (wr n i w) !! m)) ->
  (forall n i w, comps (wr n i w) = comps w) ->
  forall l i w,
    NoDup l ->
    Forall (fun x => is_Some (nodes w !! x)) l ->
    exists w',
      for_each (fun n i w1 => Ok tt (wr n i w1)) l i w = Ok tt w'
      /\ comps w' = comps w
      /\ (forall j x, l !! j = Some x -> rd x w' = val (i + j))
      /\ (forall m, m ∉ l -> rd m w' = rd m w).
Proof.
  intros Hsame Hother Hheap Hcomps. induction l as [|y l IH]; intros i w Hnd Hin.
  - exists w. split; [reflexivity|]. split; [reflexivity|]. split; [|done].
    intros j x Hj. discriminate Hj.
  - apply NoDup_cons in Hnd as [Hy Hnd]. apply Forall_cons in Hin as [Hyin Hin].
    destruct (IH (S i) (wr y i w) Hnd) as (w' & Hrun & Hc & Hrd & Hkeep).
    { eapply Forall_impl; [exact Hin|]. intros x. apply Hheap. }
    exists w'. cbn [for_each bind]. split; [exact Hrun|]. split; [by rewrite Hc|]. split.
    + intros [|j] x Hj.
      * injection Hj as <-. rewrite Hkeep by done. rewrite Nat.add_0_r. by apply Hsame.
      * rewrite (Hrd j x Hj). f_equal. lia.
    + intros m Hm. apply not_elem_of_cons in Hm as [Hmy Hm]. rewrite Hkeep by done.
      apply Hother. congruence.
Qed.

Lemma getAttribute_setAttribute_eq n key v w :
  is_Some (nodes w !! n) ->
  (nodes (host_setAttribute n key v w) !! n ≫= fun nd => getAttribute nd key) = Some v.
Proof.
  intros [nd Hn]. unfold host_setAttribute. cbn [nodes emit]. rewrite nodes_upd_eq, Hn.
  cbn [fmap option_fmap option_map mbind option_bind]. unfold getAttribute.
  unfold with_attributes. cbn [attributes]. apply assoc_set_eq.
Qed.

(** X14. [attr(key, value)] followed by [attr(key)]: every element answers with
    the value written to it, the [i]-th entry for an array of values (the
    string "undefined" where the array is too short). The elements are
    distinct nodes of the store. *)
Theorem attr_set_then_get :
  forall c key v w cd,
    get_comp c w = Some cd ->
    mode_fits cd ->
    NoDup (elems cd) ->
    Forall (fun x => is_Some (nodes w !! x)) (elems cd) ->
    exists w1,
      attr c (AttrSet key v) w = Ok None w1
      /\ attr c (AttrGet key) w1
           = Ok (Some (imap (fun i _ => Some (pick nth_value v i)) (elems cd))) w1.
Proof.
  intros c key v w cd Hcd Hfit Hnd Hin.
  rewrite (attr_fits c w cd Hcd Hfit). cbn [attr_broadcast].
  destruct (for_each_write_read
              (fun n i => host_setAttribute n key (pick nth_value v i))
              (fun n w0 => nodes w0 !! n ≫= fun nd => getAttribute nd key)
              (fun i => Some (pick nth_value v i))) with (l := elems cd) (i := 0) (w := w)
    as (w1 & Hrun & Hc & Hrd & _); try done.
  - intros n i w0. apply getAttribute_setAttribute_eq.
  - intros n m i w0 Hne. unfold host_setAttribute. cbn [nodes emit].
    by rewrite nodes_upd_ne.
  - intros n m i w0. unfold host_setAttribute. cbn [nodes emit]. apply is_Some_nodes_upd.
  - exists w1. rewrite Hrun. cbn [bind]. split; [reflexivity|].
    assert (Hcd1 : get_comp c w1 = Some cd) by (unfold get_comp; by rewrite Hc).
    rewrite (attr_fits c w1 cd Hcd1 Hfit). cbn [attr_broadcast]. do 2 f_equal.
    apply list_eq. intros j. rewrite list_lookup_fmap, list_lookup_imap.
    destruct (elems cd !! j) as [x|] eqn:Hj; [|reflexivity].
    cbn [fmap option_fmap option_map]. f_equal. by apply Hrd.
Qed.

Lemma attr_set_then_get_witness :
  exists w1,
    attr 9 (AttrSet "title" (Array ["a"])) world_two = Ok None w1
    /\ attr 9 (AttrGet "title") w1 = Ok (Some [Some "a"; Some "undefined"]) w1.
Proof.
  assert (H : exists cd, get_comp 9 world_two = Some cd /\ elems cd = [1; 3]
                         /\ multiple cd = true).
  { eexists. split; [vm_compute; reflexivity|]. split; vm_compute; reflexivity. }
  destruct H as (cd & H1 & H2 & H3).
  destruct (attr_set_then_get 9 "title" (Array ["a"]) world_two cd H1 (or_introl H3)
              ltac:(rewrite H2; apply (bool_decide_unpack _); vm_compute; reflexivity)
              ltac:(rewrite H2; apply (bool_decide_unpack _); vm_compute; reflexivity))
    as (w1 & Ha & Hb).
  exists w1. rewrite H2 in Hb. by split.
Defined.

(** X15. [prop(key, value)] writes only a value that is neither [null] nor
    [undefined], and [prop(key)] then gives it back for every element; with
    [null] or [undefined] as the value, [prop] is a read that leaves the
    store as it is. *)
Theorem prop_set_then_get :
  forall c key v w cd,
    get_comp c w = Some cd ->
    mode_fits cd ->
    NoDup (elems cd) ->
    Forall (fun x => is_Some (nodes w !! x)) (elems cd) ->
    (is_given v = true ->
       exists w1,
         prop c (PropKey key v) w = Ok None w1
         /\ prop c (PropKey key (Single VUndef)) w1
              = Ok (Some (imap (fun i _ => pick nth_jsval v i) (elems cd))) w1)
    /\ (is_given v = false ->
       prop c (PropKey key v) w
         = Ok (Some ((fun n => host_get_property n key w) <$> elems cd)) w).
Proof.
  intros c key v w cd Hcd Hfit Hnd Hin. split; intros Hv.
  - rewrite (prop_fits c w cd Hcd Hfit). cbn [prop_broadcast]. rewrite Hv.
    destruct (for_each_write_read
                (fun n i => host_set_property n key (pick nth_jsval v i))
                (fun n w0 => host_get_property n key w0)
                (fun i => pick nth_jsval v i)) with (l := elems cd) (i := 0) (w := w)
      as (w1 & Hrun & Hc & Hrd & _); try done.
    + intros n i w0 [nd Hn]. unfold host_get_property, host_set_property.
      rewrite nodes_upd_eq, Hn. cbn [fmap option_fmap option_map mbind option_bind].
      unfold with_expando. cbn [expando]. by rewrite lookup_insert_eq.
    + intros n m i w0 Hne. unfold host_get_property, host_set_property.
      by rewrite nodes_upd_ne.
    + intros n m i w0. unfold host_set_property. apply is_Some_nodes_upd.
    + exists w1. rewrite Hrun. cbn [bind]. split; [reflexivity|].
      assert (Hcd1 : get_comp c w1 = Some cd) by (unfold get_comp; by rewrite Hc).
      rewrite (prop_fits c w1 cd Hcd1 Hfit). cbn [prop_broadcast is_given not_nullish].
      do 2 f_equal. apply list_eq. intros j. rewrite list_lookup_fmap, list_lookup_imap.
      destruct (elems cd !! j) as [x|] eqn:Hj; [|reflexivity].
      cbn [fmap option_fmap option_map]. f_equal. by apply Hrd.
  - rewrite (prop_fits c w cd Hcd Hfit). cbn [prop_broadcast]. by rewrite Hv.
Qed.

Lemma prop_set_then_get_witness :
  prop 9 (PropKey "hidden" (Single VNull)) world_two
    = Ok (Some [host_get_property 1 "hidden" world_two; host_get_property 3 "hidden" world_two])
         world_two.
Proof.
  assert (H : exists cd, get_comp 9 world_two = Some cd /\ elems cd = [1; 3]
                         /\ multiple cd = true).
  { eexists. split; [vm_compute; reflexivity|]. split; vm_compute; reflexivity. }
  destruct H as (cd & H1 & H2 & H3).
  pose proof (proj2 (prop_set_then_get 9 "hidden" (Single VNull) world_two cd H1 (or_introl H3)
              ltac:(rewrite H2; apply (bool_decide_unpack _); vm_compute; reflexivity)
              ltac:(rewrite H2; apply (bool_decide_unpack _); vm_compute; reflexivity))
              eq_refl) as H.
  rewrite H2 in H. exact H.
Defined.

(** ** Class names with an empty piece *)

Lemma classList_loop_empty_token (op : nat -> string -> world -> outcome unit) n tokens :
  (forall w, op n "" w = Throw w) ->
  (forall t w, exists w', op n t w = Ok tt w' \/ op n t w = Throw w') ->
  "" ∈ tokens ->
  forall i w, exists w',
    for_each (fun token (_ : nat) w1 => on_elem (fun x => op x token) (Some n) w1) tokens i w
      = Throw w'.
Proof.
  intros Hempty Hop. induction tokens as [|t tokens IH]; intros Hin i w.
  - by apply elem_of_nil in Hin.
  - cbn [for_each on_elem]. destruct (decide (t = "")) as [->|Hne].
    + rewrite Hempty. cbn [bind]. by exists w.
    + apply elem_of_cons in Hin as [Heq|Hin]; [congruence|].
      destruct (Hop t w) as (w1 & [H1|H1]); rewrite H1; cbn [bind].
      * by apply IH.
      * by exists w1.
Qed.

(** X16. Class names that split into an empty piece (a doubled, leading or
    trailing space, or the empty string) make [addClass] and [removeClass]
    raise on an instance that has an element: the host refuses the empty
    token. *)
Theorem addClass_empty_piece_raises :
  forall c names w cd x rest,
    get_comp c w = Some cd ->
    mode_fits cd ->
    elems cd = x :: rest ->
    "" ∈ _getSpaceSeparatedArray names ->
    (exists w', addClass c names w = Throw w')
    /\ (exists w', removeClass c names w = Throw w').
Proof.
  intros c names w cd x rest Hcd Hfit He Hin. split.
  - rewrite (addClass_fits c w cd Hcd Hfit). unfold addClass_broadcast. rewrite He.
    cbn [for_each]. unfold _addClassListElem at 1.
    destruct (classList_loop_empty_token host_classList_add x
                (_getSpaceSeparatedArray names)) with (i := 0) (w := w) as [w' Hw']; [| |done|].
    + intros w0. reflexivity.
    + intros t w0. unfold host_classList_add. destruct (String.eqb t ""); eauto.
    + exists w'. by rewrite Hw'.
  - rewrite (removeClass_fits c w cd Hcd Hfit). unfold removeClass_broadcast. rewrite He.
    cbn [for_each]. unfold _removeClassListElem at 1.
    destruct (classList_loop_empty_token host_classList_remove x
                (_getSpaceSeparatedArray names)) with (i := 0) (w := w) as [w' Hw']; [| |done|].
    + intros w0. reflexivity.
    + intros t w0. unfold host_classList_remove. destruct (String.eqb t ""); eauto.
    + exists w'. by rewrite Hw'.
Qed.

Lemma addClass_empty_piece_raises_witness :
  exists w', addClass 9 (Single "a  b") world_two = Throw w'.
Proof.
  assert (H : exists cd, get_comp 9 world_two = Some cd /\ elems cd = [1; 3]
                         /\ multiple cd = true).
  { eexists. split; [vm_compute; reflexivity|]. split; vm_compute; reflexivity. }
  destruct H as (cd & H1 & H2 & H3).
  apply (proj1 (addClass_empty_piece_raises 9 (Single "a  b") world_two cd 1 [3] H1
                  (or_introl H3) H2
                  ltac:(apply (bool_decide_unpack _); vm_compute; reflexivity))).
Defined.

(** ** Appending an instance that has neither render nor update *)

Lemma insert_entries_nodes p before l : forall w,
  insert_entries InsertFunc_appendChild (Some p) before (InsNode <$> l) w
    = Ok tt (foldl (fun acc n => host_appendChild p n acc) w l).
Proof.
  induction l as [|x l IH]; intros w; [reflexivity|].
  rewrite fmap_cons. cbn [insert_entries foldl]. unfold insert_entry at 1.
  cbn [ins_truthy ins_typeof_object negb call_insertFunc bind]. apply IH.
Qed.

Lemma log_detach n w : log (detach n w) = log w.
Proof. unfold detach. by destruct (parent_of n w). Qed.

Lemma next_node_detach n w : next_node (detach n w) = next_node w.
Proof. unfold detach. by destruct (parent_of n w). Qed.

Lemma appendChild_loop p l : forall w,
  log (foldl (fun acc n => host_appendChild p n acc) w l) = log w ++ (EvAppendChild p <$> l)
  /\ comps (foldl (fun acc n => host_appendChild p n acc) w l) = comps w
  /\ next_node (foldl (fun acc n => host_appendChild p n acc) w l) = next_node w.
Proof.
  induction l as [|x l IH]; intros w; [by rewrite app_nil_r|].
  cbn [foldl]. destruct (IH (host_appendChild p x w)) as (H1 & H2 & H3).
  rewrite H1, H2, H3. unfold host_appendChild. cbn [log comps next_node emit upd set_nodes].
  rewrite log_detach, comps_detach, next_node_detach, fmap_cons, <- app_assoc. done.
Qed.

(** X17. [append] of an instance that has neither [render] nor [update] and no
    staged clone: no mount-begin signal is given, whether or not the
    instance has a [willMount] hook; its elements are handed to
    [appendChild] of the first element of [this], in order and as they are
    (no node is created); then [_didMount] runs, which signals [didMount]
    unless the instance is already mounted. *)
Theorem append_plain_instance :
  forall e this c w p cd,
    first_elem this w = Some p ->
    get_comp c w = Some cd ->
    _v cd = None ->
    render (callbacks_of e c) = None ->
    update (callbacks_of e c) = None ->
    exists w',
      append e this [InsCalDom c] w = Ok e w'
      /\ log w' = log w ++ (EvAppendChild p <$> elems cd)
                        ++ (if _mounted cd then []
                            else hook_events has_didMount DidMount c None w)
      /\ (_mounted <$> get_comp c w') = Some true
      /\ next_node w' = next_node w.
Proof.
  intros e this c w p cd Hp Hcd Hv Hr Hu.
  set (w3 := foldl (fun acc n => host_appendChild p n acc) w (elems cd)).
  destruct (appendChild_loop p (elems cd) w) as (Hl3 & Hc3 & Hn3). fold w3 in Hl3, Hc3, Hn3.
  assert (Hrun : append e this [InsCalDom c] w
                 = Ok e (_didMount c (upd_comp c (with_v None) w3))).
  { unfold append, insertBefore. cbn [insert_items ins_truthy negb].
    unfold _willMount. rewrite Hr, Hu.
    rewrite !bool_decide_eq_false_2 by (intros [? ?]; discriminate).
    cbn [orb bind]. rewrite Hcd, Hv. cbn [default resolve_before bind].
    fold (first_elem this w). rewrite Hp, insert_entries_nodes. reflexivity. }
  exists (_didMount c (upd_comp c (with_v None) w3)). split; [exact Hrun|].
  assert (H3 : get_comp c (upd_comp c (with_v None) w3) = Some (with_v None cd)).
  { rewrite get_comp_upd_comp. unfold get_comp in *. by rewrite Hc3, Hcd. }
  unfold _didMount. rewrite H3.
  replace (_mounted (with_v None cd)) with (_mounted cd) by (by destruct cd).
  destruct (_mounted cd) eqn:Hm; cbn [negb].
  - split; [cbn [log upd_comp set_comps]; by rewrite Hl3, app_nil_r|].
    split; [by rewrite get_comp_upd_comp, H3|]. exact Hn3.
  - split.
    + rewrite log_call_hook. cbn [log upd_comp set_comps]. rewrite Hl3, <- app_assoc.
      do 2 f_equal. rewrite !hook_events_upd_comp by (intros z; by destruct z).
      by apply hook_events_comps.
    + split.
      * unfold get_comp. rewrite comps_call_hook.
        fold (get_comp c (upd_comp c (with_mounted true) (upd_comp c (with_v None) w3))).
        by rewrite get_comp_upd_comp, H3.
      * unfold call_hook.
        destruct (get_comp c (upd_comp c (with_mounted true) _)) as [x|]; [|exact Hn3].
        destruct (has_didMount x); exact Hn3.
Qed.

Lemma append_plain_instance_witness :
  exists w',
    append ∅ 0 [InsCalDom 5] world_insert = Ok ∅ w'
    /\ log w' = [EvAppendChild 1 3; EvHook DidMount 5 None].
Proof.
  assert (H0 : get_comp 5 world_insert = Some mounting_component) by (vm_compute; reflexivity).
  assert (H1 : first_elem 0 world_insert = Some 1) by (vm_compute; reflexivity).
  assert (H2 : render (callbacks_of ∅ 5) = None) by (vm_compute; reflexivity).
  assert (H3 : update (callbacks_of ∅ 5) = None) by (vm_compute; reflexivity).
  destruct (append_plain_instance ∅ 0 5 world_insert 1 mounting_component H1 H0
              eq_refl H2 H3) as (w' & Ha & Hb & _).
  exists w'. split; [exact Ha|]. rewrite Hb. vm_compute. reflexivity.
Defined.


(** ** The first render *)

(** X18. A mount of an instance that has a [render], is not mounted, and whose
    first element is missing or not yet owned by an instance (no render has
    taken place): [update] has no part in it. Whatever [update] is, or
    whether there is one, the pass is the same. *)
Theorem react_first_render_skips_update :
  forall e1 e2 c w cd r u1 u2,
    get_comp c w = Some cd ->
    _mounted cd = false ->
    (head (elems cd) ≫= fun n => nodes w !! n ≫= _h) = None ->
    callbacks_of e1 c = Callbacks (Some r) u1 ->
    callbacks_of e2 c = Callbacks (Some r) u2 ->
    react e2 c args_mounting w
      = match react e1 c args_mounting w with
        | Ok _ w' => Ok e2 w'
        | Throw w' => Throw w'
        | OutOfFuel => OutOfFuel
        end.
Proof.
  intros e1 e2 c w cd r u1 u2 Hcd Hm Hh H1 H2.
  unfold react. rewrite Hcd.
  cbn [args_mounting a_argc a_is_watched_updated a_mounting a_is_request_animation_frame
       Nat.eqb andb orb negb]. rewrite andb_false_r. cbn [negb].
  unfold react_pass. rewrite get_comp_upd_comp, Hcd.
  cbn [fmap option_fmap option_map a_mounting args_mounting].
  replace (_mounted (with_z None cd)) with false by (by destruct cd).
  replace (elems (with_z None cd)) with (elems cd) by (by destruct cd).
  replace (state (with_z None cd)) with (state cd) by (by destruct cd).
  cbn [negb andb]. rewrite get_comp_upd_comp, Hcd.
  cbn [fmap option_fmap option_map default].
  replace (_mounted (with_z None cd)) with false by (by destruct cd).
  cbn [andb negb].
  change (nodes (upd_comp c (with_z None) w)) with (nodes w). rewrite Hh.
  rewrite (bool_decide_eq_false_2 (is_Some None)) by (intros [? ?]; discriminate).
  rewrite andb_false_r. rewrite H1, H2. cbn [render update].
  rewrite (bool_decide_eq_true_2 (is_Some (Some r))) by (by eexists).
  cbn [negb orb].
  unfold id. cbn [andb negb].
  destruct u1, u2; cbn [bind negb];
    (destruct (r _ c (upd_comp c (with_z None) w)) as [new_dom w1| |]; cbn [bind];
       [|reflexivity|reflexivity]);
    (destruct new_dom as [|n|rc]; [reflexivity| |]);
    try (destruct (get_comp rc w1 ≫= _) as [n|]; [|reflexivity]);
    (destruct (head (elems cd)) as [cur|]; [|reflexivity]);
    destruct (_replace _ _ _ _) as [nr w2| |]; reflexivity.
Qed.

Lemma react_first_render_skips_update_witness :
  react env_render_only 0 args_mounting (world_with proto_component)
    = match react {[0 := Callbacks (Some render_nothing) (Some update_wants_render)]} 0
              args_mounting (world_with proto_component) with
      | Ok _ w' => Ok env_render_only w'
      | Throw w' => Throw w'
      | OutOfFuel => OutOfFuel
      end.
Proof.
  assert (H0 : get_comp 0 (world_with proto_component) = Some proto_component)
    by (vm_compute; reflexivity).
  assert (H1 : callbacks_of ({[0 := Callbacks (Some render_nothing) (Some update_wants_render)]} : env) 0
               = Callbacks (Some render_nothing) (Some update_wants_render))
    by (vm_compute; reflexivity).
  assert (H2 : callbacks_of env_render_only 0 = Callbacks (Some render_nothing) None)
    by (vm_compute; reflexivity).
  exact (react_first_render_skips_update _ _ 0 (world_with proto_component) proto_component
           render_nothing _ _ H0 eq_refl eq_refl H1 H2).
Defined.

(** ** A mounted child while its parent renders again *)

Lemma forallb_zip_self {A} (P : A -> A -> bool) (l : list A) :
  forallb (fun ab => P (fst ab) (snd ab)) (zip l l) = true ->
  Forall (fun x => P x x = true) l.
Proof.
  induction l as [|x l IH]; cbn [zip zip_with forallb fst snd]; [constructor|].
  intros H. apply andb_true_iff in H as [H1 H2]. constructor; [exact H1|by apply IH].
Qed.

(** Equality of two nodes survives every change that leaves the existing
    nodes alone, and more fuel. *)
Lemma isEqualNode_fuel_preserved f : forall f' (w w' : world) a b,
  f <= f' ->
  (forall m, is_Some (nodes w !! m) -> nodes w' !! m = nodes w !! m) ->
  isEqualNode_fuel f w a b = true ->
  isEqualNode_fuel f' w' a b = true.
Proof.
  induction f as [|f IH]; intros f' w w' a b Hle Hold H; [discriminate|].
  destruct f' as [|f']; [lia|]. cbn [isEqualNode_fuel] in *.
  destruct (nodes w !! a) as [na|] eqn:Ha; [|discriminate].
  destruct (nodes w !! b) as [nb|] eqn:Hb; [|discriminate].
  rewrite (Hold a) by (by rewrite Ha). rewrite (Hold b) by (by rewrite Hb).
  rewrite Ha, Hb.
  apply andb_true_iff in H as [H Hch]. rewrite H. cbn [andb].
  apply forallb_forall. intros [x y] Hin.
  rewrite forallb_forall in Hch. specialize (Hch (x, y) Hin).
  apply (IH f' w w'); [lia|exact Hold|exact Hch].
Qed.

Lemma clone_extends_refl w : below_mark w -> clone_extends w w.
Proof. intros H. split; [done|]. split; [lia|]. split; [done|]. split; [done|exact H]. Qed.

Lemma clone_extends_trans w1 w2 w3 :
  clone_extends w1 w2 -> clone_extends w2 w3 -> clone_extends w1 w3.
Proof.
  intros (A1 & A2 & A3 & A4 & A5) (B1 & B2 & B3 & B4 & B5).
  split; [|split; [lia|split; [congruence|split; [congruence|exact B5]]]].
  intros m Hm. rewrite B1 by lia. by apply A1.
Qed.

(** Linking a cloned child under its cloned parent touches new nodes only. *)
Lemma clone_extends_link w id cid (f g : node -> node) :
  below_mark w -> next_node w <= id -> next_node w <= cid ->
  forall w', clone_extends w w' ->
  clone_extends w (upd cid f (upd id g w')).
Proof.
  intros Hw Hid Hcid w' (A1 & A2 & A3 & A4 & A5).
  split; [|split; [exact A2|split; [exact A3|split; [exact A4|]]]].
  - intros m Hm. rewrite !nodes_upd_ne by lia. by apply A1.
  - intros m Hm. apply A5. by apply is_Some_nodes_upd, is_Some_nodes_upd in Hm.
Qed.

(** Cloning succeeds on every node that equals itself within the fuel: the
    tree below it is then finite and present. The clone is the node at the
    allocation mark. *)
Lemma cloneNode_fuel_succeeds f : forall (w0 : world) n w,
  isEqualNode_fuel f w0 n n = true ->
  (forall m, is_Some (nodes w0 !! m) -> nodes w !! m = nodes w0 !! m) ->
  below_mark w ->
  exists w',
    cloneNode_fuel f n w = Some (next_node w, w')
    /\ clone_extends w w'
    /\ is_Some (nodes w' !! next_node w)
    /\ next_node w < next_node w'.
Proof.
  induction f as [|f IH]; intros w0 n w Heq Hold Hw; [discriminate|].
  cbn [isEqualNode_fuel] in Heq. cbn [cloneNode_fuel].
  destruct (nodes w0 !! n) as [nd|] eqn:Hn; [|discriminate].
  rewrite (Hold n) by (by rewrite Hn). rewrite Hn.
  apply andb_true_iff in Heq as [_ Hch]. apply forallb_zip_self in Hch.
  unfold alloc_node. set (id := next_node w).
  set (w1 := set_next_node (S id) (set_nodes <[id := clone_shallow nd]> w)).
  assert (H1 : clone_extends w w1 /\ is_Some (nodes w1 !! id) /\ id < next_node w1).
  { split; [|split; [subst w1; cbn [nodes set_next_node set_nodes];
                     by rewrite lookup_insert_eq|subst w1; simpl; lia]].
    split; [|split; [subst w1; simpl; lia|split; [done|split; [done|]]]].
    - intros m Hm. subst w1. cbn [nodes set_next_node set_nodes].
      apply lookup_insert_ne. unfold id. lia.
    - intros m Hm. subst w1. cbn [nodes set_next_node set_nodes next_node] in *.
      apply lookup_insert_is_Some in Hm as [<-|[_ Hm]]; [lia|]. apply Hw in Hm. unfold id. lia. }
  revert H1. generalize w1. clear w1.
  induction Hch as [|ch l Hc Hl IHl]; intros wa (Hext & Hid & Hlt).
  - exists wa. split; [reflexivity|]. split; [exact Hext|]. split; [exact Hid|exact Hlt].
  - cbn [foldl].
    assert (Hwa : below_mark wa) by apply Hext.
    destruct (IH w0 ch wa Hc) as (wb & Hcl & Hextb & Hcid & Hltb); [|exact Hwa|].
    { intros m Hm. destruct Hext as (A1 & _). rewrite A1; [by apply Hold|].
      apply Hw. rewrite (Hold m Hm). exact Hm. }
    rewrite Hcl.
    apply (IHl (upd (next_node wa) (with_parentNode (Some id))
                  (upd id (fun x => with_childNodes (childNodes x ++ [next_node wa]) x) wb))).
    split; [|split].
    + apply clone_extends_link; [exact Hw|unfold id; lia|destruct Hext as (_ & A2 & _); lia|].
      by apply (clone_extends_trans w wa).
    + apply is_Some_nodes_upd, is_Some_nodes_upd.
      destruct Hextb as (B1 & _). by rewrite B1.
    + cbn [next_node upd set_nodes]. destruct Hextb as (_ & B2 & _). lia.
Qed.

(** X19. A mounted instance that is appended again while its parent renders:
    [_willMount] gives no signal and calls neither [update] nor [render];
    it stages a clone of the live root, marked with that root. Reconciling
    the staged clone against the live root then changes nothing, so the
    subtree of the child stays as it is. The live root equals itself (its
    subtree is finite and present). *)
Theorem mounted_child_survives_parent_render :
  forall e c w cd n,
    get_comp c w = Some cd ->
    _mounted cd = true ->
    head (elems cd) = Some n ->
    bool_decide (is_Some (render (callbacks_of e c)))
      || bool_decide (is_Some (update (callbacks_of e c))) = true ->
    below_mark w ->
    isEqualNode w n n = true ->
    exists cl w',
      _willMount e c w = Ok e w'
      /\ (get_comp c w' ≫= _v) = Some [cl]
      /\ log w' = log w
      /\ (forall m, is_Some (nodes w !! m) -> nodes w' !! m = nodes w !! m)
      /\ forall p, _replace (Some cl) (Some n) p w' = Ok None w'.
Proof.
  intros e c w cd n Hcd Hm Hh Hcb Hw Heq.
  set (w0 := upd_comp c (with_z None) w).
  assert (Hcd0 : get_comp c w0 = Some (with_z None cd))
    by (subst w0; by rewrite get_comp_upd_comp, Hcd).
  destruct (cloneNode_fuel_succeeds (S (size (nodes w))) w n w0 Heq) as (w1 & Hcl & Hext & Hin & Hlt);
    [done|exact Hw|].
  destruct Hext as (A1 & A2 & A3 & A4 & A5).
  change (next_node w0) with (next_node w) in *.
  set (cl := next_node w) in *.
  set (w' := upd_comp c (with_v (Some [cl]))
               (upd cl (fun x => with_original_root (Some n) (with_h (Some c) x)) w1)).
  assert (Hold : forall m, is_Some (nodes w !! m) -> nodes w' !! m = nodes w !! m).
  { intros m Hmm. pose proof (Hw m Hmm) as Hlm. subst w'. cbn [nodes upd_comp set_comps].
    rewrite nodes_upd_ne by (unfold cl; lia). by apply A1. }
  exists cl, w'. split; [|split; [|split; [|split; [exact Hold|]]]].
  - unfold _willMount. rewrite Hcb, Hcd, Hm. cbn [negb].
    unfold react. rewrite Hcd.
    cbn [args_mounting a_argc a_is_watched_updated a_mounting a_is_request_animation_frame
         Nat.eqb andb orb negb]. rewrite andb_false_r. cbn [negb].
    unfold react_pass. fold w0. rewrite Hcd0.
    cbn [a_mounting args_mounting].
    replace (_mounted (with_z None cd)) with true by (by destruct cd).
    replace (elems (with_z None cd)) with (elems cd) by (by destruct cd).
    cbn [negb andb]. rewrite Hcd0.
    cbn [fmap option_fmap option_map default]. unfold id.
    replace (_mounted (with_z None cd)) with true by (by destruct cd).
    cbn [andb negb]. rewrite Hh.
    assert (Hup : match update (callbacks_of e c) with
                  | Some upd_f => Ok true w0
                  | None => Ok true w0
                  end = Ok true w0) by (by destruct (update (callbacks_of e c))).
    rewrite Hup. cbn [bind negb]. unfold cloneNode.
    change (nodes w0) with (nodes w). rewrite Hcl. reflexivity.
  - subst w'. rewrite get_comp_upd_comp. unfold get_comp. cbn [comps upd set_nodes].
    rewrite A3. fold (get_comp c w0). by rewrite Hcd0.
  - subst w'. cbn [log upd_comp set_comps upd set_nodes]. by rewrite A4.
  - intros p.
    assert (Hn : is_Some (nodes w !! n)).
    { unfold isEqualNode in Heq. cbn [isEqualNode_fuel] in Heq.
      destruct (nodes w !! n); [by eexists|discriminate]. }
    destruct Hin as [cld Hcld].
    apply (replace_original_root_self cl n p w'
             (with_original_root (Some n) (with_h (Some c) cld))).
    + subst w'. cbn [nodes upd_comp set_comps]. by rewrite nodes_upd_eq, Hcld.
    + reflexivity.
    + by rewrite Hold.
    + unfold isEqualNode.
      apply (isEqualNode_fuel_preserved (S (size (nodes w))) _ w w'); [|exact Hold|exact Heq].
      apply le_n_S. apply map_subseteq_size. apply map_subseteq_spec.
      intros i x Hi. rewrite Hold by (by rewrite Hi). exact Hi.
Qed.

Lemma mounted_child_survives_parent_render_witness :
  exists cl w',
    _willMount {[7 := Callbacks (Some render_nothing) None]} 7 world_abc
      = Ok {[7 := Callbacks (Some render_nothing) None]} w'
    /\ _replace (Some cl) (Some 13) 1 w' = Ok None w'.
Proof.
  assert (H0 : get_comp 7 world_abc = Some item_component) by (vm_compute; reflexivity).
  assert (H1 : bool_decide (is_Some (render (callbacks_of
                  ({[7 := Callbacks (Some render_nothing) None]} : env) 7)))
               || bool_decide (is_Some (update (callbacks_of
                  ({[7 := Callbacks (Some render_nothing) None]} : env) 7))) = true)
    by (vm_compute; reflexivity).
  assert (H2 : below_mark world_abc).
  { intros m Hm. cbn [next_node world_abc world_of].
    destruct (decide (m < 1000)) as [?|Hge]; [done|]. exfalso.
    assert (E : nodes world_abc !! m = None); [|rewrite E in Hm; by destruct Hm].
    unfold world_abc, world_of. cbn [nodes].
    apply not_elem_of_list_to_map_1. cbn [fmap list_fmap fst].
    rewrite !not_elem_of_cons. repeat split; try lia. apply not_elem_of_nil. }
  assert (H3 : isEqualNode world_abc 13 13 = true) by (vm_compute; reflexivity).
  destruct (mounted_child_survives_parent_render _ 7 world_abc item_component 13
              H0 eq_refl eq_refl H1 H2 H3) as (cl & w' & Ha & _ & _ & _ & Hb).
  exists cl, w'. split; [exact Ha|exact (Hb 1)].
Defined.


(** ** A candidate that is not an element *)

Lemma upd_id n f w :
  (forall x, nodes w !! n = Some x -> f x = x) -> upd n f w = w.
Proof.
  intros Hf. unfold upd, set_nodes. rewrite (alter_id f (nodes w) n Hf). by destruct w.
Qed.

(** X20. A candidate that is not an element (a text or comment node) and does
    not equal the live node is never put into the tree: [_replace] assigns
    its character data to the live node's [nodeValue] and reports no
    replacement. On a live text or comment node that makes the data agree;
    on a live element the assignment has no effect, so the element stays
    exactly as it is, where it is. *)
Theorem replace_non_element_candidate :
  forall n o p w nd od,
    nodes w !! n = Some nd ->
    _original_root nd = None ->
    nodeType nd <> 1 ->
    nodes w !! o = Some od ->
    isEqualNode w n o = false ->
    exists w',
      _replace (Some n) (Some o) p w = Ok None w'
      /\ log w' = log w ++ [EvSetNodeValue o (nodeValue nd)]
      /\ (forall m, children_of m w' = children_of m w)
      /\ (forall m, parent_of m w' = parent_of m w)
      /\ (forall m, m <> o -> nodes w' !! m = nodes w !! m)
      /\ match kind od with
         | Element _ | DocumentNode => nodes w' = nodes w
         | _ => (nodes w' !! o ≫= nodeValue) = Some (default "" (nodeValue nd))
         end.
Proof.
  intros n o p w nd od Hn Hor Hnt Ho Hne.
  exists (host_set_nodeValue o (nodeValue nd) w).
  assert (Hsoft : soft_replacable nd od = false).
  { unfold soft_replacable. rewrite (proj2 (Nat.eqb_neq _ _) Hnt). reflexivity. }
  split; [|split; [reflexivity|split; [|split; [|split]]]].
  - unfold _replace. cbn [_replace_fuel]. rewrite Hn, Hor. cbn [default]. rewrite Hn, Ho, Hsoft.
    unfold replace_whole. rewrite Hne. cbn [negb].
    rewrite (proj2 (Nat.eqb_neq _ _) Hnt). reflexivity.
  - intros m. unfold host_set_nodeValue, children_of. cbn [nodes emit].
    fold (children_of m (upd o (fun nd0 => match kind nd0 with
                                          | Element _ | DocumentNode => nd0
                                          | _ => with_nodeValue (Some (default "" (nodeValue nd))) nd0
                                          end) w)).
    apply children_of_upd_keep. intros x. by destruct x as [[] ? ? ? ? ? ? ? ? ? ? ? ? ? ? ?].
  - intros m. unfold host_set_nodeValue, parent_of. cbn [nodes emit].
    fold (parent_of m (upd o (fun nd0 => match kind nd0 with
                                        | Element _ | DocumentNode => nd0
                                        | _ => with_nodeValue (Some (default "" (nodeValue nd))) nd0
                                        end) w)).
    apply parent_of_upd_keep. intros x. by destruct x as [[] ? ? ? ? ? ? ? ? ? ? ? ? ? ? ?].
  - intros m Hm. unfold host_set_nodeValue. cbn [nodes emit]. by rewrite nodes_upd_ne.
  - unfold host_set_nodeValue. cbn [nodes emit].
    destruct (kind od) eqn:Hk.
    + rewrite upd_id; [done|]. intros x Hx. rewrite Ho in Hx. injection Hx as <-. by rewrite Hk.
    + rewrite nodes_upd_eq, Ho. cbn [fmap option_fmap option_map mbind option_bind].
      by rewrite Hk.
    + rewrite nodes_upd_eq, Ho. cbn [fmap option_fmap option_map mbind option_bind].
      by rewrite Hk.
    + rewrite upd_id; [done|]. intros x Hx. rewrite Ho in Hx. injection Hx as <-. by rewrite Hk.
Qed.

Lemma replace_non_element_candidate_witness :
  exists w',
    _replace (Some 2) (Some 1) 100
      (world_of [(100, mk_document [1]); (1, mk_element "SPAN" [] [] (Some 100));
                 (2, mk_text "hello" None)] []) = Ok None w'
    /\ nodes w' = nodes (world_of [(100, mk_document [1]); (1, mk_element "SPAN" [] [] (Some 100));
                                   (2, mk_text "hello" None)] []).
Proof.
  destruct (replace_non_element_candidate 2 1 100
              (world_of [(100, mk_document [1]); (1, mk_element "SPAN" [] [] (Some 100));
                         (2, mk_text "hello" None)] [])
              (mk_text "hello" None) (mk_element "SPAN" [] [] (Some 100)))
    as (w' & Ha & _ & _ & _ & _ & Hb).
  - vm_compute. reflexivity.
  - reflexivity.
  - cbn. lia.
  - vm_compute. reflexivity.
  - vm_compute. reflexivity.
  - exists w'. split; [exact Ha|exact Hb].
Defined.

(** ** The order of inserted items *)

Lemma insert_child_before_middle c r pre post :
  r ∉ pre -> insert_child_before c r (pre ++ r :: post) = pre ++ c :: r :: post.
Proof.
  induction pre as [|x pre IH]; intros Hr; cbn [app insert_child_before].
  - by rewrite Nat.eqb_refl.
  - apply not_elem_of_cons in Hr as [Hne Hr].
    rewrite (proj2 (Nat.eqb_neq x r)) by congruence. by rewrite IH.
Qed.

Lemma detach_detached x w : parent_of x w = None -> detach x w = w.
Proof. intros H. unfold detach. by rewrite H. Qed.

(** Detached nodes inserted one after the other before the child [r]. *)
Lemma insert_entries_before p r post l : forall pre w,
  children_of p w = pre ++ r :: post ->
  r ∉ pre ->
  NoDup l ->
  Forall (fun x => parent_of x w = None /\ x <> r) l ->
  exists w',
    insert_entries InsertFunc_insertBefore (Some p) (BNode r) (InsNode <$> l) w = Ok tt w'
    /\ children_of p w' = pre ++ l ++ r :: post
    /\ comps w' = comps w.
Proof.
  induction l as [|x l IH]; intros pre w Hch Hr Hnd Hl.
  - exists w. by repeat split.
  - apply NoDup_cons in Hnd as [Hx Hnd]. apply Forall_cons in Hl as [[Hpx Hxr] Hl].
    rewrite fmap_cons. cbn [insert_entries]. unfold insert_entry at 1.
    cbn [ins_truthy ins_typeof_object negb call_insertFunc]. unfold host_insertBefore.
    assert (Hc : is_child r p w = true).
    { unfold is_child. apply bool_decide_eq_true_2. rewrite Hch. apply elem_of_app. right. by left. }
    rewrite Hc, (proj2 (Nat.eqb_neq r x)) by congruence. rewrite (detach_detached x w Hpx).
    cbn [bind].
    set (w1 := emit _ _).
    assert (Hch1 : children_of p w1 = (pre ++ [x]) ++ r :: post).
    { subst w1. unfold children_of at 1. cbn [nodes emit].
      fold (children_of p (upd x (with_parentNode (Some p))
              (upd p (fun nd => with_childNodes (insert_child_before x r (childNodes nd)) nd) w))).
      rewrite children_of_upd_keep by (intros z; by destruct z).
      rewrite children_of_upd_eq. unfold children_of in Hch.
      destruct (nodes w !! p) as [pd|]; [|by destruct pre].
      simpl in Hch. simpl. rewrite Hch.
      rewrite insert_child_before_middle by done. by rewrite <- app_assoc. }
    destruct (IH (pre ++ [x]) w1 Hch1) as (w' & Hrun & Hch' & Hc'); [| exact Hnd | |].
    + rewrite not_elem_of_app, list_elem_of_singleton. split; [done|congruence].
    + apply Forall_forall. intros y Hy. rewrite Forall_forall in Hl.
      destruct (Hl y Hy) as [Hpy Hyr]. split; [|done].
      assert (Hyx : y <> x) by (intros ->; done).
      subst w1. unfold parent_of. cbn [nodes emit]. rewrite nodes_upd_ne by congruence.
      fold (parent_of y (upd p (fun nd => with_childNodes
              (insert_child_before x r (childNodes nd)) nd) w)).
      rewrite parent_of_upd_keep by (intros z; by destruct z). exact Hpy.
    + exists w'. split; [exact Hrun|]. split; [|by rewrite Hc'].
      rewrite Hch', <- app_assoc. reflexivity.
Qed.

(** Detached nodes appended one after the other. *)
Lemma appendChild_loop_children p l : forall w,
  is_Some (nodes w !! p) ->
  NoDup l ->
  Forall (fun x => parent_of x w = None) l ->
  children_of p (foldl (fun acc n => host_appendChild p n acc) w l) = children_of p w ++ l.
Proof.
  induction l as [|x l IH]; intros w Hp Hnd Hl; [by rewrite app_nil_r|].
  apply NoDup_cons in Hnd as [Hx Hnd]. apply Forall_cons in Hl as [Hpx Hl].
  cbn [foldl]. rewrite IH.
  - unfold host_appendChild. rewrite (detach_detached x w Hpx).
    unfold children_of at 1. cbn [nodes emit].
    fold (children_of p (upd x (with_parentNode (Some p))
            (upd p (fun nd => with_childNodes (childNodes nd ++ [x]) nd) w))).
    rewrite children_of_upd_keep by (intros z; by destruct z).
    rewrite (children_of_upd_eq p (fun cs => cs ++ [x])). unfold children_of.
    destruct Hp as [pd Hp]. rewrite Hp. simpl. rewrite <- app_assoc. reflexivity.
  - unfold host_appendChild. rewrite (detach_detached x w Hpx). cbn [nodes emit].
    by apply is_Some_nodes_upd, is_Some_nodes_upd.
  - exact Hnd.
  - apply Forall_forall. intros y Hy. rewrite Forall_forall in Hl.
    assert (Hyx : y <> x) by (intros ->; done).
    unfold host_appendChild. rewrite (detach_detached x w Hpx).
    unfold parent_of. cbn [nodes emit]. rewrite nodes_upd_ne by congruence.
    fold (parent_of y (upd p (fun nd => with_childNodes (childNodes nd ++ [x]) nd) w)).
    rewrite parent_of_upd_keep by (intros z; by destruct z). by apply Hl.
Qed.

(** Detached nodes inserted one after the other with a [null] reference. *)
Lemma insert_entries_null p l : forall w,
  is_Some (nodes w !! p) ->
  NoDup l ->
  Forall (fun x => parent_of x w = None) l ->
  exists w',
    insert_entries InsertFunc_insertBefore (Some p) BNull (InsNode <$> l) w = Ok tt w'
    /\ children_of p w' = children_of p w ++ l.
Proof.
  induction l as [|x l IH]; intros w Hp Hnd Hl.
  - exists w. split; [reflexivity|]. by rewrite app_nil_r.
  - apply NoDup_cons in Hnd as [Hx Hnd]. apply Forall_cons in Hl as [Hpx Hl].
    rewrite fmap_cons. cbn [insert_entries]. unfold insert_entry at 1.
    cbn [ins_truthy ins_typeof_object negb call_insertFunc host_insertBefore bind].
    rewrite (detach_detached x w Hpx).
    set (w1 := emit _ _).
    assert (Hch1 : children_of p w1 = children_of p w ++ [x]).
    { subst w1. unfold children_of at 1. cbn [nodes emit].
      fold (children_of p (upd x (with_parentNode (Some p))
              (upd p (fun nd => with_childNodes (childNodes nd ++ [x]) nd) w))).
      rewrite children_of_upd_keep by (intros z; by destruct z).
      rewrite (children_of_upd_eq p (fun cs => cs ++ [x])). unfold children_of.
      destruct Hp as [pd Hp]. rewrite Hp. reflexivity. }
    destruct (IH w1) as (w' & Hrun & Hch'); [| exact Hnd | |].
    + subst w1. cbn [nodes emit]. by apply is_Some_nodes_upd, is_Some_nodes_upd.
    + apply Forall_forall. intros y Hy. rewrite Forall_forall in Hl.
      assert (Hyx : y <> x) by (intros ->; done).
      subst w1. unfold parent_of. cbn [nodes emit]. rewrite nodes_upd_ne by congruence.
      fold (parent_of y (upd p (fun nd => with_childNodes (childNodes nd ++ [x]) nd) w)).
      rewrite parent_of_upd_keep by (intros z; by destruct z). by apply Hl.
    + exists w'. split; [exact Hrun|]. rewrite Hch', Hch1, <- app_assoc. reflexivity.
Qed.

(** The reference of [prepend] is resolved once, by the first item. *)
Lemma insert_items_resolved f e this p x rest w :
  first_elem this w = Some p ->
  insert_items f e this (InsNode x :: rest) BUndef w
    = insert_items f e this (InsNode x :: rest)
        (match head (children_of p w) with Some fc => BNode fc | None => BNull end) w.
Proof.
  intros Hp. cbn [insert_items ins_truthy negb array_like_entries default].
  fold (first_elem this w). rewrite Hp. cbn [resolve_before bind].
  by destruct (head (children_of p w)).
Qed.

(** X21. [append] and [prepend] keep the order of the items. For distinct
    detached nodes handed to an instance whose first element is in the
    document (its children naming it as their parent): [append] puts them
    behind the children of that element, [prepend] without a reference puts
    them, in the same order, in front of the children. *)
Theorem append_prepend_keep_item_order :
  forall e this w p l,
    first_elem this w = Some p ->
    _isNodeConnected p w = true ->
    Forall (fun x => parent_of x w = Some p) (children_of p w) ->
    NoDup l ->
    Forall (fun x => parent_of x w = None
                     /\ (kind <$> nodes w !! x) <> Some DocumentNode
                     /\ is_Some (nodes w !! x)) l ->
    (exists w', append e this (InsNode <$> l) w = Ok e w'
                /\ children_of p w' = children_of p w ++ l)
    /\ (exists w', prepend e this (InsNode <$> l) BUndef w = Ok e w'
                   /\ children_of p w' = l ++ children_of p w).
Proof.
  intros e this w p l Hp Hconn Hcons Hnd Hl.
  assert (Hpin : is_Some (nodes w !! p)).
  { unfold _isNodeConnected in Hconn. cbn [isConnected_fuel] in Hconn.
    destruct (nodes w !! p); [by eexists|discriminate]. }
  assert (Hsimple : Forall (fun x => is_simple_entry x = true) (InsNode <$> l)).
  { apply Forall_fmap. by apply Forall_true. }
  assert (Hdet : Forall (fun x => parent_of x w = None) l).
  { eapply Forall_impl; [exact Hl|]. by intros x (H & _). }
  split.
  - exists (foldl (fun acc n => host_appendChild p n acc) w l). split.
    + unfold append, insertBefore.
      rewrite <- (app_nil_r (InsNode <$> l)).
      rewrite (insert_items_app_simple InsertFunc_appendChild e this BNull) by done.
      rewrite Hp, insert_entries_nodes. reflexivity.
    + by apply appendChild_loop_children.
  - unfold prepend, insertBefore. destruct l as [|x l].
    + exists w. split; [reflexivity|]. by rewrite app_nil_l.
    + rewrite fmap_cons, (insert_items_resolved _ e this p x (InsNode <$> l) w Hp).
      rewrite <- fmap_cons, <- (app_nil_r (InsNode <$> x :: l)).
      destruct (children_of p w) as [|fc rest] eqn:Hch; cbn [head].
      * rewrite (insert_items_app_simple InsertFunc_insertBefore e this BNull) by done.
        rewrite Hp.
        destruct (insert_entries_null p (x :: l) w Hpin Hnd Hdet) as (w' & Hrun & Hch').
        exists w'. rewrite Hrun. cbn [bind insert_items]. split; [reflexivity|].
        by rewrite Hch', Hch, app_nil_r.
      * rewrite (insert_items_app_simple InsertFunc_insertBefore e this (BNode fc)) by done.
        rewrite Hp.
        destruct (insert_entries_before p fc rest (x :: l) [] w) as (w' & Hrun & Hch' & _);
          [by rewrite Hch|apply not_elem_of_nil|exact Hnd| |].
        -- apply Forall_forall. intros y Hy. rewrite Forall_forall in Hdet.
           split; [by apply Hdet|]. intros ->.
           assert (Hfc : parent_of fc w = None) by (by apply Hdet).
           apply Forall_cons in Hcons as [Hfc' _]. congruence.
        -- exists w'. rewrite Hrun. cbn [bind insert_items]. split; [reflexivity|].
           by rewrite Hch'.
Qed.

Lemma append_prepend_keep_item_order_witness :
  exists w',
    prepend ∅ 0 (InsNode <$> [3; 4]) BUndef
      (world_of [(100, mk_document [1]); (1, mk_element "DIV" [] [2] (Some 100));
                 (2, mk_element "P" [] [] (Some 1)); (3, mk_element "P" [] [] None);
                 (4, mk_element "P" [] [] None)]
                [(0, with_elems [1] proto_component)]) = Ok ∅ w'
    /\ children_of 1 w' = [3; 4; 2].
Proof.
  set (w := world_of [(100, mk_document [1]); (1, mk_element "DIV" [] [2] (Some 100));
                      (2, mk_element "P" [] [] (Some 1)); (3, mk_element "P" [] [] None);
                      (4, mk_element "P" [] [] None)]
                     [(0, with_elems [1] proto_component)]).
  assert (H1 : first_elem 0 w = Some 1) by (vm_compute; reflexivity).
  assert (H2 : _isNodeConnected 1 w = true) by (vm_compute; reflexivity).
  assert (H3 : children_of 1 w = [2]) by (vm_compute; reflexivity).
  destruct (proj2 (append_prepend_keep_item_order ∅ 0 w 1 [3; 4] H1 H2
      ltac:(rewrite H3; repeat constructor)
      ltac:(apply (bool_decide_unpack _); vm_compute; reflexivity)
      ltac:(repeat constructor; try (vm_compute; discriminate); by eexists)))
    as (w' & Ha & Hb).
  exists w'. split; [exact Ha|]. rewrite Hb, H3. reflexivity.
Defined.

(** ** The items of the insertion engine, kind by kind *)






